(** * Spektor-Skope: detection, alert and sweep logic of [frontend/src/App.js]

    The React component [App] is embedded as a transition system.  JavaScript
    numbers are IEEE-754 binary64 values, modelled by Rocq's primitive [float]
    (same format, same rounding); millisecond timestamps and the detection
    counter hold integers and are modelled in [Z].  Ambient inputs of the
    browser ([Math.random], [Date.now], the outcome of promises) are carried
    by the events that drive the system.  Event handlers read the component
    state of the latest render; renders are taken to be flushed between two
    events.  The drawing of the stick figure and the history list do not
    feed back into this logic and are modelled on their own; the audio
    synthesis and the screenshot are left out. *)

From Stdlib Require Import Floats ZArith String List Bool Lia.
Import ListNotations.

Set Warnings "-inexact-float".
Local Open Scope float_scope.

(** ** JavaScript number operations used by the component *)

Module JS.

(** [Math.max(a, b)]: NaN is contagious, and [+0] is larger than [-0]. *)
Definition Math_max (a b : float) : float :=
  if is_nan a || is_nan b then nan
  else if a <? b then b
  else if b <? a then a
  else if get_sign a then b else a.

(** [Math.min(a, b)]: NaN is contagious, and [-0] is smaller than [+0]. *)
Definition Math_min (a b : float) : float :=
  if is_nan a || is_nan b then nan
  else if a <? b then a
  else if b <? a then b
  else if get_sign a then a else b.

(** A (small) integer as a number. *)
Definition ofZ (n : Z) : float :=
  if (n <? 0)%Z then - of_uint63 (Uint63.of_Z (- n))
  else of_uint63 (Uint63.of_Z n).

(** [arr.length] as a number. *)
Definition ofNat (n : nat) : float := ofZ (Z.of_nat n).

(** The signed mantissa of a finite value [(-1)^s * m * 2^e]. *)
Definition signed (s : bool) (m : positive) : Z :=
  if s then Z.neg m else Z.pos m.

(** [floor(x + 1/2)] for the finite value [(-1)^s * m * 2^e], [e < 0]. *)
Definition roundZ (s : bool) (m : positive) (e : Z) : Z :=
  ((2 * signed s m + 2 ^ (- e)) / 2 ^ (1 - e))%Z.

(** [Math.round(x)]: the nearest integer, ties towards +infinity; NaN,
    infinities, zeros and integers are returned as they are, and a result
    that rounds to zero keeps the sign of [x]. *)
Definition Math_round (x : float) : float :=
  match Prim2SF x with
  | S754_finite s m e =>
      if (0 <=? e)%Z then x
      else
        let n := roundZ s m e in
        if (n =? 0)%Z then (if s then neg_zero else zero) else ofZ n
  | _ => x
  end.

(** [Math.floor(x)] as an integer, for use as an array index; [None] when
    [x] is NaN or infinite. *)
Definition Math_floor (x : float) : option Z :=
  match Prim2SF x with
  | S754_finite s m e =>
      Some (if (0 <=? e)%Z then signed s m * 2 ^ e
            else signed s m / 2 ^ (- e))%Z
  | S754_zero _ => Some 0%Z
  | _ => None
  end.

End JS.

(** ** Data *)

(** line 11: the word bank of the spirit box. *)
Definition SPIRIT_WORDS : list string :=
  [ "hello"; "help"; "here"; "yes"; "no"; "leave"; "stay"; "danger";
    "follow"; "behind"; "cold"; "dark"; "light"; "death"; "life";
    "lost"; "find"; "home"; "gone"; "watch"; "listen"; "quiet";
    "run"; "stop"; "wait"; "soon"; "never"; "always"; "fear" ]%string.

(** A keypoint and a pose as the pose detector returns them. *)
Record Keypoint := mkKeypoint
  { name : string; x : float; y : float; score : float }.

Record Pose := mkPose { keypoints : list Keypoint }.

(** The values of [Math.random()] and [Date.now()] read while one pose of a
    frame is processed (lines 198 and 202). *)
Record Reading := mkReading { rnd : float; now : Z }.

(** Callbacks handed to [setTimeout]. *)
Inductive Timer :=
| ClearAlertMessage   (* () => setAlertMessage("")  *)
| ClearSpiritWord.    (* () => setSpiritWord("")    *)

(** Calls made to the collaborators: the alert presented to the user
    ([playAlertSound], together with the [now] of the alert), and the
    requests to the persistence backend with their payloads. *)
Inductive Effect :=
| AlertEvent (firedAt : Z)
| PostSession
| PutSession (id : string) (total_detections : Z) (max_emf_level : float)
| PostDetection (confidence : float) (keypoints_count : nat)
                (emf_level : float) (spirit_box_frequency : option float).

(** The component: its refs, its state, and the part of the browser's
    scheduler that holds its callbacks. *)
Record App := mkApp
  { (* refs *)
    detectorRef : bool;            (* detectorRef.current is set *)
    srcObject : bool;              (* videoRef.current.srcObject is set *)
    animationRef : option nat;     (* last requestAnimationFrame handle *)
    lastAlertTime : Z;
    (* state *)
    isRunning : bool;
    detectionCount : Z;
    emfLevel : float;
    spiritBoxFreq : float;
    spiritBoxActive : bool;
    spiritWord : string;
    alertMessage : string;
    currentPoses : list Pose;
    sessionId : option string;
    (* scheduler *)
    rafQueue : list nat;           (* pending animation-frame callbacks *)
    rafNext : nat;                 (* next handle to hand out *)
    inflight : nat;                (* detectPoses calls awaiting the detector *)
    sweepInterval : bool;          (* the sweep effect's interval is armed *)
    timers : list Timer;           (* pending timeouts, oldest first *)
    (* collaborators *)
    effects : list Effect          (* calls made so far, oldest first *)
  }.

(** The component as mounted (lines 20-39); the animation handle starts
    [null], the last alert time [0], the frequency [88.1]. *)
Definition mount (detectorOk : bool) : App :=
  {| detectorRef := detectorOk; srcObject := false; animationRef := None;
     lastAlertTime := 0;
     isRunning := false; detectionCount := 0; emfLevel := 0;
     spiritBoxFreq := 88.1; spiritBoxActive := false; spiritWord := "";
     alertMessage := ""; currentPoses := []; sessionId := None;
     rafQueue := []; rafNext := 1; inflight := 0; sweepInterval := false;
     timers := []; effects := [] |}.

Notation "a |> f" := (f a) (at level 45, left associativity, only parsing).

(** *** Field updates *)

Definition set_detectorRef (v : bool) (a : App) : App :=
  mkApp v (srcObject a) (animationRef a) (lastAlertTime a) (isRunning a)
    (detectionCount a) (emfLevel a) (spiritBoxFreq a) (spiritBoxActive a)
    (spiritWord a) (alertMessage a) (currentPoses a) (sessionId a)
    (rafQueue a) (rafNext a) (inflight a) (sweepInterval a) (timers a)
    (effects a).

Definition set_srcObject (v : bool) (a : App) : App :=
  mkApp (detectorRef a) v (animationRef a) (lastAlertTime a) (isRunning a)
    (detectionCount a) (emfLevel a) (spiritBoxFreq a) (spiritBoxActive a)
    (spiritWord a) (alertMessage a) (currentPoses a) (sessionId a)
    (rafQueue a) (rafNext a) (inflight a) (sweepInterval a) (timers a)
    (effects a).

Definition set_lastAlertTime (v : Z) (a : App) : App :=
  mkApp (detectorRef a) (srcObject a) (animationRef a) v (isRunning a)
    (detectionCount a) (emfLevel a) (spiritBoxFreq a) (spiritBoxActive a)
    (spiritWord a) (alertMessage a) (currentPoses a) (sessionId a)
    (rafQueue a) (rafNext a) (inflight a) (sweepInterval a) (timers a)
    (effects a).

Definition setIsRunning (v : bool) (a : App) : App :=
  mkApp (detectorRef a) (srcObject a) (animationRef a) (lastAlertTime a) v
    (detectionCount a) (emfLevel a) (spiritBoxFreq a) (spiritBoxActive a)
    (spiritWord a) (alertMessage a) (currentPoses a) (sessionId a)
    (rafQueue a) (rafNext a) (inflight a) (sweepInterval a) (timers a)
    (effects a).

(** State setters that take an updater [prev => ...], as React's do. *)
Definition setDetectionCount (f : Z -> Z) (a : App) : App :=
  mkApp (detectorRef a) (srcObject a) (animationRef a) (lastAlertTime a)
    (isRunning a) (f (detectionCount a)) (emfLevel a) (spiritBoxFreq a)
    (spiritBoxActive a) (spiritWord a) (alertMessage a) (currentPoses a)
    (sessionId a) (rafQueue a) (rafNext a) (inflight a) (sweepInterval a)
    (timers a) (effects a).

Definition setEmfLevel (f : float -> float) (a : App) : App :=
  mkApp (detectorRef a) (srcObject a) (animationRef a) (lastAlertTime a)
    (isRunning a) (detectionCount a) (f (emfLevel a)) (spiritBoxFreq a)
    (spiritBoxActive a) (spiritWord a) (alertMessage a) (currentPoses a)
    (sessionId a) (rafQueue a) (rafNext a) (inflight a) (sweepInterval a)
    (timers a) (effects a).

Definition setSpiritBoxFreq (f : float -> float) (a : App) : App :=
  mkApp (detectorRef a) (srcObject a) (animationRef a) (lastAlertTime a)
    (isRunning a) (detectionCount a) (emfLevel a) (f (spiritBoxFreq a))
    (spiritBoxActive a) (spiritWord a) (alertMessage a) (currentPoses a)
    (sessionId a) (rafQueue a) (rafNext a) (inflight a) (sweepInterval a)
    (timers a) (effects a).

Definition setSpiritWord (v : string) (a : App) : App :=
  mkApp (detectorRef a) (srcObject a) (animationRef a) (lastAlertTime a)
    (isRunning a) (detectionCount a) (emfLevel a) (spiritBoxFreq a)
    (spiritBoxActive a) v (alertMessage a) (currentPoses a) (sessionId a)
    (rafQueue a) (rafNext a) (inflight a) (sweepInterval a) (timers a)
    (effects a).

Definition setAlertMessage (v : string) (a : App) : App :=
  mkApp (detectorRef a) (srcObject a) (animationRef a) (lastAlertTime a)
    (isRunning a) (detectionCount a) (emfLevel a) (spiritBoxFreq a)
    (spiritBoxActive a) (spiritWord a) v (currentPoses a) (sessionId a)
    (rafQueue a) (rafNext a) (inflight a) (sweepInterval a) (timers a)
    (effects a).

Definition setCurrentPoses (v : list Pose) (a : App) : App :=
  mkApp (detectorRef a) (srcObject a) (animationRef a) (lastAlertTime a)
    (isRunning a) (detectionCount a) (emfLevel a) (spiritBoxFreq a)
    (spiritBoxActive a) (spiritWord a) (alertMessage a) v (sessionId a)
    (rafQueue a) (rafNext a) (inflight a) (sweepInterval a) (timers a)
    (effects a).

Definition setSessionId (v : option string) (a : App) : App :=
  mkApp (detectorRef a) (srcObject a) (animationRef a) (lastAlertTime a)
    (isRunning a) (detectionCount a) (emfLevel a) (spiritBoxFreq a)
    (spiritBoxActive a) (spiritWord a) (alertMessage a) (currentPoses a) v
    (rafQueue a) (rafNext a) (inflight a) (sweepInterval a) (timers a)
    (effects a).

Definition set_inflight (f : nat -> nat) (a : App) : App :=
  mkApp (detectorRef a) (srcObject a) (animationRef a) (lastAlertTime a)
    (isRunning a) (detectionCount a) (emfLevel a) (spiritBoxFreq a)
    (spiritBoxActive a) (spiritWord a) (alertMessage a) (currentPoses a)
    (sessionId a) (rafQueue a) (rafNext a) (f (inflight a)) (sweepInterval a)
    (timers a) (effects a).

Definition set_timers (f : list Timer -> list Timer) (a : App) : App :=
  mkApp (detectorRef a) (srcObject a) (animationRef a) (lastAlertTime a)
    (isRunning a) (detectionCount a) (emfLevel a) (spiritBoxFreq a)
    (spiritBoxActive a) (spiritWord a) (alertMessage a) (currentPoses a)
    (sessionId a) (rafQueue a) (rafNext a) (inflight a) (sweepInterval a)
    (f (timers a)) (effects a).

Definition emit (e : Effect) (a : App) : App :=
  mkApp (detectorRef a) (srcObject a) (animationRef a) (lastAlertTime a)
    (isRunning a) (detectionCount a) (emfLevel a) (spiritBoxFreq a)
    (spiritBoxActive a) (spiritWord a) (alertMessage a) (currentPoses a)
    (sessionId a) (rafQueue a) (rafNext a) (inflight a) (sweepInterval a)
    (timers a) (effects a ++ [e]).

(** *** Browser services *)

(** [animationRef.current = requestAnimationFrame(detectPoses)]: a fresh
    handle is queued and stored. *)
Definition requestAnimationFrame (a : App) : App :=
  mkApp (detectorRef a) (srcObject a) (Some (rafNext a)) (lastAlertTime a)
    (isRunning a) (detectionCount a) (emfLevel a) (spiritBoxFreq a)
    (spiritBoxActive a) (spiritWord a) (alertMessage a) (currentPoses a)
    (sessionId a) (rafQueue a ++ [rafNext a]) (S (rafNext a)) (inflight a)
    (sweepInterval a) (timers a) (effects a).

Definition set_rafQueue (f : list nat -> list nat) (a : App) : App :=
  mkApp (detectorRef a) (srcObject a) (animationRef a) (lastAlertTime a)
    (isRunning a) (detectionCount a) (emfLevel a) (spiritBoxFreq a)
    (spiritBoxActive a) (spiritWord a) (alertMessage a) (currentPoses a)
    (sessionId a) (f (rafQueue a)) (rafNext a) (inflight a) (sweepInterval a)
    (timers a) (effects a).

Definition dequeue (id : nat) (q : list nat) : list nat :=
  filter (fun i => negb (Nat.eqb i id)) q.

(** [cancelAnimationFrame(h)]: the callback with that handle, if it is still
    pending, is dropped; a [null] handle cancels nothing. *)
Definition cancelAnimationFrame (h : option nat) (a : App) : App :=
  match h with
  | Some id => set_rafQueue (dequeue id) a
  | None => a
  end.

(** [setInterval] / [clearInterval] of the sweep effect. *)
Definition set_sweepInterval (v : bool) (a : App) : App :=
  mkApp (detectorRef a) (srcObject a) (animationRef a) (lastAlertTime a)
    (isRunning a) (detectionCount a) (emfLevel a) (spiritBoxFreq a)
    (spiritBoxActive a) (spiritWord a) (alertMessage a) (currentPoses a)
    (sessionId a) (rafQueue a) (rafNext a) (inflight a) v (timers a)
    (effects a).

Definition setTimeout (t : Timer) (a : App) : App :=
  set_timers (fun ts => ts ++ [t]) a.

Definition set_spiritBoxActive (v : bool) (a : App) : App :=
  mkApp (detectorRef a) (srcObject a) (animationRef a) (lastAlertTime a)
    (isRunning a) (detectionCount a) (emfLevel a) (spiritBoxFreq a)
    v (spiritWord a) (alertMessage a) (currentPoses a)
    (sessionId a) (rafQueue a) (rafNext a) (inflight a) (sweepInterval a)
    (timers a) (effects a).

(** [setSpiritBoxActive(v)] followed by the effect of lines 224-244, whose
    only dependency is [spiritBoxActive]: when the value changes to [true]
    the interval is set, when it changes to [false] the cleanup
    [clearInterval(interval)] runs.  Nothing else is cleaned up. *)
Definition setSpiritBoxActive (v : bool) (a : App) : App :=
  if Bool.eqb v (spiritBoxActive a) then a
  else a |> set_spiritBoxActive v |> set_sweepInterval v.

(** ** The detection loop (lines 161-221) *)

(** line 192: [pose.keypoints.filter((kp) => kp.score > 0.3)]. *)
Definition validKeypoints (pose : Pose) : list Keypoint :=
  filter (fun kp => 0.3 <? score kp) (keypoints pose).

(** lines 197 and 316:
    [valid.reduce((a, b) => a + b.score, 0) / valid.length]. *)
Definition avgScore (valid : list Keypoint) : float :=
  fold_left (fun a b => a + score b) valid 0 / JS.ofNat (length valid).

(** line 193: the test a pose has to pass to count as a detection. *)
Definition qualifying (pose : Pose) : bool :=
  (5 <? length (validKeypoints pose))%nat.

(** line 198. *)
Definition newEmf (pose : Pose) (random : float) : float :=
  JS.Math_min 5 (avgScore (validKeypoints pose) * 5 + random * 0.5).

(** line 203: the throttle test. *)
Definition throttleOpen (now_ last : Z) : bool := (3000 <? now_ - last)%Z.

(** lines 204-208: the alert. *)
Definition fireAlert (now_ : Z) (a : App) : App :=
  a |> set_lastAlertTime now_
    |> setDetectionCount (fun prev => (prev + 1)%Z)
    |> setAlertMessage "ENTITY DETECTED"
    |> emit (AlertEvent now_)
    |> setTimeout ClearAlertMessage.

(** lines 192-210: the body of [poses.forEach]. *)
Definition onPose (a : App) (pr : Pose * Reading) : App :=
  let (pose, env) := pr in
  if qualifying pose then
    let a := setEmfLevel (fun _ => newEmf pose (rnd env)) a in
    if throttleOpen (now env) (lastAlertTime a) then fireAlert (now env) a
    else a
  else a.

(** line 214: [setEmfLevel((prev) => Math.max(0, prev - 0.1))]. *)
Definition decay (prev : float) : float := JS.Math_max 0 (prev - 0.1).

(** lines 188-215: what a resolved [estimatePoses] does to the state. *)
Definition onPoses (poses : list (Pose * Reading)) (a : App) : App :=
  let a := setCurrentPoses (map fst poses) a in
  if (0 <? length poses)%nat then fold_left onPose poses a
  else setEmfLevel decay a.

(** lines 162-187: [detectPoses] up to its [await].  [ready] tells whether
    the video element reports [readyState === 4]; it cannot once the stream
    has been detached. *)
Definition detectPoses (ready : bool) (a : App) : App :=
  if negb (detectorRef a) then a
  else if negb (ready && srcObject a) then requestAnimationFrame a
  else set_inflight S a.

(** lines 188-220: [detectPoses] after its [await], when the detector
    answered with [poses]. *)
Definition detectPoses_resolved (poses : list (Pose * Reading)) (a : App)
  : App :=
  a |> set_inflight Nat.pred |> onPoses poses |> requestAnimationFrame.

(** lines 216-220: the same when the detector threw. *)
Definition detectPoses_rejected (a : App) : App :=
  a |> set_inflight Nat.pred |> requestAnimationFrame.

(** ** The frequency sweep (lines 224-244) *)

(** line 229: the step drawn from [Math.random()]. *)
Definition sweepDelta (random : float) : float := (random * 2 - 1) * 0.5.

(** lines 229-232, with the step as a parameter. *)
Definition nextFreq (prev delta : float) : float :=
  let next := prev + delta in
  let next := if 108 <? next then 88 else next in
  let next := if next <? 88 then 108 else next in
  JS.Math_round (next * 10) / 10.

(** line 237: [SPIRIT_WORDS[Math.floor(Math.random() * SPIRIT_WORDS.length)]];
    an index outside the array gives [undefined], which the component
    renders like the empty string. *)
Definition pickWord (random : float) : string :=
  match JS.Math_floor (random * JS.ofNat (length SPIRIT_WORDS)) with
  | Some i => if (i <? 0)%Z then "" else nth (Z.to_nat i) SPIRIT_WORDS ""
  | None => ""
  end%string.

(** lines 227-241: the interval callback; [r1], [r2], [r3] are its three
    calls of [Math.random()]. *)
Definition sweepTick (r1 r2 r3 : float) (a : App) : App :=
  let a := setSpiritBoxFreq (fun prev => nextFreq prev (sweepDelta r1)) a in
  if r2 <? 0.05
  then a |> setSpiritWord (pickWord r3) |> setTimeout ClearSpiritWord
  else a.

Definition runTimer (t : Timer) (a : App) : App :=
  match t with
  | ClearAlertMessage => setAlertMessage "" a
  | ClearSpiritWord => setSpiritWord "" a
  end.

Fixpoint remove_nth {A} (i : nat) (l : list A) : list A :=
  match l, i with
  | [], _ => []
  | _ :: l', O => l'
  | v :: l', S j => v :: remove_nth j l'
  end.

(** ** Session control (lines 64-89 and 247-288) *)

(** What the environment answers while a session starts. *)
Record StartEnv := mkStartEnv
  { detectorOk : bool;             (* initializeDetector succeeds *)
    cameraOk : bool;               (* getUserMedia and play succeed *)
    videoReady : bool;             (* readyState === 4 when detectPoses runs *)
    newSession : option string }.  (* id returned by POST /sessions *)

(** lines 42-61, as called from [toggleSession]. *)
Definition initializeDetector (ok : bool) (a : App) : App :=
  if ok then set_detectorRef true a else a.

(** lines 64-80. *)
Definition startCamera (ok : bool) (a : App) : App :=
  if ok then set_srcObject true a
  else setAlertMessage "Camera access denied" a.

(** lines 83-89. *)
Definition stopCamera (a : App) : App := set_srcObject false a.

(** lines 279-285. *)
Definition createSession (res : option string) (a : App) : App :=
  let a := emit PostSession a in
  match res with
  | Some id => setSessionId (Some id) a
  | None => a
  end.

(** lines 256-266: the summary sent when the session stops; [seen] is the
    state the handler closed over. *)
Definition closeSession (seen : App) (a : App) : App :=
  match sessionId seen with
  | Some id => emit (PutSession id (detectionCount seen) (emfLevel seen)) a
  | None => a
  end.

(** lines 247-288. *)
Definition toggleSession (env : StartEnv) (a : App) : App :=
  if isRunning a then
    a |> cancelAnimationFrame (animationRef a)
      |> stopCamera
      |> setIsRunning false
      |> setSpiritBoxActive false
      |> closeSession a
  else
    let a := if negb (detectorRef a) then initializeDetector (detectorOk env) a
             else a in
    let a := startCamera (cameraOk env) a in
    if cameraOk env then
      a |> setIsRunning true
        |> setDetectionCount (fun _ => 0%Z)
        |> setEmfLevel (fun _ => 0)
        |> detectPoses (videoReady env)
        |> createSession (newSession env)
    else a.

(** ** Logging a detection (lines 311-333) *)

(** [posted] tells whether the request succeeded. *)
Definition logDetection (posted : bool) (a : App) : App :=
  match currentPoses a with
  | [] => a
  | pose :: _ =>
      let valid := validKeypoints pose in
      let avgConfidence := avgScore valid in
      let a' := emit (PostDetection avgConfidence (length valid) (emfLevel a)
                        (if spiritBoxActive a then Some (spiritBoxFreq a)
                         else None)) a in
      if posted then
        a' |> setAlertMessage "DETECTION LOGGED" |> setTimeout ClearAlertMessage
      else a'
  end.

(** ** The transition system *)

Inductive Event :=
| ClickToggle (env : StartEnv)                 (* the START / STOP button *)
| ClickSpirit                                  (* the SPIRIT button *)
| ClickLog (posted : bool)                     (* the log-detection button *)
| Frame (id : nat) (ready : bool)              (* an animation frame runs *)
| Estimated (poses : list (Pose * Reading))    (* estimatePoses resolves *)
| EstimateFailed                               (* estimatePoses rejects *)
| Tick (r1 r2 r3 : float)                      (* the sweep interval elapses *)
| Timeout (i : nat).                           (* the i-th timeout elapses *)

Definition step (a : App) (ev : Event) : App :=
  match ev with
  | ClickToggle env => toggleSession env a
  | ClickSpirit => setSpiritBoxActive (negb (spiritBoxActive a)) a
  | ClickLog posted =>
      (* line 517: disabled={!isRunning || currentPoses.length === 0} *)
      if isRunning a then logDetection posted a else a
  | Frame id ready =>
      if existsb (Nat.eqb id) (rafQueue a)
      then a |> set_rafQueue (dequeue id) |> detectPoses ready
      else a
  | Estimated poses =>
      if (0 <? inflight a)%nat then detectPoses_resolved poses a else a
  | EstimateFailed =>
      if (0 <? inflight a)%nat then detectPoses_rejected a else a
  | Tick r1 r2 r3 =>
      if sweepInterval a then sweepTick r1 r2 r3 a else a
  | Timeout i =>
      match nth_error (timers a) i with
      | Some t => a |> set_timers (remove_nth i) |> runTimer t
      | None => a
      end
  end.

Definition run (a : App) (evs : list Event) : App := fold_left step evs a.

(** The alerts among the calls made to the collaborators. *)
Definition alertsOf (es : list Effect) : list Z :=
  flat_map (fun e => match e with AlertEvent t => [t] | _ => [] end) es.

(** The state after a sequence of detector answers has been processed. *)
Definition feed (a : App) (frames : list (list (Pose * Reading))) : App :=
  fold_left (fun a poses => onPoses poses a) frames a.

(** A detector answer that contains a pose passing the test of line 193. *)
Definition detection (poses : list (Pose * Reading)) : bool :=
  existsb (fun pr => qualifying (fst pr)) poses.

(** *** Sample inputs *)

(** A pose with [n] keypoints that all score [s]. *)
Definition poseOf (n : nat) (s : float) : Pose :=
  mkPose (repeat (mkKeypoint "nose" 0 0 s) n).

Definition at_ (t : Z) : Reading := mkReading 0 t.

(** The environment of a start that succeeds and is given session ["s1"]. *)
Definition startOk : StartEnv := mkStartEnv true true true (Some "s1"%string).

(** ** Notions used in the properties *)

(** Alert times in emission order, each more than 3000 ms after all the
    earlier ones. *)
Fixpoint gapped (ts : list Z) : Prop :=
  match ts with
  | [] => True
  | t :: rest => (forall u, In u rest -> (3000 < u - t)%Z) /\ gapped rest
  end.

(** The throttle invariant: alerts are gapped and none is later than
    [lastAlertTime]. *)
Definition throttled (a : App) : Prop :=
  gapped (alertsOf (effects a)) /\
  forall t, In t (alertsOf (effects a)) -> (t <= lastAlertTime a)%Z.

(** The band of the sweep: [88 <= f <= 108]. *)
Definition inBand (f : float) : bool := (88 <=? f) && (f <=? 108).

(** A value [Math.random()] can return: a number in [0, 1). *)
Definition fromRandom (r : float) : bool := (0 <=? r) && (r <? 1).

(** An event whose random draws are values of [Math.random()]. *)
Definition randomsOk (ev : Event) : Prop :=
  match ev with
  | Tick r1 r2 r3 =>
      fromRandom r1 = true /\ fromRandom r2 = true /\ fromRandom r3 = true
  | _ => True
  end.

(** ** The stick figure (lines 92-137) *)

(** lines 93-104. *)
Definition connections : list (string * string) :=
  [ ("nose", "left_eye"); ("nose", "right_eye");
    ("left_eye", "left_ear"); ("right_eye", "right_ear");
    ("nose", "left_shoulder"); ("nose", "right_shoulder");
    ("left_shoulder", "right_shoulder");
    ("left_shoulder", "left_elbow"); ("right_shoulder", "right_elbow");
    ("left_elbow", "left_wrist"); ("right_elbow", "right_wrist");
    ("left_shoulder", "left_hip"); ("right_shoulder", "right_hip");
    ("left_hip", "right_hip");
    ("left_hip", "left_knee"); ("right_hip", "right_knee");
    ("left_knee", "left_ankle"); ("right_knee", "right_ankle") ]%string.

(** What is put on the canvas, all of it in the one colour and glow set on
    lines 114-117 and 129. *)
Inductive Shape :=
| Segment (x1 y1 x2 y2 : float)  (* beginPath, moveTo, lineTo, stroke *)
| Disc (cx cy : float).          (* beginPath, arc(cx, cy, 5, 0, 2 * PI), fill *)

(** The object [keypointMap]: its own properties, in the order of their
    creation. *)
Definition KeypointMap := list (string * Keypoint).

(** [m[k] = v]: an existing property keeps its place and takes the new
    value, a new one is created last; the key [__proto__] names the
    prototype and creates no property. *)
Fixpoint assign (k : string) (v : Keypoint) (m : KeypointMap) : KeypointMap :=
  match m with
  | [] => if String.eqb k "__proto__" then [] else [(k, v)]
  | (k', v') :: m' =>
      if String.eqb k' k then (k', v) :: m' else (k', v') :: assign k v m'
  end.

(** [m[k]] for a key that nothing inherited answers to, as is the case for
    the names of [connections]: the own property, if there is one. *)
Fixpoint lookup (k : string) (m : KeypointMap) : option Keypoint :=
  match m with
  | [] => None
  | (k', v) :: m' => if String.eqb k' k then Some v else lookup k m'
  end.

Definition digit (c : Ascii.ascii) : option N :=
  let n := Ascii.N_of_ascii c in
  if ((48 <=? n) && (n <=? 57))%N then Some (n - 48)%N else None.

Fixpoint decimal (s : string) (acc : N) : option N :=
  match s with
  | EmptyString => Some acc
  | String c s' =>
      match digit c with
      | Some d => decimal s' (10 * acc + d)%N
      | None => None
      end
  end.

(** A property key that is an array index: the canonical decimal form of an
    integer from 0 to 2^32 - 2. *)
Definition arrayIndex (s : string) : option N :=
  match s with
  | EmptyString => None
  | String c s' =>
      match decimal s 0 with
      | Some n =>
          if ((Ascii.N_of_ascii c =? 48)%N && negb (String.eqb s' "")) ||
             (4294967294 <? n)%N
          then None else Some n
      | None => None
      end
  end.

Fixpoint insertIndexed (i : N) (v : Keypoint) (l : list (N * Keypoint))
  : list (N * Keypoint) :=
  match l with
  | [] => [(i, v)]
  | (j, w) :: l' =>
      if (i <? j)%N then (i, v) :: l else (j, w) :: insertIndexed i v l'
  end.

(** [Object.values(m)]: the properties whose keys are array indices in
    ascending order, then the others in the order of their creation. *)
Definition Object_values (m : KeypointMap) : list Keypoint :=
  let indexed :=
    fold_right (fun kv acc => match arrayIndex (fst kv) with
                              | Some i => insertIndexed i (snd kv) acc
                              | None => acc
                              end) [] m in
  let named :=
    filter (fun kv => match arrayIndex (fst kv) with
                      | Some _ => false
                      | None => true
                      end) m in
  map snd indexed ++ map snd named.

(** lines 106-111. *)
Definition keypointMap (keypoints : list Keypoint) : KeypointMap :=
  fold_left (fun m kp => if 0.3 <? score kp then assign (name kp) kp m else m)
            keypoints [].

(** lines 119-126. *)
Definition drawConnections (m : KeypointMap) : list Shape :=
  flat_map (fun c =>
              match lookup (fst c) m, lookup (snd c) m with
              | Some s, Some e => [Segment (x s) (y s) (x e) (y e)]
              | _, _ => []
              end) connections.

(** lines 130-134. *)
Definition drawKeypoints (m : KeypointMap) : list Shape :=
  map (fun kp => Disc (x kp) (y kp)) (Object_values m).

(** lines 92-137. *)
Definition drawStickFigure (keypoints : list Keypoint) : list Shape :=
  let m := keypointMap keypoints in
  drawConnections m ++ drawKeypoints m.

(** lines 191-195: the figures drawn over one frame. *)
Definition drawPoses (poses : list Pose) : list Shape :=
  flat_map (fun pose => if qualifying pose
                        then drawStickFigure (keypoints pose) else []) poses.

(** ** The detection history (line 327) *)

(** The updater [(prev) => [res.data, ...prev].slice(0, 50)]; [data] is the
    record the backend answered with. *)
Definition pushDetection {A} (data : A) (prev : list A) : list A :=
  firstn 50 (data :: prev).

(** The history after the records [logged] (oldest first) were pushed. *)
Definition pushAll {A} (logged prev : list A) : list A :=
  fold_left (fun h data => pushDetection data h) logged prev.

(** ** The needle and the dial (lines 355 and 358) *)

(** The rotation of the needle of the gauge, in degrees. *)
Definition emfNeedleRotation (emfLevel : float) : float :=
  -45 + (emfLevel / 5) * 90.

(** The rotation of the frequency dial, in degrees. *)
Definition spiritDialRotation (spiritBoxFreq : float) : float :=
  ((spiritBoxFreq - 88) / 20) * 270 - 135.

(** ** Unmounting (lines 243 and 348-351) *)


(** ** Further notions used in the properties *)

(** The calls made since the last [POST /sessions], that is, since the
    session was last started. *)
Definition sinceStart (es : list Effect) : list Effect :=
  fold_left (fun acc e => match e with
                          | PostSession => []
                          | _ => acc ++ [e]
                          end) es [].

(** The number of alerts presented since the session was last started. *)
Definition alertsSinceStart (a : App) : Z :=
  Z.of_nat (length (alertsOf (sinceStart (effects a)))).

(** The counter agrees with the alerts presented. *)
Definition counted (a : App) : Prop := detectionCount a = alertsSinceStart a.

(** The messages that are shown for a while: each is set together with a
    timeout that clears it (lines 206-208 and 328-329). *)
Definition transientMessage (s : string) : bool :=
  String.eqb s "ENTITY DETECTED" || String.eqb s "DETECTION LOGGED".

(** Whatever is shown for a while has its clearing scheduled. *)
Definition clearsPending (a : App) : Prop :=
  (transientMessage (alertMessage a) = true ->
   In ClearAlertMessage (timers a)) /\
  (spiritWord a <> ""%string -> In ClearSpiritWord (timers a)).

(** The sweep effect has run: the interval is armed exactly while the sweep
    is active. *)
Definition armed (a : App) : Prop := sweepInterval a = spiritBoxActive a.

(** The number of detection loops that are alive: callbacks waiting for an
    animation frame plus calls waiting for the detector. *)
Definition loops (a : App) : nat := (length (rafQueue a) + inflight a)%nat.

(** The scheduler invariant: pending handles are distinct and older than the
    next one, and a loop is alive only once the detector exists. *)
Definition sched (a : App) : Prop :=
  NoDup (rafQueue a) /\
  Forall (fun i => (i < rafNext a)%nat) (rafQueue a) /\
  (loops a <> 0%nat -> detectorRef a = true).

Definition isToggle (ev : Event) : bool :=
  match ev with ClickToggle _ => true | _ => false end.

Definition isSpirit (ev : Event) : bool :=
  match ev with ClickSpirit => true | _ => false end.


(** A start that finds the detector, the camera and the video ready. *)
Definition allReady (env : StartEnv) : bool :=
  detectorOk env && cameraOk env && videoReady env.

(** Sessions that are each started with everything ready and stopped before
    the detector answers; [envs] gives, for each session, what the
    environment answers at its start and at its stop. *)
Definition quickSessions (envs : list (StartEnv * StartEnv)) : list Event :=
  flat_map (fun p => [ClickToggle (fst p); ClickToggle (snd p)]) envs.

(** An event of a device whose camera cannot be opened: every start finds
    [getUserMedia] rejected. *)
Definition cameraDenied (ev : Event) : bool :=
  match ev with ClickToggle env => negb (cameraOk env) | _ => true end.

(** The state of a component that never got a session going. *)
Definition neverStarted (a : App) : Prop :=
  isRunning a = false /\ loops a = 0%nat /\ effects a = [] /\
  ~ In ClearAlertMessage (timers a).

(** A frequency with one decimal inside the band: [n / 10] for an integer
    [n] from 880 to 1080. *)
Definition tenth (f : float) : Prop :=
  exists n, (880 <= n <= 1080)%Z /\ f = JS.ofZ n / 10.

(** Every property of the map is a keypoint of the pose that scores above
    0.3, stored under its name. *)
Definition fromValid (kps : list Keypoint) (m : KeypointMap) : Prop :=
  Forall (fun kv => name (snd kv) = fst kv /\ In (snd kv) kps /\
                    (0.3 <? score (snd kv)) = true) m.

(** A name that is neither an array index nor [__proto__]. *)
Definition plainName (s : string) : bool :=
  match arrayIndex s with
  | Some _ => false
  | None => negb (String.eqb s "__proto__")
  end.

Definition isSegment (s : Shape) : bool :=
  match s with Segment _ _ _ _ => true | Disc _ _ => false end.

(** The keypoints of MoveNet, in the order the detector lists them. *)
Definition moveNetNames : list string :=
  [ "nose"; "left_eye"; "right_eye"; "left_ear"; "right_ear";
    "left_shoulder"; "right_shoulder"; "left_elbow"; "right_elbow";
    "left_wrist"; "right_wrist"; "left_hip"; "right_hip";
    "left_knee"; "right_knee"; "left_ankle"; "right_ankle" ]%string.

(** A sample pose of MoveNet: the [i]-th keypoint lies at [(i, 2 i)] and has
    the [i]-th score of [scores]. *)
Definition moveNetPose (scores : list float) : Pose :=
  mkPose (map (fun p => mkKeypoint (snd (fst p))
                          (JS.ofNat (fst (fst p)))
                          (JS.ofNat (2 * fst (fst p))) (snd p))
              (combine (combine (seq 0 17) moveNetNames) scores)).

(** The exponent at which [binary_round_aux] rounds a mantissa [P] given at
    exponent [ex]. *)
Definition roundExp (P ex : Z) : Z :=
  Z.max ex (fexp prec emax (Zdigits2 P + ex)).

(** A value of binary64 that is not negative: NaN, a zero, or a value whose
    sign bit is clear. *)
Definition unsigned (f : spec_float) : Prop :=
  match f with
  | S754_finite s _ _ | S754_infinity s => s = false
  | _ => True
  end.

(** The same with negative zero left out. *)
Definition signClear (f : spec_float) : Prop :=
  match f with
  | S754_finite s _ _ | S754_infinity s | S754_zero s => s = false
  | S754_nan => True
  end.

(** A value of binary64 above zero. *)
Definition positiveSF (f : spec_float) : Prop :=
  match f with
  | S754_finite s _ _ | S754_infinity s => s = false
  | _ => False
  end.

(** An event whose readings of [Math.random()] on line 198 are values it can
    return. *)
Definition readingsOk (ev : Event) : Prop :=
  match ev with
  | Estimated poses =>
      Forall (fun pr => fromRandom (rnd (snd pr)) = true) poses
  | _ => True
  end.

(** ** The throttle and the requests *)

(** The time of the latest alert, [0] before the first one. *)
Definition latestAlert (a : App) : Z := last (alertsOf (effects a)) 0%Z.

(** A level on the scale of the gauge: a number from 0 to 5. *)
Definition onScale (l : float) : bool := (0 <=? l) && (l <=? 5).

(** What a request to the backend may carry: a count that is not negative,
    a level on the scale, a frequency with one decimal inside the band or
    none, and a confidence that is a number and not negative when a
    keypoint was counted. *)
Definition wellFormed (e : Effect) : Prop :=
  match e with
  | AlertEvent _ | PostSession => True
  | PutSession _ total_detections max_emf_level =>
      (0 <= total_detections)%Z /\ onScale max_emf_level = true
  | PostDetection confidence keypoints_count emf_level spirit_box_frequency =>
      (keypoints_count <> 0%nat ->
       is_nan confidence = false /\ (confidence <? 0) = false) /\
      onScale emf_level = true /\
      match spirit_box_frequency with
      | Some f => tenth f
      | None => True
      end
  end.

(** A level that is a number, not below 0 and not above 5. *)
Definition levelOk (l : float) : Prop :=
  is_nan l = false /\ (l <? 0) = false /\ (5 <? l) = false.

(** What the state keeps for its requests to be well formed. *)
Definition sound (a : App) : Prop :=
  counted a /\ levelOk (emfLevel a) /\ tenth (spiritBoxFreq a) /\
  Forall wellFormed (effects a).

(** An event whose random draws, of the sweep and of the detection loop, are
    values of [Math.random()]. *)
Definition drawsOk (ev : Event) : Prop := randomsOk ev /\ readingsOk ev.

(** * Properties *)

(** The numeric functions are kept folded when handlers are simplified. *)
Arguments JS.Math_max : simpl never.
Arguments JS.Math_min : simpl never.
Arguments JS.Math_round : simpl never.
Arguments JS.Math_floor : simpl never.
Arguments JS.ofZ : simpl never.
Arguments avgScore : simpl never.
Arguments newEmf : simpl never.
Arguments decay : simpl never.
Arguments sweepDelta : simpl never.
Arguments nextFreq : simpl never.
Arguments pickWord : simpl never.

(** ** Binary64 rounding *)

Module Binary64.

Local Open Scope Z_scope.

Lemma shr_1_m mrs : 0 <= shr_m mrs -> shr_m (shr_1 mrs) = shr_m mrs / 2.
Proof.
  destruct mrs as [m r s]. simpl. intros H.
  destruct m as [|p|p]; [reflexivity| |lia].
  destruct p as [p|p|]; simpl.
  - rewrite (Pos2Z.inj_xI p). apply Z.div_unique with 1; lia.
  - rewrite (Pos2Z.inj_xO p). apply Z.div_unique with 0; lia.
  - reflexivity.
Qed.

Lemma iter_shr_1_m p :
  forall mrs, 0 <= shr_m mrs ->
  shr_m (SpecFloat.iter_pos shr_1 p mrs) = shr_m mrs / 2 ^ Z.pos p.
Proof.
  assert (D : forall a b c, 0 < b -> 0 < c -> a / b / c = a / (b * c)).
  { intros. apply Z.div_div; lia. }
  assert (N : forall a b, 0 <= a -> 0 < b -> 0 <= a / b).
  { intros. apply Z.div_pos; lia. }
  induction p as [p IH|p IH|]; intros mrs H; simpl SpecFloat.iter_pos.
  - assert (H1 : 0 <= shr_m (shr_1 mrs))
      by (rewrite shr_1_m; auto; apply N; lia).
    assert (P : 0 < 2 ^ Z.pos p) by (apply Z.pow_pos_nonneg; lia).
    assert (H2 : 0 <= shr_m (SpecFloat.iter_pos shr_1 p (shr_1 mrs)))
      by (rewrite IH; auto).
    rewrite IH, IH, shr_1_m by assumption.
    rewrite !D by lia. f_equal.
    rewrite (Pos2Z.inj_xI p), Z.pow_add_r, Z.pow_1_r by lia.
    replace (2 * Z.pos p) with (Z.pos p + Z.pos p) by lia.
    rewrite Z.pow_add_r by lia. lia.
  - assert (P : 0 < 2 ^ Z.pos p) by (apply Z.pow_pos_nonneg; lia).
    assert (H2 : 0 <= shr_m (SpecFloat.iter_pos shr_1 p mrs))
      by (rewrite IH; auto).
    rewrite IH, IH by assumption.
    rewrite !D by lia. f_equal.
    rewrite (Pos2Z.inj_xO p).
    replace (2 * Z.pos p) with (Z.pos p + Z.pos p) by lia.
    rewrite Z.pow_add_r by lia. lia.
  - rewrite shr_1_m by assumption. reflexivity.
Qed.

(** The mantissa after [shr]: shifted right by [n] places when [n] is
    positive, untouched otherwise. *)
Lemma shr_m_shr mrs e n :
  0 <= shr_m mrs ->
  shr_m (fst (shr mrs e n)) =
    (if 0 <? n then shr_m mrs / 2 ^ n else shr_m mrs) /\
  snd (shr mrs e n) = (if 0 <? n then e + n else e).
Proof.
  intros H. destruct n as [|p|p]; simpl; auto.
  split; auto. now apply iter_shr_1_m.
Qed.

Lemma digits2_bounds p :
  2 ^ (Z.pos (digits2_pos p) - 1) <= Z.pos p < 2 ^ Z.pos (digits2_pos p).
Proof.
  induction p as [p IH|p IH|]; simpl digits2_pos.
  - rewrite Pos2Z.inj_succ, (Pos2Z.inj_xI p).
    replace (Z.succ (Z.pos (digits2_pos p)) - 1)
      with (Z.succ (Z.pos (digits2_pos p) - 1)) by lia.
    rewrite !Z.pow_succ_r by lia. lia.
  - rewrite Pos2Z.inj_succ, (Pos2Z.inj_xO p).
    replace (Z.succ (Z.pos (digits2_pos p)) - 1)
      with (Z.succ (Z.pos (digits2_pos p) - 1)) by lia.
    rewrite !Z.pow_succ_r by lia. lia.
  - simpl. lia.
Qed.

Lemma digits2_unique p d :
  2 ^ (d - 1) <= Z.pos p < 2 ^ d -> Z.pos (digits2_pos p) = d.
Proof.
  intros [L U]. pose proof (digits2_bounds p) as [L' U'].
  set (k := Z.pos (digits2_pos p)) in *.
  assert (0 < d).
  { destruct (Z_lt_le_dec 0 d); auto.
    assert (2 ^ d <= 2 ^ 0) by (apply Z.pow_le_mono_r; lia).
    simpl in *. lia. }
  assert (k - 1 < d).
  { apply (Z.pow_lt_mono_r_iff 2); try lia. }
  assert (d - 1 < k).
  { apply (Z.pow_lt_mono_r_iff 2); try lia. }
  lia.
Qed.

Lemma round_nearest_even_cases m l :
  round_nearest_even m l = m \/ round_nearest_even m l = m + 1.
Proof.
  destruct l as [|[| |]]; simpl; auto. destruct (Z.even m); auto.
Qed.

Lemma shr_fexp_spec m e l :
  0 <= m ->
  let n := fexp prec emax (Zdigits2 m + e) - e in
  shr_m (fst (shr_fexp prec emax m e l)) =
    (if 0 <? n then m / 2 ^ n else m) /\
  snd (shr_fexp prec emax m e l) = (if 0 <? n then e + n else e).
Proof.
  intros H n. unfold shr_fexp. fold n.
  assert (E : shr_m (shr_record_of_loc m l) = m)
    by (destruct l as [|[| |]]; reflexivity).
  pose proof (shr_m_shr (shr_record_of_loc m l) e n) as S.
  rewrite E in S. apply S. exact H.
Qed.

(** Rounding a mantissa of more than 53 bits to binary64 (no underflow,
    no overflow): the result is the mantissa shifted down to 53 bits,
    possibly plus one, renormalized if that carries into a 54th bit. *)
Lemma binary_round_aux_wide sx P ex lx d :
  Z.pos (digits2_pos P) = d -> 53 < d ->
  -1074 <= d + ex - 53 -> d + ex - 53 < 971 ->
  let k := d - 53 in
  let m1 := Z.pos P / 2 ^ k in
  exists m e,
    binary_round_aux prec emax sx (Z.pos P) ex lx = S754_finite sx m e /\
    ((e = ex + k /\ (Z.pos m = m1 \/ Z.pos m = m1 + 1) /\ Z.pos m < 2 ^ 53) \/
     (e = ex + k + 1 /\ Z.pos m = 2 ^ 52 /\ m1 + 1 = 2 ^ 53)).
Proof.
  intros D W Lo Hi k m1.
  pose proof (digits2_bounds P) as [BL BU]. rewrite D in BL, BU.
  assert (K : 0 < 2 ^ k) by (apply Z.pow_pos_nonneg; lia).
  assert (E1 : 2 ^ (d - 1) = 2 ^ 52 * 2 ^ k).
  { rewrite <- Z.pow_add_r by lia. f_equal. lia. }
  assert (E2 : 2 ^ d = 2 ^ 53 * 2 ^ k).
  { rewrite <- Z.pow_add_r by lia. f_equal. lia. }
  assert (M1 : 2 ^ 52 <= m1 < 2 ^ 53).
  { subst m1. split.
    - apply Z.div_le_lower_bound; lia.
    - apply Z.div_lt_upper_bound; lia. }
  unfold binary_round_aux.
  pose proof (shr_fexp_spec (Z.pos P) ex lx ltac:(lia)) as S1. cbv zeta in S1.
  destruct (shr_fexp prec emax (Z.pos P) ex lx) as [mrs' e'] eqn:F1.
  simpl fst in S1; simpl snd in S1.
  assert (N1 : fexp prec emax (Zdigits2 (Z.pos P) + ex) - ex = k).
  { unfold fexp, SpecFloat.emin, prec, emax. simpl Zdigits2. rewrite D.
    lia. }
  rewrite N1 in S1.
  replace (0 <? k) with true in S1 by (symmetry; apply Z.ltb_lt; lia).
  destruct S1 as [S1m S1e]. fold m1 in S1m.
  set (m2 := round_nearest_even (shr_m mrs') (loc_of_shr_record mrs')).
  assert (R : m2 = m1 \/ m2 = m1 + 1).
  { subst m2. rewrite <- S1m. apply round_nearest_even_cases. }
  pose proof (shr_fexp_spec m2 e' loc_Exact ltac:(lia)) as S2. cbv zeta in S2.
  destruct (shr_fexp prec emax m2 e' loc_Exact) as [mrs'' e''] eqn:F2.
  simpl fst in S2; simpl snd in S2.
  destruct (Z_lt_le_dec m2 (2 ^ 53)) as [Lt|Ge].
  - (* no carry *)
    destruct m2 as [|q|q] eqn:Q; try lia.
    assert (Dq : Z.pos (digits2_pos q) = 53) by (apply digits2_unique; lia).
    assert (N2 : fexp prec emax (Zdigits2 (Z.pos q) + e') - e' = 0).
    { unfold fexp, SpecFloat.emin, prec, emax. simpl Zdigits2. rewrite Dq.
      lia. }
    rewrite N2 in S2. simpl in S2. destruct S2 as [S2m S2e].
    rewrite S2m.
    replace (e'' <=? emax - prec) with true
      by (symmetry; apply Z.leb_le; unfold emax, prec; lia).
    exists q, e''. split; [reflexivity|]. left. lia.
  - (* carry into the 54th bit *)
    assert (Q : m2 = 2 ^ 53) by lia.
    destruct m2 as [|q|q] eqn:Q'; try lia.
    assert (Dq : Z.pos (digits2_pos q) = 54) by (apply digits2_unique; lia).
    assert (N2 : fexp prec emax (Zdigits2 (Z.pos q) + e') - e' = 1).
    { unfold fexp, SpecFloat.emin, prec, emax. simpl Zdigits2. rewrite Dq.
      lia. }
    rewrite N2 in S2. change (0 <? 1) with true in S2. cbv iota in S2.
    destruct S2 as [S2m S2e].
    rewrite S2m, Q.
    change (2 ^ 53 / 2 ^ 1) with (Z.pos (2 ^ 52)%positive).
    replace (e'' <=? emax - prec) with true
      by (symmetry; apply Z.leb_le; unfold emax, prec; lia).
    exists (2 ^ 52)%positive, e''. split; [reflexivity|]. right.
    change (Z.pos (2 ^ 52)) with (2 ^ 52). lia.
Qed.

(** *** Order on binary64 values *)

Local Open Scope float_scope.

Lemma SFcompare_refl_not_Lt f : SFcompare f f <> Some Lt.
Proof.
  destruct f as [[|]|[|]| |[|] m e]; simpl; try discriminate;
    rewrite Z.compare_refl, Pos.compare_cont_refl; discriminate.
Qed.

Lemma ltb_irrefl a : (a <? a) = false.
Proof.
  rewrite FloatAxioms.ltb_spec. unfold SFltb.
  pose proof (SFcompare_refl_not_Lt (Prim2SF a)) as H.
  destruct (SFcompare (Prim2SF a) (Prim2SF a)) as [[| |]|]; congruence.
Qed.

Lemma ltb_nan_r a : (a <? nan) = false.
Proof.
  rewrite FloatAxioms.ltb_spec. unfold SFltb.
  change (Prim2SF nan) with S754_nan.
  destruct (Prim2SF a) as [[|]|[|]| |[|] m e]; reflexivity.
Qed.

Lemma ltb_nan_l a : (nan <? a) = false.
Proof.
  rewrite FloatAxioms.ltb_spec. unfold SFltb.
  change (Prim2SF nan) with S754_nan. reflexivity.
Qed.

Lemma SFcompare_antisym f g :
  SFcompare g f = option_map CompOpp (SFcompare f g).
Proof.
  destruct f as [[|]|[|]| |[|] m e], g as [[|]|[|]| |[|] m' e']; simpl;
    try reflexivity;
    rewrite (Z.compare_antisym e e'); destruct (e ?= e')%Z; simpl;
    try reflexivity;
    rewrite Pos.compare_cont_antisym; simpl; try reflexivity;
    now rewrite CompOpp_involutive.
Qed.

Lemma ltb_asym a b : (a <? b) = true -> (b <? a) = false.
Proof.
  rewrite !FloatAxioms.ltb_spec. unfold SFltb.
  rewrite (SFcompare_antisym (Prim2SF a) (Prim2SF b)).
  destruct (SFcompare (Prim2SF a) (Prim2SF b)) as [[| |]|]; simpl;
    congruence.
Qed.

Lemma SFcompare_refl f : f <> S754_nan -> SFcompare f f = Some Eq.
Proof.
  destruct f as [[|]|[|]| |[|] m e]; simpl; try congruence;
    rewrite Z.compare_refl, Pos.compare_cont_refl; reflexivity.
Qed.

Lemma is_nan_spec a :
  is_nan a = match Prim2SF a with S754_nan => true | _ => false end.
Proof.
  unfold is_nan. rewrite FloatAxioms.eqb_spec. unfold SFeqb.
  destruct (Prim2SF a) as [s|s| |s m e] eqn:E; try reflexivity;
    rewrite SFcompare_refl; try reflexivity; discriminate.
Qed.

Lemma SFcompare_total f g :
  f <> S754_nan -> g <> S754_nan -> exists c, SFcompare f g = Some c.
Proof.
  destruct f as [[|]|[|]| |[|] m e], g as [[|]|[|]| |[|] m' e']; simpl;
    try congruence; eauto.
Qed.

(** On numbers, "not less than" is "greater than or equal". *)
Lemma leb_of_not_ltb a b :
  is_nan a = false -> is_nan b = false -> (a <? b) = false -> (b <=? a) = true.
Proof.
  rewrite !is_nan_spec, FloatAxioms.ltb_spec, FloatAxioms.leb_spec.
  unfold SFltb, SFleb. intros Na Nb.
  rewrite (SFcompare_antisym (Prim2SF a) (Prim2SF b)).
  destruct (SFcompare_total (Prim2SF a) (Prim2SF b)) as [c ->].
  - intros E; rewrite E in Na; discriminate.
  - intros E; rewrite E in Nb; discriminate.
  - destruct c; simpl; congruence.
Qed.

Lemma leb_not_nan_l a b : (a <=? b) = true -> is_nan a = false.
Proof.
  rewrite is_nan_spec, FloatAxioms.leb_spec. unfold SFleb.
  destruct (Prim2SF a); simpl; congruence.
Qed.

(** The binary64 values between 88 and 108: mantissas from [88 * 2^46] to
    [108 * 2^46] at exponent [-46]. *)
Lemma band_mantissa a :
  (88 <=? a) = true -> (a <=? 108) = true ->
  exists m, Prim2SF a = S754_finite false m (-46) /\
            (6192449487634432 <= Z.pos m <= 7599824371187712)%Z.
Proof.
  rewrite !FloatAxioms.leb_spec.
  change (Prim2SF 88) with (S754_finite false 6192449487634432 (-46)).
  change (Prim2SF 108) with (S754_finite false 7599824371187712 (-46)).
  unfold SFleb, SFcompare.
  destruct (Prim2SF a) as [[|]|[|]| |[|] m e]; try discriminate.
  rewrite (Z.compare_antisym e (-46)).
  destruct (e ?= -46)%Z eqn:C; simpl CompOpp; cbv iota.
  2: (intros H; discriminate H).
  2: (intros _ H; discriminate H).
  apply Z.compare_eq in C. subst e.
  rewrite !Pos.compare_cont_spec. unfold Pos.switch_Eq.
  intros H1 H2.
  assert (L1 : (Z.pos 6192449487634432 <= Z.pos m)%Z).
  { apply Pos2Z.pos_le_pos. intros G. rewrite G in H1. discriminate H1. }
  assert (L2 : (Z.pos m <= Z.pos 7599824371187712)%Z).
  { apply Pos2Z.pos_le_pos. intros G. rewrite G in H2. discriminate H2. }
  exists m. split; [reflexivity|]. split; assumption.
Qed.

Local Open Scope Z_scope.

Lemma div_bounds a c : 0 < c -> c * (a / c) <= a < c * (a / c + 1).
Proof.
  intros H. split.
  - apply Z.mul_div_le; lia.
  - replace (a / c + 1) with (Z.succ (a / c)) by lia.
    apply Z.mul_succ_div_gt; lia.
Qed.

Lemma div_between a c lo hi :
  0 < c -> c * lo <= a < c * (hi + 1) -> lo <= a / c <= hi.
Proof.
  intros H [L U]. split.
  - apply Z.div_le_lower_bound; lia.
  - assert (a / c < hi + 1) by (apply Z.div_lt_upper_bound; lia). lia.
Qed.

(** Ten times a value between 88 and 108, as binary64 computes it, rounds
    to an integer between 880 and 1080. *)
Lemma times_ten_rounds_in_band a m :
  Prim2SF a = S754_finite false m (-46) ->
  6192449487634432 <= Z.pos m <= 7599824371187712 ->
  exists m' e',
    Prim2SF (a * 10)%float = S754_finite false m' e' /\ e' < 0 /\
    880 <= JS.roundZ false m' e' <= 1080.
Proof.
  intros E B. rewrite FloatAxioms.mul_spec, E.
  change (Prim2SF 10) with (S754_finite false 5629499534213120 (-49)).
  unfold SF64mul, SFmul. change (xorb false false) with false.
  change (-46 + -49) with (-95).
  set (P := (m * 5629499534213120)%positive).
  assert (EP : Z.pos P = Z.pos m * 5629499534213120)
    by (subst P; apply Pos2Z.inj_mul).
  clearbody P. clear E.
  unfold JS.roundZ, JS.signed.
  pose proof (div_bounds (Z.pos P) 4503599627370496 ltac:(lia)) as Q52.
  pose proof (div_bounds (Z.pos P) 9007199254740992 ltac:(lia)) as Q53.
  destruct (Z_lt_le_dec (Z.pos P) (2 ^ 105)) as [Lt|Ge].
  - assert (D : Z.pos (digits2_pos P) = 105).
    { apply digits2_unique. change (2 ^ (105 - 1)) with (2 ^ 104).
      change (2 ^ 104) with 20282409603651670423947251286016.
      change (2 ^ 105) with 40564819207303340847894502572032 in *. lia. }
    destruct (binary_round_aux_wide false P (-95) loc_Exact 105 D)
      as (m' & e' & -> & H); try lia.
    exists m', e'. split; [reflexivity|].
    change (105 - 53) with 52 in H. change (-95 + 52 + 1) with (-42) in H.
    change (-95 + 52) with (-43) in H.
    change (2 ^ 52) with 4503599627370496 in H.
    change (2 ^ 53) with 9007199254740992 in H.
    change (2 ^ 105) with 40564819207303340847894502572032 in Lt.
    destruct H as [(-> & H & _)|(-> & H & H')].
    + change (- -43) with 43. change (1 - -43) with 44.
      change (2 ^ 43) with 8796093022208. change (2 ^ 44) with 17592186044416.
      split; [lia|]. apply div_between; lia.
    + change (- -42) with 42. change (1 - -42) with 43.
      change (2 ^ 42) with 4398046511104. change (2 ^ 43) with 8796093022208.
      split; [lia|]. apply div_between; lia.
  - assert (D : Z.pos (digits2_pos P) = 106).
    { apply digits2_unique. change (2 ^ (106 - 1)) with (2 ^ 105).
      change (2 ^ 106) with 81129638414606681695789005144064.
      change (2 ^ 105) with 40564819207303340847894502572032 in *. lia. }
    destruct (binary_round_aux_wide false P (-95) loc_Exact 106 D)
      as (m' & e' & -> & H); try lia.
    exists m', e'. split; [reflexivity|].
    change (106 - 53) with 53 in H. change (-95 + 53 + 1) with (-41) in H.
    change (-95 + 53) with (-42) in H.
    change (2 ^ 52) with 4503599627370496 in H.
    change (2 ^ 53) with 9007199254740992 in H.
    change (2 ^ 105) with 40564819207303340847894502572032 in Ge.
    destruct H as [(-> & H & _)|(-> & H & H')].
    + change (- -42) with 42. change (1 - -42) with 43.
      change (2 ^ 42) with 4398046511104. change (2 ^ 43) with 8796093022208.
      split; [lia|]. apply div_between; lia.
    + exfalso. lia.
Qed.

Local Open Scope float_scope.

(** The 201 integers from 880 to 1080, divided by ten, lie between 88 and
    108 (checked one by one). *)
Lemma tenth_in_band n :
  (880 <= n <= 1080)%Z ->
  (88 <=? JS.ofZ n / 10) = true /\ (JS.ofZ n / 10 <=? 108) = true.
Proof.
  intros H.
  assert (A : forallb (fun i => (88 <=? JS.ofZ (880 + Z.of_nat i) / 10) &&
                                (JS.ofZ (880 + Z.of_nat i) / 10 <=? 108))
                (seq 0 201) = true) by (vm_compute; reflexivity).
  rewrite forallb_forall in A.
  specialize (A (Z.to_nat (n - 880))).
  replace (880 + Z.of_nat (Z.to_nat (n - 880)))%Z with n in A by lia.
  apply andb_prop. apply A. apply in_seq. lia.
Qed.


(** *** Operations that cannot produce NaN *)

Lemma shifted_nonneg m n :
  (0 <= m -> 0 <= (if 0 <? n then m / 2 ^ n else m))%Z.
Proof.
  intros H. destruct (0 <? n)%Z eqn:Hn; [|exact H]. apply Z.ltb_lt in Hn.
  apply Z.div_pos; [exact H|]. apply Z.pow_pos_nonneg; lia.
Qed.

Lemma binary_round_aux_not_nan sx p ex lx :
  binary_round_aux prec emax sx (Z.pos p) ex lx <> S754_nan.
Proof.
  unfold binary_round_aux.
  pose proof (shr_fexp_spec (Z.pos p) ex lx (Pos2Z.is_nonneg p)) as S1.
  cbv zeta in S1.
  destruct (shr_fexp prec emax (Z.pos p) ex lx) as [mrs' e'].
  simpl fst in S1. destruct S1 as [S1 _].
  assert (P1 : (0 <= shr_m mrs')%Z).
  { rewrite S1. apply shifted_nonneg. lia. }
  set (m2 := round_nearest_even (shr_m mrs') (loc_of_shr_record mrs')).
  assert (P2 : (0 <= m2)%Z).
  { destruct (round_nearest_even_cases (shr_m mrs') (loc_of_shr_record mrs'));
      subst m2; lia. }
  pose proof (shr_fexp_spec m2 e' loc_Exact P2) as S2. cbv zeta in S2.
  destruct (shr_fexp prec emax m2 e' loc_Exact) as [mrs'' e''].
  simpl fst in S2. destruct S2 as [S2 _].
  assert (P3 : (0 <= shr_m mrs'')%Z).
  { rewrite S2. apply shifted_nonneg. exact P2. }
  destruct (shr_m mrs'') as [|q|q]; try discriminate; [|lia].
  destruct (e'' <=? emax - prec)%Z; discriminate.
Qed.

Lemma binary_normalize_not_nan m e s :
  binary_normalize prec emax m e s <> S754_nan.
Proof.
  unfold binary_normalize, binary_round.
  destruct m as [|p|p]; [discriminate| |];
    destruct (shl_align p e _) as [mz ez]; apply binary_round_aux_not_nan.
Qed.

Lemma SFmul_not_nan f s m e :
  f <> S754_nan -> SFmul prec emax f (S754_finite s m e) <> S754_nan.
Proof.
  destruct f as [sf|sf| |sf mf ef]; simpl; intros H; try discriminate;
    [congruence|apply binary_round_aux_not_nan].
Qed.

Lemma SFsub_not_nan f s m e :
  f <> S754_nan -> SFsub prec emax f (S754_finite s m e) <> S754_nan.
Proof.
  destruct f as [sf|sf| |sf mf ef]; simpl; intros H; try discriminate;
    [congruence|apply binary_normalize_not_nan].
Qed.

Lemma SFadd_not_nan s m e g :
  g <> S754_nan -> SFadd prec emax (S754_finite s m e) g <> S754_nan.
Proof.
  destruct g as [sg|sg| |sg mg eg]; simpl; intros H; try discriminate;
    [congruence|apply binary_normalize_not_nan].
Qed.

Lemma not_nan_spec a : is_nan a = false <-> Prim2SF a <> S754_nan.
Proof.
  rewrite is_nan_spec. destruct (Prim2SF a); split; congruence.
Qed.

(** A frequency in the band plus the step drawn from any number [r] is a
    number. *)
Lemma sweep_sum_not_nan prev r :
  (88 <=? prev) = true -> (prev <=? 108) = true -> is_nan r = false ->
  is_nan (prev + sweepDelta r) = false.
Proof.
  intros L U N. apply not_nan_spec in N. apply not_nan_spec.
  destruct (band_mantissa prev L U) as (m & E & _).
  unfold sweepDelta.
  rewrite FloatAxioms.add_spec, E. apply SFadd_not_nan.
  rewrite FloatAxioms.mul_spec.
  change (Prim2SF 0.5) with (S754_finite false 4503599627370496 (-53)).
  apply SFmul_not_nan.
  rewrite FloatAxioms.sub_spec.
  change (Prim2SF 1) with (S754_finite false 4503599627370496 (-52)).
  apply SFsub_not_nan.
  rewrite FloatAxioms.mul_spec.
  change (Prim2SF 2) with (S754_finite false 4503599627370496 (-51)).
  apply SFmul_not_nan. exact N.
Qed.


Lemma fromRandom_not_nan r : fromRandom r = true -> is_nan r = false.
Proof.
  unfold fromRandom. intros H. apply andb_prop in H. destruct H as [_ H].
  rewrite is_nan_spec. revert H. rewrite FloatAxioms.ltb_spec. unfold SFltb.
  destruct (Prim2SF r); simpl; congruence.
Qed.

End Binary64.

Import Binary64.

(** ** The alert throttle *)

Lemma alertsOf_app es es' : alertsOf (es ++ es') = alertsOf es ++ alertsOf es'.
Proof. unfold alertsOf. now rewrite flat_map_app. Qed.

Lemma gapped_snoc ts t :
  gapped ts -> (forall u, In u ts -> (3000 < t - u)%Z) -> gapped (ts ++ [t]).
Proof.
  induction ts as [|u ts IH]; simpl; intros G H.
  - split; [intros ? []|exact I].
  - destruct G as [G1 G2]. split.
    + intros v Hv. apply in_app_or in Hv. destruct Hv as [Hv|[<-|[]]]; auto.
    + apply IH; auto.
Qed.

Lemma gapped_nth ts :
  gapped ts -> forall i j ti tj, (i < j)%nat ->
  nth_error ts i = Some ti -> nth_error ts j = Some tj -> (3000 < tj - ti)%Z.
Proof.
  induction ts as [|t ts IH]; intros G i j ti tj Hij Hi Hj.
  - destruct i; discriminate.
  - destruct G as [G1 G2]. destruct j as [|j]; [lia|].
    destruct i as [|i]; simpl in Hi, Hj.
    + injection Hi as <-. apply G1. eapply nth_error_In; eauto.
    + apply (IH G2 i j ti tj); [lia|exact Hi|exact Hj].
Qed.

(** What one pose does to the collaborators and to [lastAlertTime]. *)
Lemma onPose_effects a pose env :
  effects (onPose a (pose, env)) =
  effects a ++
    (if qualifying pose && throttleOpen (now env) (lastAlertTime a)
     then [AlertEvent (now env)] else []).
Proof.
  unfold onPose. destruct (qualifying pose); simpl.
  - destruct (throttleOpen (now env) (lastAlertTime a)); simpl;
      auto using app_nil_r.
  - now rewrite app_nil_r.
Qed.

Lemma onPose_lastAlertTime a pose env :
  lastAlertTime (onPose a (pose, env)) =
  if qualifying pose && throttleOpen (now env) (lastAlertTime a)
  then now env else lastAlertTime a.
Proof.
  unfold onPose. destruct (qualifying pose); simpl; auto.
  destruct (throttleOpen (now env) (lastAlertTime a)); simpl; auto.
Qed.

Lemma onPose_throttled a pr : throttled a -> throttled (onPose a pr).
Proof.
  destruct pr as [pose env]. intros [G L]. unfold throttled.
  rewrite onPose_effects, onPose_lastAlertTime.
  destruct (qualifying pose && throttleOpen (now env) (lastAlertTime a)) eqn:E.
  - apply andb_prop in E. destruct E as [_ E]. unfold throttleOpen in E.
    apply Z.ltb_lt in E. rewrite alertsOf_app. simpl. split.
    + apply gapped_snoc; auto. intros u Hu. specialize (L u Hu). lia.
    + intros t Ht. apply in_app_or in Ht. destruct Ht as [Ht|[<-|[]]]; [|lia].
      specialize (L t Ht). lia.
  - rewrite app_nil_r. auto.
Qed.

Lemma fold_onPose_throttled poses :
  forall a, throttled a -> throttled (fold_left onPose poses a).
Proof.
  induction poses as [|pr poses IH]; simpl; auto using onPose_throttled.
Qed.

Lemma onPoses_throttled poses a : throttled a -> throttled (onPoses poses a).
Proof.
  intros H. unfold onPoses. destruct (0 <? length poses)%nat.
  - apply fold_onPose_throttled. exact H.
  - exact H.
Qed.

Lemma throttled_ext a b :
  alertsOf (effects b) = alertsOf (effects a) ->
  lastAlertTime b = lastAlertTime a -> throttled a -> throttled b.
Proof. unfold throttled. intros -> ->. auto. Qed.

(** Case analysis on every test a handler makes. *)
Ltac handler_cases :=
  cbn;
  repeat match goal with
         | H : context [if ?b then _ else _] |- _ =>
             is_var b; destruct b; cbn in *; try discriminate
         | |- context [if ?b then _ else _] =>
             is_var b; destruct b; cbn in *; try discriminate
         | |- context [if ?b then _ else _] =>
             destruct b eqn:?; cbn in *; try discriminate
         | |- context [match ?o with Some _ => _ | None => _ end] =>
             destruct o eqn:?; cbn in *; try discriminate
         | |- context [match ?l with [] => _ | _ :: _ => _ end] =>
             destruct l eqn:?; cbn in *; try discriminate
         end.

(** Unfolding of the handlers down to field updates. *)
Ltac unfold_handlers :=
  unfold toggleSession, closeSession, createSession, detectPoses,
    detectPoses_rejected, initializeDetector, startCamera, stopCamera,
    logDetection, sweepTick, runTimer, setSpiritBoxActive,
    cancelAnimationFrame, setTimeout.

Lemma toggleSession_throttled env a :
  throttled a -> throttled (toggleSession env a).
Proof.
  intros H. apply throttled_ext with a; auto;
    unfold_handlers; handler_cases; rewrite ?alertsOf_app; cbn;
    auto using app_nil_r.
Qed.

Lemma step_throttled a ev : throttled a -> throttled (step a ev).
Proof.
  intros H. destruct ev as [env| |posted|id ready|poses| |r1 r2 r3|i];
    try (apply throttled_ext with a; auto;
         unfold step; unfold_handlers; handler_cases;
         rewrite ?alertsOf_app; cbn; auto using app_nil_r; fail).
  (* the detector answers: the only event that can raise an alert *)
  unfold step. destruct (0 <? inflight a)%nat; [|exact H].
  unfold detectPoses_resolved.
  apply throttled_ext with (onPoses poses (set_inflight Nat.pred a)); auto.
  apply onPoses_throttled. apply throttled_ext with a; auto.
Qed.

Lemma run_throttled evs : forall a, throttled a -> throttled (run a evs).
Proof.
  unfold run. induction evs as [|ev evs IH]; simpl; auto using step_throttled.
Qed.

Lemma mount_throttled d : throttled (mount d).
Proof. split; simpl; [exact I|intros ? []]. Qed.

(** C1 (as stated, refuted): a qualifying pose that arrives exactly 3000 ms
    after the last alert satisfies [now - lastFired >= 3000], and yet no
    alert is produced for it. *)
Lemma alert_at_exactly_3000_not_fired :
  let a := mount true in
  let pose := poseOf 6 0.9 in
  ~ (In (AlertEvent 3000) (effects (onPose a (pose, at_ 3000))) <->
     qualifying pose = true /\ (3000 - lastAlertTime a >= 3000)%Z).
Proof.
  intros a pose [_ H]. assert (F : In (AlertEvent 3000) []).
  { apply H. split; [reflexivity|vm_compute; discriminate]. }
  exact F.
Qed.

(** C1 (amended): processing a pose produces an alert exactly when the pose
    qualifies and [now - lastAlertTime > 3000] (strictly); the alert carries
    [now] and becomes the new [lastAlertTime].  Consequently, whatever the
    events the component receives after mounting, any two alerts it has
    produced are more than 3000 ms apart. *)
Theorem alert_throttle :
  (forall a pose env,
     effects (onPose a (pose, env)) =
       effects a ++
         (if qualifying pose && (3000 <? now env - lastAlertTime a)%Z
          then [AlertEvent (now env)] else []) /\
     lastAlertTime (onPose a (pose, env)) =
       (if qualifying pose && (3000 <? now env - lastAlertTime a)%Z
        then now env else lastAlertTime a)) /\
  (forall d evs i j ti tj,
     (i < j)%nat ->
     nth_error (alertsOf (effects (run (mount d) evs))) i = Some ti ->
     nth_error (alertsOf (effects (run (mount d) evs))) j = Some tj ->
     (3000 < tj - ti)%Z).
Proof.
  split.
  - intros a pose env. split.
    + apply onPose_effects.
    + apply onPose_lastAlertTime.
  - intros d evs. apply gapped_nth.
    apply (run_throttled evs (mount d)), mount_throttled.
Qed.

(** Three qualifying frames at 5000, 6000 and 9000 ms: the middle one falls
    in the throttle window, alerts are produced at 5000 and 9000. *)
Lemma alert_throttle_witness :
  alertsOf (effects (run (mount true)
    [ClickToggle startOk; Estimated [(poseOf 6 0.9, at_ 5000)];
     Frame 1 true; Estimated [(poseOf 6 0.9, at_ 6000)];
     Frame 2 true; Estimated [(poseOf 6 0.9, at_ 9000)]])) = [5000; 9000]%Z
  /\ (3000 < 9000 - 5000)%Z.
Proof.
  split; [reflexivity|].
  apply (proj2 alert_throttle true
    [ClickToggle startOk; Estimated [(poseOf 6 0.9, at_ 5000)];
     Frame 1 true; Estimated [(poseOf 6 0.9, at_ 6000)];
     Frame 2 true; Estimated [(poseOf 6 0.9, at_ 9000)]] 0%nat 1%nat);
    [lia|reflexivity|reflexivity].
Defined.

(** ** Stopping the session *)

(** What [toggleSession] does when the handler sees a running session. *)
Lemma toggleSession_running env a :
  isRunning a = true ->
  toggleSession env a =
  a |> cancelAnimationFrame (animationRef a) |> stopCamera
    |> setIsRunning false |> setSpiritBoxActive false |> closeSession a.
Proof. intros H. unfold toggleSession. now rewrite H. Qed.

Lemma dequeue_only id q :
  (forall i, In i q -> i = id) -> dequeue id q = [].
Proof.
  induction q as [|i q IH]; simpl; intros H; auto.
  rewrite (H i (or_introl eq_refl)), Nat.eqb_refl. simpl.
  apply IH. auto.
Qed.

Lemma stop_scheduler env a :
  isRunning a = true ->
  let a' := toggleSession env a in
  rafQueue a' = rafQueue (cancelAnimationFrame (animationRef a) a) /\
  inflight a' = inflight a /\
  sweepInterval a' = (if spiritBoxActive a then false else sweepInterval a) /\
  timers a' = timers a.
Proof.
  intros R a'. subst a'. rewrite (toggleSession_running env a R).
  unfold_handlers. destruct a; handler_cases; auto.
Qed.

(** When no detection is in flight and the only pending animation frame is
    the one recorded in [animationRef], stopping halts the loop: frames,
    detector answers and sweep ticks leave the stopped component as it is. *)
Lemma stop_without_inflight_is_quiescent env a :
  isRunning a = true -> inflight a = 0%nat ->
  (forall i, In i (rafQueue a) -> animationRef a = Some i) ->
  sweepInterval a = spiritBoxActive a ->
  let a' := toggleSession env a in
  (forall id ready, step a' (Frame id ready) = a') /\
  (forall poses, step a' (Estimated poses) = a') /\
  step a' EstimateFailed = a' /\
  (forall r1 r2 r3, step a' (Tick r1 r2 r3) = a').
Proof.
  intros R F Q W a'.
  destruct (stop_scheduler env a R) as (Hq & Hf & Hw & _).
  fold a' in Hq, Hf, Hw.
  assert (Q' : rafQueue a' = []).
  { rewrite Hq. unfold cancelAnimationFrame.
    destruct (animationRef a) as [id|]; simpl.
    - apply dequeue_only. intros i Hi. specialize (Q i Hi). congruence.
    - destruct (rafQueue a) as [|i q]; auto.
      specialize (Q i (or_introl eq_refl)). discriminate. }
  assert (W' : sweepInterval a' = false).
  { rewrite Hw, W. now destruct (spiritBoxActive a). }
  rewrite F in Hf.
  repeat split; intros; unfold step; rewrite ?Q', ?Hf, ?W'; reflexivity.
Qed.

(** C2 (code defect): [detectPoses] never consults [isRunning].  A session
    is started (which calls [detectPoses] and leaves [estimatePoses]
    pending) and stopped; when the detector then answers with a qualifying
    pose, the stopped component takes the frame: the EMF level moves from 0
    to 4.5, the detection count from 0 to 1, an alert is presented, and a
    new animation frame is requested. *)
Theorem stale_frame_after_stop_mutates :
  let stopped :=
    run (mount true) [ClickToggle startOk; ClickToggle startOk] in
  let late := step stopped (Estimated [(poseOf 6 0.9, at_ 5000)]) in
  isRunning stopped = false /\ inflight stopped = 1%nat /\
  emfLevel stopped = 0 /\ emfLevel late = 4.5 /\
  detectionCount stopped = 0%Z /\ detectionCount late = 1%Z /\
  alertsOf (effects stopped) = [] /\ alertsOf (effects late) = [5000%Z] /\
  rafQueue stopped = [] /\ rafQueue late = [1%nat].
Proof. vm_compute. repeat split. Qed.

(** ** Starting twice *)




(** ** The frequency sweep *)

Lemma onPose_spiritBoxFreq a pr : spiritBoxFreq (onPose a pr) = spiritBoxFreq a.
Proof.
  destruct pr as [pose env]. unfold onPose. handler_cases; reflexivity.
Qed.

Lemma onPoses_spiritBoxFreq poses a :
  spiritBoxFreq (onPoses poses a) = spiritBoxFreq a.
Proof.
  unfold onPoses. destruct (0 <? length poses)%nat; [|reflexivity].
  change (spiritBoxFreq a)
    with (spiritBoxFreq (setCurrentPoses (map fst poses) a)).
  generalize (setCurrentPoses (map fst poses) a).
  induction poses as [|pr poses IH]; intros b; simpl; auto.
  rewrite IH. apply onPose_spiritBoxFreq.
Qed.

(** Only the interval callback writes the frequency. *)
Lemma step_spiritBoxFreq a ev :
  spiritBoxFreq (step a ev) =
  match ev with
  | Tick r1 _ _ =>
      if sweepInterval a then nextFreq (spiritBoxFreq a) (sweepDelta r1)
      else spiritBoxFreq a
  | _ => spiritBoxFreq a
  end.
Proof.
  destruct ev as [env| |posted|id ready|poses| |r1 r2 r3|i];
    try (unfold step; unfold_handlers; handler_cases; reflexivity).
  (* the detector answers *)
  unfold step. destruct (0 <? inflight a)%nat; [|reflexivity].
  unfold detectPoses_resolved. simpl. rewrite onPoses_spiritBoxFreq.
  reflexivity.
Qed.

Lemma inBand_iff f :
  inBand f = true <-> (88 <=? f) = true /\ (f <=? 108) = true.
Proof. unfold inBand. apply andb_true_iff. Qed.





(** ** Stopping the sweep *)

(** C5 (as stated, refuted): the sweep is switched on, a tick receives the
    word ["hello"] and schedules its clearing, the sweep is switched off.
    The clearing is still pending after the stop, and when it elapses the
    word changes from ["hello"] to the empty string. *)
Lemma token_clear_survives_sweep_stop :
  let stopped :=
    run (mount true) [ClickSpirit; Tick 0.5 0.01 0; ClickSpirit] in
  spiritBoxActive stopped = false /\ sweepInterval stopped = false /\
  timers stopped = [ClearSpiritWord] /\
  spiritWord stopped = "hello"%string /\
  spiritWord (step stopped (Timeout 0)) = ""%string /\
  step stopped (Timeout 0) <> stopped.
Proof.
  vm_compute. repeat split. intros H. discriminate H.
Qed.

(** C5 (amended): switching the sweep off cancels the fixed-period tick and
    nothing else.  Afterwards a tick changes nothing, so neither the
    frequency nor the word is written by the sweep any more; the pending
    timeouts are all kept, none of them touches the frequency, and a
    pending word-clearing still empties the word when it elapses. *)
Theorem sweep_stop_cancels_tick_only a :
  spiritBoxActive a = true ->
  let a' := setSpiritBoxActive false a in
  spiritBoxActive a' = false /\ sweepInterval a' = false /\
  (forall r1 r2 r3, step a' (Tick r1 r2 r3) = a') /\
  timers a' = timers a /\
  (forall i, spiritBoxFreq (step a' (Timeout i)) = spiritBoxFreq a) /\
  (forall i, nth_error (timers a) i = Some ClearSpiritWord ->
             spiritWord (step a' (Timeout i)) = ""%string).
Proof.
  intros H a'. subst a'. unfold setSpiritBoxActive. rewrite H. simpl.
  repeat split; intros; simpl.
  - destruct (nth_error (timers a) i) as [[|]|]; reflexivity.
  - rewrite H0. reflexivity.
Qed.

Lemma sweep_stop_cancels_tick_only_witness :
  let a := run (mount true) [ClickSpirit; Tick 0.5 0.01 0] in
  spiritBoxActive a = true /\
  step (setSpiritBoxActive false a) (Tick 0.9 0.01 0.5) =
    setSpiritBoxActive false a /\
  spiritWord (step (setSpiritBoxActive false a) (Timeout 0)) = ""%string.
Proof.
  intros a.
  pose proof (sweep_stop_cancels_tick_only a eq_refl) as H.
  cbv zeta in H. destruct H as (_ & _ & H3 & _ & _ & H6).
  split; [reflexivity|]. split; [apply H3|]. apply H6. reflexivity.
Defined.

(** ** The EMF level *)

(** [Math.min(a, b)] never exceeds [a] ... *)
Lemma Math_min_not_above a b : (a <? JS.Math_min a b) = false.
Proof.
  unfold JS.Math_min.
  destruct (is_nan a || is_nan b); [apply ltb_nan_r|].
  destruct (a <? b) eqn:Hab; [apply ltb_irrefl|].
  destruct (b <? a); [exact Hab|].
  destruct (get_sign a); [apply ltb_irrefl|exact Hab].
Qed.

(** ... and [Math.max(a, b)] is never below [a]. *)
Lemma Math_max_not_below a b : (JS.Math_max a b <? a) = false.
Proof.
  unfold JS.Math_max.
  destruct (is_nan a || is_nan b); [apply ltb_nan_l|].
  destruct (a <? b) eqn:Hab; [now apply ltb_asym|].
  destruct (b <? a) eqn:Hba; [apply ltb_irrefl|].
  destruct (get_sign a); [exact Hba|apply ltb_irrefl].
Qed.

Lemma newEmf_not_above_5 pose r : (5 <? newEmf pose r) = false.
Proof. apply Math_min_not_above. Qed.

Lemma onPose_emfLevel a pose env :
  emfLevel (onPose a (pose, env)) =
  if qualifying pose then newEmf pose (rnd env) else emfLevel a.
Proof.
  unfold onPose. destruct (qualifying pose); simpl; auto.
  destruct (throttleOpen _ _); reflexivity.
Qed.

Lemma fold_onPose_emfLevel poses :
  forall a,
    (detection poses = false /\
     emfLevel (fold_left onPose poses a) = emfLevel a) \/
    (detection poses = true /\
     (5 <? emfLevel (fold_left onPose poses a)) = false).
Proof.
  unfold detection.
  induction poses as [|[pose env] poses IH]; intros a;
    cbn [fold_left existsb fst]; auto.
  destruct (IH (onPose a (pose, env))) as [[D E]|[D E]]; rewrite D.
  - rewrite E, onPose_emfLevel. destruct (qualifying pose); simpl; auto.
    right. split; auto. apply newEmf_not_above_5.
  - right. rewrite orb_true_r. auto.
Qed.

Lemma onPoses_emfLevel_detection poses a :
  detection poses = true -> (5 <? emfLevel (onPoses poses a)) = false.
Proof.
  intros D. unfold onPoses.
  destruct poses as [|pr poses]; [discriminate|]. cbn [length Nat.ltb Nat.leb].
  destruct (fold_onPose_emfLevel (pr :: poses)
              (setCurrentPoses (map fst (pr :: poses)) a)) as [[D' _]|[_ E]];
    [congruence|exact E].
Qed.

Lemma feed_snoc a frames poses :
  feed a (frames ++ [poses]) = onPoses poses (feed a frames).
Proof. unfold feed. now rewrite fold_left_app. Qed.

(** C6 (as stated, refuted): two qualifying frames in a row, the first with
    keypoints scoring 0.9, the second with keypoints scoring 0.4.  The
    intensity goes from 4.5 down to 1.9999999999999998: it decreases, and by
    far more than the decay step 0.1. *)
Lemma qualifying_frames_can_lower_intensity :
  let a1 := feed (mount true) [[(poseOf 6 0.9, at_ 5000)]] in
  let a2 := feed a1 [[(poseOf 6 0.4, at_ 5016)]] in
  detection [(poseOf 6 0.9, at_ 5000)] = true /\
  detection [(poseOf 6 0.4, at_ 5016)] = true /\
  ~ ((emfLevel a1 <=? emfLevel a2) = true \/
     (emfLevel a1 - emfLevel a2 <=? 0.1) = true).
Proof.
  vm_compute. repeat split. intros [H|H]; discriminate H.
Qed.

(** C6 (amended): a qualifying pose sets the intensity to
    [min(5, mean * 5 + random * 0.5)] whatever the previous intensity was, so
    between two qualifying frames it may rise or fall by any amount; that
    value never exceeds 5, and so the intensity does not exceed 5 after any
    non-empty sequence of frames that each contain a qualifying pose. *)
Theorem qualifying_frame_sets_intensity :
  (forall a pose env, qualifying pose = true ->
     emfLevel (onPose a (pose, env)) =
     JS.Math_min 5 (avgScore (validKeypoints pose) * 5 + rnd env * 0.5)) /\
  (forall pose r, (5 <? newEmf pose r) = false) /\
  (forall a frames, frames <> [] -> forallb detection frames = true ->
     (5 <? emfLevel (feed a frames)) = false).
Proof.
  split; [|split].
  - intros a pose env Q. rewrite onPose_emfLevel, Q. reflexivity.
  - apply newEmf_not_above_5.
  - intros a frames NE D.
    destruct (exists_last NE) as (fs & poses & ->).
    rewrite forallb_app in D. apply andb_prop in D. destruct D as [_ D].
    simpl in D. rewrite andb_true_r in D.
    rewrite feed_snoc. now apply onPoses_emfLevel_detection.
Qed.

Lemma qualifying_frame_sets_intensity_witness :
  emfLevel (onPose (mount true) (poseOf 6 0.4, at_ 5000)) = 1.9999999999999998
  /\ (5 <? emfLevel (feed (mount true)
             [[(poseOf 6 0.9, at_ 5000)];
              [(poseOf 17 1, mkReading 0.99 5016)]]))
     = false.
Proof.
  split.
  - rewrite (proj1 qualifying_frame_sets_intensity (mount true) (poseOf 6 0.4)
               (at_ 5000) eq_refl).
    reflexivity.
  - apply (proj2 (proj2 qualifying_frame_sets_intensity)).
    + discriminate.
    + reflexivity.
Defined.

(** An empty detector answer makes the intensity decay (line 214). *)
Lemma empty_frame_decays a :
  emfLevel (onPoses [] a) = JS.Math_max 0 (emfLevel a - 0.1).
Proof. reflexivity. Qed.

(** C7 (code defect): the decay of line 214 sits in the [else] of
    [poses.length > 0].  When the detector answers with poses of which none
    passes the test of line 193, the frame is not a detection and yet the
    intensity does not decay: it keeps its previous value. *)
Theorem undetected_pose_skips_decay a poses :
  poses <> [] -> detection poses = false ->
  emfLevel (onPoses poses a) = emfLevel a.
Proof.
  intros NE D. unfold onPoses.
  destruct poses as [|pr poses]; [congruence|]. cbn [length Nat.ltb Nat.leb].
  destruct (fold_onPose_emfLevel (pr :: poses)
              (setCurrentPoses (map fst (pr :: poses)) a)) as [[_ E]|[D' _]];
    [exact E|congruence].
Qed.

(** A pose with five keypoints above 0.3 arrives while the intensity is 1:
    the intensity stays 1, where the decay would give 0.9. *)
Lemma undetected_pose_skips_decay_witness :
  let a := setEmfLevel (fun _ => 1) (mount true) in
  let poses := [(poseOf 5 0.9, at_ 5000)] in
  length (validKeypoints (poseOf 5 0.9)) = 5%nat /\
  emfLevel (onPoses poses a) = 1 /\ decay 1 = 0.9.
Proof.
  intros a poses. split; [reflexivity|]. split; [|reflexivity].
  rewrite (undetected_pose_skips_decay a poses);
    [reflexivity|discriminate|reflexivity].
Defined.

(** ** The session summary *)

(** What [toggleSession] reports when it stops a session that has an id:
    the detection count and the intensity of that moment. *)
Lemma stop_summary env a id :
  isRunning a = true -> sessionId a = Some id ->
  effects (toggleSession env a) =
  effects a ++ [PutSession id (detectionCount a) (emfLevel a)].
Proof.
  intros R S. rewrite (toggleSession_running env a R).
  unfold_handlers. rewrite S. destruct a; handler_cases; reflexivity.
Qed.

(** C8 (code defect): the field sent as [max_emf_level] is the intensity at
    the moment of stopping.  In a session whose first frame brings the
    intensity to 4.5 and whose second brings it to 1.9999999999999998, the
    summary carries 1.9999999999999998, not the maximum 4.5. *)
Theorem summary_reports_intensity_at_stop :
  let evs := [ClickToggle startOk; Estimated [(poseOf 6 0.9, at_ 5000)];
              Frame 1 true; Estimated [(poseOf 6 0.4, at_ 5016)]] in
  emfLevel (run (mount true) (firstn 2 evs)) = 4.5 /\
  emfLevel (run (mount true) evs) = 1.9999999999999998 /\
  effects (run (mount true) (evs ++ [ClickToggle startOk])) =
    [PostSession; AlertEvent 5000; PutSession "s1" 1 1.9999999999999998] /\
  (1.9999999999999998 <? 4.5) = true.
Proof. vm_compute. repeat split. Qed.

(** ** Decay *)

Lemma feed_empty_S a n :
  emfLevel (feed a (repeat [] (S n))) =
  decay (emfLevel (feed a (repeat [] n))).
Proof.
  cbn [repeat]. rewrite repeat_cons, feed_snoc. reflexivity.
Qed.

(** C9 (as stated, refuted): from intensity 1.0, ten empty frames leave the
    intensity at [0x1.4p-53] (about 1.39e-16), which is not zero. *)
Lemma ten_decays_from_one_not_zero :
  let a := setEmfLevel (fun _ => 1) (mount true) in
  ~ (emfLevel (feed a (repeat [] 10)) = 0).
Proof.
  intros a H.
  assert (E : (emfLevel (feed a (repeat [] 10)) =? 0) = false) by reflexivity.
  rewrite H in E. discriminate E.
Qed.

(** C9 (amended): from intensity 1.0, ten consecutive empty frames bring the
    intensity down to [0x1.4p-53] (about 1.39e-16: each [prev - 0.1] is
    rounded to binary64), which is positive and below 1e-15; the eleventh
    brings it to exactly 0.  The intensity is not negative at any step. *)
Theorem decay_from_one :
  let a := setEmfLevel (fun _ => 1) (mount true) in
  emfLevel (feed a (repeat [] 10)) = 0x1.4p-53 /\
  (0 <? emfLevel (feed a (repeat [] 10))) = true /\
  (emfLevel (feed a (repeat [] 10)) <? 1e-15) = true /\
  emfLevel (feed a (repeat [] 11)) = 0 /\
  (forall n, (emfLevel (feed a (repeat [] n)) <? 0) = false).
Proof.
  intros a. repeat split; try reflexivity.
  intros [|n]; [reflexivity|].
  rewrite feed_empty_S. apply Math_max_not_below.
Qed.

(** ** Logging a detection *)

(** C10: when the first of the current poses has no keypoint scoring above
    0.3, [logDetection] divides 0 by 0: the request it sends carries the
    confidence NaN (and [keypoints_count] 0), without any guard. *)
Theorem logDetection_sends_NaN posted a pose rest :
  currentPoses a = pose :: rest -> validKeypoints pose = [] ->
  avgScore (validKeypoints pose) = nan /\
  effects (logDetection posted a) =
  effects a ++
    [PostDetection nan 0 (emfLevel a)
       (if spiritBoxActive a then Some (spiritBoxFreq a) else None)].
Proof.
  intros P V. unfold logDetection. rewrite P, V.
  split; [reflexivity|]. destruct posted; reflexivity.
Qed.

(** A running session whose detector returned a pose of seventeen keypoints
    that all score 0.1. *)
Lemma logDetection_sends_NaN_witness :
  let a := run (mount true)
             [ClickToggle startOk; Estimated [(poseOf 17 0.1, at_ 5000)]] in
  currentPoses a <> [] /\
  effects (step a (ClickLog true)) = [PostSession; PostDetection nan 0 0 None].
Proof.
  intros a. split; [discriminate|].
  exact (proj2 (logDetection_sends_NaN true a (poseOf 17 0.1) []
                  eq_refl eq_refl)).
Defined.

(** * Further properties *)

Arguments sinceStart : simpl never.
Arguments alertsOf : simpl never.
Arguments transientMessage : simpl never.
Arguments spiritDialRotation : simpl never.
Arguments emfNeedleRotation : simpl never.

(** ** The detection counter *)

Lemma alertsOf_single e :
  alertsOf [e] = match e with AlertEvent t => [t] | _ => [] end.
Proof. destruct e; reflexivity. Qed.

Lemma sinceStart_snoc es e :
  sinceStart (es ++ [e]) =
  match e with PostSession => [] | _ => sinceStart es ++ [e] end.
Proof. unfold sinceStart. rewrite fold_left_app. reflexivity. Qed.

Lemma alertsSinceStart_emit a e :
  alertsSinceStart (emit e a) =
  match e with
  | PostSession => 0%Z
  | AlertEvent _ => (alertsSinceStart a + 1)%Z
  | _ => alertsSinceStart a
  end.
Proof.
  unfold alertsSinceStart. simpl effects. rewrite sinceStart_snoc.
  destruct e; rewrite ?alertsOf_app, ?alertsOf_single; simpl;
    rewrite ?app_nil_r; auto.
  rewrite length_app. simpl. lia.
Qed.

(** States that agree on the calls made agree on the tally. *)
Lemma alertsSinceStart_ext a b :
  effects b = effects a -> alertsSinceStart b = alertsSinceStart a.
Proof. unfold alertsSinceStart. now intros ->. Qed.

Lemma onPose_counted a pr : counted a -> counted (onPose a pr).
Proof.
  destruct pr as [pose env]. unfold counted, onPose. intros H.
  destruct (qualifying pose); [|exact H].
  destruct (throttleOpen _ _).
  - unfold fireAlert, setTimeout.
    change (detectionCount _) with (detectionCount a + 1)%Z.
    transitivity (alertsSinceStart (emit (AlertEvent (now env)) a));
      [rewrite alertsSinceStart_emit; lia|reflexivity].
  - exact H.
Qed.

Lemma fold_onPose_counted poses :
  forall a, counted a -> counted (fold_left onPose poses a).
Proof.
  induction poses as [|pr poses IH]; simpl; auto using onPose_counted.
Qed.

Lemma counted_ext a b :
  detectionCount b = detectionCount a -> effects b = effects a ->
  counted a -> counted b.
Proof.
  unfold counted. intros -> E H. now rewrite (alertsSinceStart_ext a b E).
Qed.

Lemma onPoses_counted poses a : counted a -> counted (onPoses poses a).
Proof.
  intros H. unfold onPoses. destruct (0 <? length poses)%nat.
  - apply fold_onPose_counted. exact H.
  - exact H.
Qed.

(** Closes a goal of the form [counted (handler a)] by cases on the
    handler's tests. *)
Ltac counted_cases a :=
  unfold counted, alertsSinceStart in *; unfold_handlers;
  destruct a; cbn in *; handler_cases;
  rewrite ?sinceStart_snoc; cbn;
  rewrite ?alertsOf_app, ?alertsOf_single; cbn; rewrite ?app_nil_r; auto.

Lemma toggleSession_counted env a : counted a -> counted (toggleSession env a).
Proof.
  intros H. counted_cases a.
Qed.

Lemma step_counted a ev : counted a -> counted (step a ev).
Proof.
  intros H. destruct ev as [env| |posted|id ready|poses| |r1 r2 r3|i];
    try (unfold step; counted_cases a; fail).
  unfold step. destruct (0 <? inflight a)%nat; [|exact H].
  unfold detectPoses_resolved.
  apply counted_ext with (onPoses poses (set_inflight Nat.pred a)); auto.
  apply onPoses_counted. apply counted_ext with a; auto.
Qed.

Lemma run_counted evs : forall a, counted a -> counted (run a evs).
Proof.
  unfold run. induction evs as [|ev evs IH]; simpl; auto using step_counted.
Qed.

(** X1: in every state the component can reach, the detection counter
    equals the number of alerts presented since the session was last
    started: a start resets it together with the tally, each alert adds
    one, nothing else writes it. *)
Theorem counter_counts_alerts_since_start d evs :
  detectionCount (run (mount d) evs) = alertsSinceStart (run (mount d) evs).
Proof. apply run_counted. reflexivity. Qed.

(** X2: the summary written when a running session with an id is
    stopped reports, as [total_detections], the number of alerts presented
    since that session was started, and as [max_emf_level] the level
    current at the stop. *)
Theorem summary_counts_alerts_since_start d evs env id :
  let a := run (mount d) evs in
  isRunning a = true -> sessionId a = Some id ->
  effects (toggleSession env a) =
  effects a ++ [PutSession id (alertsSinceStart a) (emfLevel a)].
Proof.
  intros a R S. rewrite (stop_summary env a id R S). unfold a.
  now rewrite (run_counted evs (mount d) eq_refl).
Qed.

(** A session is started, raises one alert, is stopped and started again,
    and raises one more alert: the second summary counts one alert. *)
Lemma summary_counts_alerts_since_start_witness :
  let a := run (mount true)
    [ClickToggle startOk; Estimated [(poseOf 6 0.9, at_ 5000)];
     ClickToggle startOk; ClickToggle startOk;
     Estimated [(poseOf 6 0.9, at_ 9000)]] in
  alertsOf (effects a) = [5000; 9000]%Z /\
  effects (toggleSession startOk a) = effects a ++ [PutSession "s1" 1 4.5].
Proof.
  intros a. split; [reflexivity|].
  exact (summary_counts_alerts_since_start true
    [ClickToggle startOk; Estimated [(poseOf 6 0.9, at_ 5000)];
     ClickToggle startOk; ClickToggle startOk;
     Estimated [(poseOf 6 0.9, at_ 9000)]] startOk "s1"%string
    eq_refl eq_refl).
Defined.

(** *** The sweep while it is off *)

Lemma step_armed a ev : armed a -> armed (step a ev).
Proof.
  unfold armed. intros H.
  destruct ev as [env| |posted|id ready|poses| |r1 r2 r3|i];
    try (unfold step; unfold_handlers; destruct a; cbn in *; handler_cases;
         auto; fail).
  unfold step. destruct (0 <? inflight a)%nat; [|exact H].
  unfold detectPoses_resolved. simpl.
  unfold onPoses. destruct (0 <? length poses)%nat; [|exact H].
  set (b := setCurrentPoses _ _).
  assert (Hb : sweepInterval b = spiritBoxActive b) by exact H.
  clearbody b. revert b Hb.
  induction poses as [|[pose env] poses IH]; intros b Hb; simpl; auto.
  apply IH. unfold onPose. handler_cases; auto.
Qed.

Lemma run_armed evs : forall a, armed a -> armed (run a evs).
Proof.
  unfold run. induction evs as [|ev evs IH]; simpl; auto using step_armed.
Qed.

Lemma step_spiritBoxActive a ev :
  spiritBoxActive (step a ev) =
  match ev with
  | ClickSpirit => negb (spiritBoxActive a)
  | ClickToggle _ => if isRunning a then false else spiritBoxActive a
  | _ => spiritBoxActive a
  end.
Proof.
  destruct ev as [env| |posted|id ready|poses| |r1 r2 r3|i];
    try (unfold step; unfold_handlers; destruct a; cbn in *; handler_cases;
         auto; fail).
  { unfold step, setSpiritBoxActive.
    destruct (spiritBoxActive a) eqn:E; simpl; auto. }
  unfold step. destruct (0 <? inflight a)%nat; [|reflexivity].
  unfold detectPoses_resolved. simpl.
  unfold onPoses. destruct (0 <? length poses)%nat; [|reflexivity].
  change (spiritBoxActive a)
    with (spiritBoxActive
            (setCurrentPoses (map fst poses) (set_inflight Nat.pred a))).
  generalize (setCurrentPoses (map fst poses) (set_inflight Nat.pred a)).
  induction poses as [|[pose env] poses IH]; intros b; simpl; auto.
  rewrite IH. unfold onPose. handler_cases; reflexivity.
Qed.

Lemma onPose_spiritWord a pr : spiritWord (onPose a pr) = spiritWord a.
Proof.
  destruct pr as [pose env]. unfold onPose. handler_cases; reflexivity.
Qed.

Lemma onPoses_spiritWord poses a : spiritWord (onPoses poses a) = spiritWord a.
Proof.
  unfold onPoses. destruct (0 <? length poses)%nat; [|reflexivity].
  change (spiritWord a)
    with (spiritWord (setCurrentPoses (map fst poses) a)).
  generalize (setCurrentPoses (map fst poses) a).
  induction poses as [|pr poses IH]; intros b; simpl; auto.
  rewrite IH. apply onPose_spiritWord.
Qed.

(** While the interval is not armed the word can only be cleared. *)
Lemma step_spiritWord_off a ev :
  sweepInterval a = false ->
  spiritWord (step a ev) = spiritWord a \/ spiritWord (step a ev) = ""%string.
Proof.
  intros H.
  destruct ev as [env| |posted|id ready|poses| |r1 r2 r3|i];
    try (left; unfold step; unfold_handlers; destruct a; cbn in *;
         handler_cases; auto; fail).
  all: unfold step.
  all: try (rewrite H; now left).
  all: try (destruct (nth_error (timers a) i) as [[|]|]; auto; fail).
  destruct (0 <? inflight a)%nat; [|now left].
  left. unfold detectPoses_resolved. simpl. now rewrite onPoses_spiritWord.
Qed.

Lemma existsb_cons_false {A} (f : A -> bool) x l :
  existsb f (x :: l) = false -> f x = false /\ existsb f l = false.
Proof. simpl. apply orb_false_elim. Qed.

(** X3: while the sweep is switched off, whatever else happens, the
    sweep stays off, the frequency keeps its value, and the word shown is
    either kept or cleared; switching the sweep back on resumes from the
    frequency it stopped at. *)
Theorem sweep_off_keeps_frequency d evs evs' :
  let a := run (mount d) evs in
  spiritBoxActive a = false -> existsb isSpirit evs' = false ->
  let b := run a evs' in
  spiritBoxActive b = false /\
  spiritBoxFreq b = spiritBoxFreq a /\
  (spiritWord b = spiritWord a \/ spiritWord b = ""%string) /\
  spiritBoxFreq (step b ClickSpirit) = spiritBoxFreq a.
Proof.
  intros a Off NS b.
  assert (Ha : armed a) by (apply run_armed; reflexivity).
  assert (G : spiritBoxActive b = false /\ armed b /\
              spiritBoxFreq b = spiritBoxFreq a /\
              (spiritWord b = spiritWord a \/ spiritWord b = ""%string)).
  { subst b. clearbody a. revert a Off Ha.
    induction evs' as [|ev evs' IH]; intros a Off Ha; [simpl; auto|].
    apply existsb_cons_false in NS. destruct NS as [N1 N2].
    assert (Off' : spiritBoxActive (step a ev) = false).
    { rewrite step_spiritBoxActive. destruct ev; try discriminate; auto.
      now destruct (isRunning a). }
    assert (I : sweepInterval a = false) by (rewrite Ha; exact Off).
    destruct (IH N2 (step a ev) Off' (step_armed a ev Ha))
      as (B1 & B2 & B3 & B4).
    change (run a (ev :: evs')) with (run (step a ev) evs').
    repeat split; auto.
    - rewrite B3, step_spiritBoxFreq. destruct ev; auto. now rewrite I.
    - destruct (step_spiritWord_off a ev I) as [E|E];
        rewrite E in B4; destruct B4; auto. }
  destruct G as (G1 & G2 & G3 & G4). repeat split; auto.
  rewrite step_spiritBoxFreq. exact G3.
Qed.

Lemma sweep_off_keeps_frequency_witness :
  let a := run (mount true)
             [ClickSpirit; Tick 0.9 0.01 0; Tick 0.9 0.5 0; ClickSpirit] in
  let b := run a [Tick 0.9 0.01 0.5; Timeout 0; ClickToggle startOk] in
  spiritBoxFreq a = 88.9 /\ spiritWord a = "hello"%string /\
  spiritBoxFreq b = 88.9 /\ spiritBoxFreq (step b ClickSpirit) = 88.9.
Proof.
  intros a b.
  destruct (sweep_off_keeps_frequency true
              [ClickSpirit; Tick 0.9 0.01 0; Tick 0.9 0.5 0; ClickSpirit]
              [Tick 0.9 0.01 0.5; Timeout 0; ClickToggle startOk]
              eq_refl eq_refl) as (_ & H2 & _ & H4).
  split; [reflexivity|]. split; [reflexivity|].
  split; [exact H2|exact H4].
Defined.

(** ** The frequency grid and the dial *)

(** A property of [n / 10] that holds for each of the 201 integers [n] from
    880 to 1080 holds for every frequency of the grid. *)
Lemma tenth_enum (P : float -> bool) :
  forallb (fun i => P (JS.ofZ (880 + Z.of_nat i) / 10)) (seq 0 201) = true ->
  forall f, tenth f -> P f = true.
Proof.
  intros A f (n & B & ->). rewrite forallb_forall in A.
  specialize (A (Z.to_nat (n - 880))).
  replace (880 + Z.of_nat (Z.to_nat (n - 880)))%Z with n in A by lia.
  apply A. apply in_seq. lia.
Qed.

Lemma nextFreq_tenth prev delta :
  is_nan (prev + delta) = false -> tenth (nextFreq prev delta).
Proof.
  intros N. unfold nextFreq. set (next := prev + delta) in *.
  destruct (108 <? next) eqn:A.
  - exists 880%Z. split; [lia|]. vm_compute. reflexivity.
  - destruct (next <? 88) eqn:B.
    + exists 1080%Z. split; [lia|]. vm_compute. reflexivity.
    + assert (L : (88 <=? next) = true) by (apply leb_of_not_ltb; auto).
      assert (U : (next <=? 108) = true) by (apply leb_of_not_ltb; auto).
      destruct (band_mantissa next L U) as (m & E & Bm).
      destruct (times_ten_rounds_in_band next m E Bm)
        as (m' & e' & E' & Ne & R).
      unfold JS.Math_round. rewrite E'.
      replace (0 <=? e')%Z with false by (symmetry; apply Z.leb_gt; exact Ne).
      replace (JS.roundZ false m' e' =? 0)%Z with false
        by (symmetry; apply Z.eqb_neq; lia).
      exists (JS.roundZ false m' e'). split; [exact R|reflexivity].
Qed.

Lemma tenth_inBand f : tenth f -> inBand f = true.
Proof.
  intros (n & B & ->). apply inBand_iff. now apply tenth_in_band.
Qed.

Lemma step_tenth a ev :
  tenth (spiritBoxFreq a) -> randomsOk ev -> tenth (spiritBoxFreq (step a ev)).
Proof.
  intros T R. rewrite step_spiritBoxFreq.
  destruct ev as [env| |posted|id ready|poses| |r1 r2 r3|i]; auto.
  destruct (sweepInterval a); auto.
  destruct R as (R1 & _).
  pose proof (tenth_inBand _ T) as B. apply inBand_iff in B.
  destruct B as [L U].
  apply nextFreq_tenth. apply sweep_sum_not_nan; auto using fromRandom_not_nan.
Qed.

Lemma run_tenth evs :
  forall a, tenth (spiritBoxFreq a) -> Forall randomsOk evs ->
            tenth (spiritBoxFreq (run a evs)).
Proof.
  unfold run. induction evs as [|ev evs IH]; intros a B R; simpl; auto.
  inversion R as [|? ? R1 R2]; subst. apply IH; auto using step_tenth.
Qed.

Lemma mount_tenth d : tenth (spiritBoxFreq (mount d)).
Proof. exists 881%Z. split; [lia|]. vm_compute. reflexivity. Qed.

(** X4: after any events whose random draws are values of
    [Math.random()], the frequency is [n / 10] for an integer [n] from 880
    to 1080: it never carries more than one decimal. *)
Theorem frequency_has_one_decimal d evs :
  Forall randomsOk evs ->
  exists n, (880 <= n <= 1080)%Z /\
            spiritBoxFreq (run (mount d) evs) = JS.ofZ n / 10.
Proof. intros R. apply run_tenth; [apply mount_tenth|exact R]. Qed.

Lemma frequency_has_one_decimal_witness :
  exists n, (880 <= n <= 1080)%Z /\
    spiritBoxFreq (run (mount true)
      [ClickSpirit; Tick 0.9 0.5 0.5; Tick 0.1 0.01 0.7; Tick 0.5 0.5 0.5])
    = JS.ofZ n / 10.
Proof.
  apply (frequency_has_one_decimal true
    [ClickSpirit; Tick 0.9 0.5 0.5; Tick 0.1 0.01 0.7; Tick 0.5 0.5 0.5]).
  repeat constructor.
Defined.

Lemma dial_on_grid f :
  tenth f ->
  (-135 <=? spiritDialRotation f) = true /\
  (spiritDialRotation f <=? 135) = true.
Proof.
  intros T. apply andb_prop.
  apply (tenth_enum (fun f => (-135 <=? spiritDialRotation f) &&
                              (spiritDialRotation f <=? 135))); [|exact T].
  vm_compute. reflexivity.
Qed.

(** X5: after any events whose random draws are values of
    [Math.random()], the rotation of the dial lies between -135 and 135
    degrees. *)
Theorem dial_stays_on_scale d evs :
  Forall randomsOk evs ->
  let f := spiritBoxFreq (run (mount d) evs) in
  (-135 <=? spiritDialRotation f) = true /\
  (spiritDialRotation f <=? 135) = true.
Proof.
  intros R f. apply dial_on_grid. apply run_tenth; [apply mount_tenth|exact R].
Qed.

Lemma dial_stays_on_scale_witness :
  let f := spiritBoxFreq (run (mount true)
             [ClickSpirit; Tick 0.01 0.5 0.5]) in
  f = 108 /\ spiritDialRotation f = 135 /\
  (spiritDialRotation f <=? 135) = true.
Proof.
  intros f. split; [reflexivity|]. split; [reflexivity|].
  apply (dial_stays_on_scale true
           [ClickSpirit; Tick 0.01 0.5 0.5]).
  repeat constructor.
Defined.

(** ** The detection loops *)

Local Open Scope nat_scope.

Lemma dequeue_absent id q : ~ In id q -> dequeue id q = q.
Proof.
  unfold dequeue. induction q as [|i q IH]; simpl; intros H; auto.
  destruct (Nat.eqb_spec i id) as [->|N]; simpl.
  - exfalso. apply H. now left.
  - f_equal. apply IH. intros G. apply H. now right.
Qed.

Lemma dequeue_length id q :
  NoDup q -> In id q -> S (length (dequeue id q)) = length q.
Proof.
  unfold dequeue. induction 1 as [|i q N ND IH]; simpl; [tauto|].
  intros [->|H].
  - rewrite Nat.eqb_refl. simpl. fold (dequeue id q).
    now rewrite dequeue_absent.
  - destruct (Nat.eqb_spec i id) as [->|Ne]; [contradiction|].
    simpl. now rewrite IH.
Qed.

Lemma dequeue_length_le id q : length (dequeue id q) <= length q.
Proof. apply filter_length_le. Qed.

Lemma dequeue_NoDup id q : NoDup q -> NoDup (dequeue id q).
Proof. apply NoDup_filter. Qed.

Lemma dequeue_Forall (P : nat -> Prop) id q :
  Forall P q -> Forall P (dequeue id q).
Proof.
  rewrite !Forall_forall. intros H i Hi. apply H.
  unfold dequeue in Hi. apply filter_In in Hi. tauto.
Qed.

Lemma existsb_eqb_In id q : existsb (Nat.eqb id) q = true <-> In id q.
Proof.
  rewrite existsb_exists. split.
  - intros (i & Hi & E). apply Nat.eqb_eq in E. now subst.
  - intros H. exists id. split; [exact H|apply Nat.eqb_refl].
Qed.

(** States that agree on the scheduler. *)
Lemma sched_ext a b :
  rafQueue b = rafQueue a -> rafNext b = rafNext a -> inflight b = inflight a ->
  (detectorRef a = true -> detectorRef b = true) ->
  sched a -> sched b.
Proof.
  unfold sched, loops. intros -> -> -> D (H1 & H2 & H3). auto.
Qed.

Lemma requestAnimationFrame_sched a :
  detectorRef a = true -> sched a -> sched (requestAnimationFrame a).
Proof.
  unfold sched, loops. intros D (H1 & H2 & H3). simpl. repeat split; auto.
  - apply NoDup_app; [exact H1|repeat constructor; intros []|].
    intros i Hi [<-|[]]. rewrite Forall_forall in H2.
    specialize (H2 _ Hi). lia.
  - apply Forall_app. split.
    + eapply Forall_impl; [|exact H2]. simpl. intros; lia.
    + repeat constructor.
Qed.

Lemma dequeue_sched id a : sched a -> sched (set_rafQueue (dequeue id) a).
Proof.
  unfold sched, loops. intros (H1 & H2 & H3). simpl.
  repeat split; auto using dequeue_NoDup, dequeue_Forall.
  intros N. apply H3. pose proof (dequeue_length_le id (rafQueue a)). lia.
Qed.

Lemma onPose_scheduler a pr :
  rafQueue (onPose a pr) = rafQueue a /\ rafNext (onPose a pr) = rafNext a /\
  inflight (onPose a pr) = inflight a /\
  detectorRef (onPose a pr) = detectorRef a /\
  animationRef (onPose a pr) = animationRef a /\
  isRunning (onPose a pr) = isRunning a /\
  sessionId (onPose a pr) = sessionId a.
Proof.
  destruct pr as [pose env]. unfold onPose. handler_cases; repeat split.
Qed.

Lemma onPoses_scheduler poses a :
  rafQueue (onPoses poses a) = rafQueue a /\
  rafNext (onPoses poses a) = rafNext a /\
  inflight (onPoses poses a) = inflight a /\
  detectorRef (onPoses poses a) = detectorRef a /\
  animationRef (onPoses poses a) = animationRef a /\
  isRunning (onPoses poses a) = isRunning a /\
  sessionId (onPoses poses a) = sessionId a.
Proof.
  unfold onPoses. destruct (0 <? length poses); [|repeat split].
  set (b := setCurrentPoses (map fst poses) a).
  change (rafQueue a) with (rafQueue b). change (rafNext a) with (rafNext b).
  change (inflight a) with (inflight b).
  change (detectorRef a) with (detectorRef b).
  change (animationRef a) with (animationRef b).
  change (isRunning a) with (isRunning b).
  change (sessionId a) with (sessionId b).
  clearbody b. revert b.
  induction poses as [|pr poses IH]; intros b; simpl; [repeat split|].
  destruct (IH (onPose b pr)) as (-> & -> & -> & -> & -> & -> & ->).
  apply onPose_scheduler.
Qed.

Lemma detectPoses_sched ready a : sched a -> sched (detectPoses ready a).
Proof.
  intros H. unfold detectPoses.
  destruct (detectorRef a) eqn:D; simpl; [|exact H].
  destruct (negb (ready && srcObject a)).
  - now apply requestAnimationFrame_sched.
  - destruct H as (H1 & H2 & H3). repeat split; auto.
Qed.

Lemma detectPoses_loops ready a :
  loops (detectPoses ready a) = if detectorRef a then S (loops a) else loops a.
Proof.
  unfold detectPoses, loops. destruct (detectorRef a); simpl; [|reflexivity].
  destruct (negb (ready && srcObject a)); simpl.
  - rewrite length_app. simpl. lia.
  - lia.
Qed.

Lemma toggleSession_sched env a : sched a -> sched (toggleSession env a).
Proof.
  intros H. unfold toggleSession. destruct (isRunning a) eqn:R.
  - apply sched_ext with (cancelAnimationFrame (animationRef a) a);
      try (unfold_handlers; destruct a; cbn; handler_cases; reflexivity).
    + unfold_handlers; destruct a; cbn; handler_cases; auto.
    + unfold cancelAnimationFrame. destruct (animationRef a); auto.
      now apply dequeue_sched.
  - destruct (cameraOk env) eqn:C.
    + unfold createSession.
      set (b := detectPoses _ _).
      assert (Hb : sched b).
      { apply detectPoses_sched.
        eapply sched_ext; [| | | |exact H];
          try (unfold_handlers; destruct a; cbn; handler_cases; reflexivity).
        unfold_handlers; destruct a; cbn; handler_cases; auto. }
      clearbody b. destruct (newSession env); exact Hb.
    + eapply sched_ext; [| | | |exact H];
        try (unfold_handlers; destruct a; cbn; handler_cases; reflexivity).
      unfold_handlers; destruct a; cbn; handler_cases; auto.
Qed.

Lemma step_sched a ev : sched a -> sched (step a ev).
Proof.
  intros H.
  destruct ev as [env| |posted|id ready|poses| |r1 r2 r3|i]; unfold step.
  - now apply toggleSession_sched.
  - eapply sched_ext; [| | | |exact H];
      unfold_handlers; destruct a; cbn; handler_cases; auto.
  - eapply sched_ext; [| | | |exact H];
      unfold_handlers; destruct a; cbn; handler_cases; auto.
  - destruct (existsb _ _); [|exact H].
    apply detectPoses_sched. now apply dequeue_sched.
  - destruct (0 <? inflight a) eqn:I; [|exact H].
    apply Nat.ltb_lt in I. unfold detectPoses_resolved.
    destruct (onPoses_scheduler poses (set_inflight Nat.pred a))
      as (Q & N & F & D & _).
    assert (Da : detectorRef a = true).
    { apply H. unfold loops. lia. }
    apply requestAnimationFrame_sched; [rewrite D; exact Da|].
    destruct H as (H1 & H2 & H3).
    unfold sched, loops. rewrite Q, N, F, D. simpl. auto.
  - destruct (0 <? inflight a) eqn:I; [|exact H].
    apply Nat.ltb_lt in I. unfold detectPoses_rejected.
    assert (Da : detectorRef a = true).
    { apply H. unfold loops. lia. }
    apply requestAnimationFrame_sched; [exact Da|].
    destruct H as (H1 & H2 & H3). unfold sched, loops. simpl. auto.
  - eapply sched_ext; [| | | |exact H];
      unfold_handlers; destruct a; cbn; handler_cases; auto.
  - eapply sched_ext; [| | | |exact H];
      unfold_handlers; destruct a; cbn; handler_cases; auto.
Qed.

Lemma run_sched evs : forall a, sched a -> sched (run a evs).
Proof.
  unfold run. induction evs as [|ev evs IH]; simpl; auto using step_sched.
Qed.

Lemma mount_sched d : sched (mount d).
Proof.
  unfold sched, loops. simpl. repeat split; try constructor. intros []. reflexivity.
Qed.

Lemma loops_ext a b :
  rafQueue b = rafQueue a -> inflight b = inflight a -> loops b = loops a.
Proof. unfold loops. now intros -> ->. Qed.

Lemma step_loops a ev :
  sched a -> isToggle ev = false -> loops (step a ev) = loops a.
Proof.
  intros H T.
  destruct ev as [env| |posted|id ready|poses| |r1 r2 r3|i];
    try discriminate; unfold step.
  - apply loops_ext; unfold_handlers; destruct a; cbn; handler_cases; auto.
  - apply loops_ext; unfold_handlers; destruct a; cbn; handler_cases; auto.
  - destruct (existsb _ _) eqn:E; [|reflexivity].
    apply existsb_eqb_In in E. rewrite detectPoses_loops.
    change (detectorRef (set_rafQueue (dequeue id) a)) with (detectorRef a).
    destruct H as (H1 & H2 & H3).
    rewrite H3.
    + unfold loops. simpl. rewrite <- (dequeue_length id (rafQueue a) H1 E).
      reflexivity.
    + unfold loops. destruct (rafQueue a); [destruct E|simpl; lia].
  - destruct (0 <? inflight a) eqn:I; [|reflexivity].
    apply Nat.ltb_lt in I. unfold detectPoses_resolved.
    destruct (onPoses_scheduler poses (set_inflight Nat.pred a))
      as (Q & N & F & D & _).
    unfold loops. simpl. rewrite Q, F, length_app. simpl. lia.
  - destruct (0 <? inflight a) eqn:I; [|reflexivity].
    apply Nat.ltb_lt in I. unfold detectPoses_rejected, loops. simpl.
    rewrite length_app. simpl. lia.
  - apply loops_ext; unfold_handlers; destruct a; cbn; handler_cases; auto.
  - apply loops_ext; unfold_handlers; destruct a; cbn; handler_cases; auto.
Qed.

(** X6: in every state the component can reach, no event other than a
    click on START / STOP changes the number of detection loops that are
    alive: a frame callback that runs is replaced by a pending detector
    call or by a new frame callback, and a detector answer by a new frame
    callback. *)
Theorem loops_survive_all_but_toggles d evs ev :
  isToggle ev = false ->
  loops (step (run (mount d) evs) ev) = loops (run (mount d) evs).
Proof.
  intros T. apply step_loops; [|exact T]. apply run_sched, mount_sched.
Qed.

Lemma loops_survive_all_but_toggles_witness :
  let a := run (mount true) [ClickToggle startOk; ClickToggle startOk] in
  isRunning a = false /\ loops a = 1 /\
  loops (step a (Estimated [(poseOf 6 0.9, at_ 5000)])) = loops a.
Proof.
  intros a. split; [reflexivity|]. split; [reflexivity|].
  exact (loops_survive_all_but_toggles true
           [ClickToggle startOk; ClickToggle startOk]
           (Estimated [(poseOf 6 0.9, at_ 5000)]) eq_refl).
Defined.

Lemma start_loops env a :
  isRunning a = false -> cameraOk env = true ->
  loops (toggleSession env a) =
  if detectorRef a || detectorOk env then S (loops a) else loops a.
Proof.
  intros R C. unfold toggleSession. rewrite R, C.
  unfold createSession.
  set (b := detectPoses _ _).
  assert (Hb : loops b = if detectorRef a || detectorOk env
                         then S (loops a) else loops a).
  { subst b. rewrite detectPoses_loops. unfold_handlers.
    destruct a as [dr ? ? ? ? ? ? ? ? ? ? ? ? ? ? ? ? ? ?].
    destruct env as [dok ? ? ?]. cbn in *. destruct dr, dok; reflexivity. }
  clearbody b. destruct (newSession env); exact Hb.
Qed.

Lemma stop_loops env a :
  isRunning a = true -> sched a ->
  loops (toggleSession env a) =
  match animationRef a with
  | Some h => if existsb (Nat.eqb h) (rafQueue a) then pred (loops a)
              else loops a
  | None => loops a
  end.
Proof.
  intros R H. destruct (stop_scheduler env a R) as (Q & F & _).
  unfold loops. rewrite Q, F. unfold cancelAnimationFrame.
  destruct (animationRef a) as [h|]; [|reflexivity]. simpl.
  destruct (existsb _ _) eqn:E.
  - apply existsb_eqb_In in E. destruct H as (H1 & _).
    rewrite <- (dequeue_length h (rafQueue a) H1 E). reflexivity.
  - rewrite dequeue_absent; [reflexivity|].
    intros G. apply existsb_eqb_In in G. congruence.
Qed.

(** X7: from a state the component can reach, a start whose camera opens
    adds exactly one detection loop when a detector exists or can be
    created, and none otherwise; a stop removes the one loop whose handle
    was stored last, if that callback is still pending, and no other. *)
Theorem toggle_changes_loops_by_one d evs env :
  let a := run (mount d) evs in
  (isRunning a = false -> cameraOk env = true ->
   loops (toggleSession env a) =
   if detectorRef a || detectorOk env then S (loops a) else loops a) /\
  (isRunning a = true ->
   loops (toggleSession env a) =
   match animationRef a with
   | Some h => if existsb (Nat.eqb h) (rafQueue a) then pred (loops a)
               else loops a
   | None => loops a
   end).
Proof.
  intros a. split.
  - apply start_loops.
  - intros R. apply stop_loops; [exact R|]. apply run_sched, mount_sched.
Qed.

Lemma toggle_changes_loops_by_one_witness :
  let a := run (mount true) [ClickToggle startOk; ClickToggle startOk] in
  let b := run (mount true) [ClickToggle startOk; Estimated []] in
  (isRunning a = false /\ loops a = 1 /\ loops (toggleSession startOk a) = 2) /\
  (isRunning b = true /\ loops b = 1 /\ loops (toggleSession startOk b) = 0).
Proof.
  intros a b.
  pose proof (toggle_changes_loops_by_one true
                [ClickToggle startOk; ClickToggle startOk] startOk) as [H1 _].
  pose proof (toggle_changes_loops_by_one true
                [ClickToggle startOk; Estimated []] startOk) as [_ H2].
  split.
  - split; [reflexivity|]. split; [reflexivity|].
    unfold a. rewrite (H1 eq_refl eq_refl). reflexivity.
  - split; [reflexivity|]. split; [reflexivity|].
    unfold b. rewrite (H2 eq_refl). reflexivity.
Defined.

Lemma quickSession_state a env env' :
  isRunning a = false -> animationRef a = None -> rafQueue a = [] ->
  allReady env = true ->
  let b := step (step a (ClickToggle env)) (ClickToggle env') in
  isRunning b = false /\ animationRef b = None /\ rafQueue b = [] /\
  inflight b = S (inflight a).
Proof.
  intros R A Q E. unfold allReady in E.
  apply andb_prop in E. destruct E as [E V].
  apply andb_prop in E. destruct E as [D C].
  unfold step. unfold_handlers.
  destruct a as [dr ? ? ? ? ? ? ? ? ? ? ? ? ? ? ? ? ? ?].
  destruct env as [dok cok vr ns]. cbn in *. subst.
  destruct dr; cbn; handler_cases; auto.
Qed.

Lemma quickSessions_state envs :
  forallb (fun p => allReady (fst p)) envs = true ->
  forall a, isRunning a = false -> animationRef a = None -> rafQueue a = [] ->
  let b := run a (quickSessions envs) in
  isRunning b = false /\ animationRef b = None /\ rafQueue b = [] /\
  inflight b = length envs + inflight a.
Proof.
  induction envs as [|[env env'] envs IH]; intros E a R A Q; [simpl; auto|].
  cbn [forallb fst] in E. apply andb_prop in E. destruct E as [E1 E2].
  destruct (quickSession_state a env env' R A Q E1) as (R2 & A2 & Q2 & F2).
  destruct (IH E2 _ R2 A2 Q2) as (? & ? & ? & F).
  change (run a (quickSessions ((env, env') :: envs)))
    with (run (step (step a (ClickToggle env)) (ClickToggle env'))
              (quickSessions envs)).
  cbv zeta. repeat split; auto. rewrite F, F2. simpl. lia.
Qed.

(** X8: sessions that are each started with the detector, the camera and
    the video ready and stopped before the detector has answered leave the
    component stopped with one detection loop alive per session. *)
Theorem quick_sessions_leave_loops d envs :
  forallb (fun p => allReady (fst p)) envs = true ->
  let a := run (mount d) (quickSessions envs) in
  isRunning a = false /\ loops a = length envs.
Proof.
  intros E a.
  destruct (quickSessions_state envs E (mount d)) as (R & _ & Q & F); auto.
  split; [exact R|]. unfold loops. fold a in Q, F. rewrite Q, F. simpl. lia.
Qed.

Lemma quick_sessions_leave_loops_witness :
  let a := run (mount false)
             (quickSessions [(startOk, startOk); (startOk, startOk);
                             (startOk, startOk)]) in
  isRunning a = false /\ loops a = 3.
Proof.
  apply (quick_sessions_leave_loops false
           [(startOk, startOk); (startOk, startOk); (startOk, startOk)]).
  reflexivity.
Defined.

Local Close Scope nat_scope.

(** ** Messages and their timeouts *)

Lemma In_remove_nth {A} (x y : A) i l :
  In x l -> nth_error l i = Some y -> x <> y -> In x (remove_nth i l).
Proof.
  revert i. induction l as [|v l IH]; intros i H E N; [destruct H|].
  destruct i as [|i]; simpl in *.
  - injection E as ->. destruct H as [->|H]; [contradiction|exact H].
  - destruct H as [->|H]; [now left|right; eauto].
Qed.

(** Closes the two halves of [clearsPending] after a handler appended its
    timeout. *)
Ltac pending :=
  repeat split; intros; rewrite ?in_app_iff; simpl; auto;
  try match goal with
      | H : transientMessage _ = true |- _ => discriminate H
      | H : ?s <> ?s |- _ => destruct (H eq_refl)
      end.

Lemma onPose_clearsPending a pr : clearsPending a -> clearsPending (onPose a pr).
Proof.
  destruct pr as [pose env]. unfold clearsPending, onPose, fireAlert, setTimeout.
  intros [H1 H2]. handler_cases; pending.
Qed.

Lemma fold_onPose_clearsPending poses :
  forall a, clearsPending a -> clearsPending (fold_left onPose poses a).
Proof.
  induction poses as [|pr poses IH]; simpl; auto using onPose_clearsPending.
Qed.

Lemma onPoses_clearsPending poses a :
  clearsPending a -> clearsPending (onPoses poses a).
Proof.
  intros H. unfold onPoses. destruct (0 <? length poses)%nat.
  - apply fold_onPose_clearsPending. exact H.
  - exact H.
Qed.

Lemma clearsPending_ext a b :
  alertMessage b = alertMessage a -> spiritWord b = spiritWord a ->
  timers b = timers a -> clearsPending a -> clearsPending b.
Proof. unfold clearsPending. now intros -> -> ->. Qed.

Lemma step_clearsPending a ev : clearsPending a -> clearsPending (step a ev).
Proof.
  intros H.
  destruct ev as [env| |posted|id ready|poses| |r1 r2 r3|i]; unfold step.
  - destruct H as [H1 H2]. unfold clearsPending. unfold_handlers.
    destruct a; cbn in *. handler_cases; pending.
  - eapply clearsPending_ext; [| | |exact H];
      unfold_handlers; destruct a; cbn; handler_cases; auto.
  - destruct H as [H1 H2]. unfold clearsPending. unfold_handlers.
    destruct a; cbn in *. handler_cases; pending.
  - eapply clearsPending_ext; [| | |exact H];
      unfold_handlers; destruct a; cbn; handler_cases; auto.
  - destruct (0 <? inflight a)%nat; [|exact H]. unfold detectPoses_resolved.
    apply clearsPending_ext
      with (onPoses poses (set_inflight Nat.pred a)); auto.
    apply onPoses_clearsPending. exact H.
  - eapply clearsPending_ext; [| | |exact H];
      unfold_handlers; destruct a; cbn; handler_cases; auto.
  - destruct H as [H1 H2]. unfold clearsPending. unfold_handlers.
    destruct a; cbn in *. handler_cases; pending.
  - destruct (nth_error (timers a) i) as [t|] eqn:E; [|exact H].
    destruct H as [H1 H2]. unfold clearsPending.
    destruct t; simpl; split; intros G; try discriminate G;
      try (now destruct G).
    + apply In_remove_nth with ClearAlertMessage; auto. discriminate.
    + apply In_remove_nth with ClearSpiritWord; auto. discriminate.
Qed.

Lemma run_clearsPending evs :
  forall a, clearsPending a -> clearsPending (run a evs).
Proof.
  unfold run. induction evs as [|ev evs IH]; simpl; auto using step_clearsPending.
Qed.

(** X9: in every state the component can reach, while the message
    "ENTITY DETECTED" or "DETECTION LOGGED" is shown a timeout that clears
    the message is pending, and while a spirit word is shown a timeout that
    clears the word is pending. *)
Theorem shown_text_has_its_clearing_pending d evs :
  let a := run (mount d) evs in
  (alertMessage a = "ENTITY DETECTED"%string \/
   alertMessage a = "DETECTION LOGGED"%string ->
   exists i, nth_error (timers a) i = Some ClearAlertMessage /\
             alertMessage (step a (Timeout i)) = ""%string) /\
  (spiritWord a <> ""%string ->
   exists i, nth_error (timers a) i = Some ClearSpiritWord /\
             spiritWord (step a (Timeout i)) = ""%string).
Proof.
  intros a.
  assert (H : clearsPending a).
  { apply run_clearsPending. split; intros G; [discriminate G|now destruct G]. }
  destruct H as [H1 H2]. split; intros G.
  - assert (T : transientMessage (alertMessage a) = true)
      by (destruct G as [-> | ->]; reflexivity).
    destruct (In_nth_error _ _ (H1 T)) as [i Hi].
    exists i. split; [exact Hi|]. unfold step. rewrite Hi. reflexivity.
  - destruct (In_nth_error _ _ (H2 G)) as [i Hi].
    exists i. split; [exact Hi|]. unfold step. rewrite Hi. reflexivity.
Qed.

Lemma shown_text_has_its_clearing_pending_witness :
  let a := run (mount true)
             [ClickSpirit; Tick 0.5 0.01 0; ClickToggle startOk;
              Estimated [(poseOf 6 0.9, at_ 5000)]] in
  alertMessage a = "ENTITY DETECTED"%string /\ spiritWord a = "hello"%string /\
  (exists i, nth_error (timers a) i = Some ClearAlertMessage /\
             alertMessage (step a (Timeout i)) = ""%string) /\
  (exists i, nth_error (timers a) i = Some ClearSpiritWord /\
             spiritWord (step a (Timeout i)) = ""%string).
Proof.
  intros a.
  pose proof (shown_text_has_its_clearing_pending true
                [ClickSpirit; Tick 0.5 0.01 0; ClickToggle startOk;
                 Estimated [(poseOf 6 0.9, at_ 5000)]]) as [H1 H2].
  split; [reflexivity|]. split; [reflexivity|]. split.
  - apply H1. left. reflexivity.
  - apply H2. discriminate.
Defined.

(** ** Sessions *)

(** Only the START / STOP button changes [isRunning] and [sessionId]. *)
Lemma step_session a ev :
  isToggle ev = false ->
  isRunning (step a ev) = isRunning a /\ sessionId (step a ev) = sessionId a.
Proof.
  intros T.
  destruct ev as [env| |posted|id ready|poses| |r1 r2 r3|i];
    try discriminate; unfold step;
    try (unfold_handlers; destruct a; cbn; handler_cases; auto; fail).
  destruct (0 <? inflight a)%nat; [|auto]. unfold detectPoses_resolved.
  destruct (onPoses_scheduler poses (set_inflight Nat.pred a))
    as (_ & _ & _ & _ & _ & R & S).
  simpl. rewrite R, S. auto.
Qed.

Lemma run_session evs :
  forall a, existsb isToggle evs = false ->
  isRunning (run a evs) = isRunning a /\ sessionId (run a evs) = sessionId a.
Proof.
  induction evs as [|ev evs IH]; intros a T; [simpl; auto|].
  apply existsb_cons_false in T. destruct T as [T1 T2].
  change (run a (ev :: evs)) with (run (step a ev) evs).
  destruct (IH (step a ev) T2) as [-> ->]. now apply step_session.
Qed.

Lemma start_session env a :
  isRunning a = false -> cameraOk env = true ->
  isRunning (toggleSession env a) = true /\
  sessionId (toggleSession env a) =
  match newSession env with Some id => Some id | None => sessionId a end.
Proof.
  intros R C. unfold toggleSession. rewrite R, C.
  unfold_handlers. destruct a; cbn. handler_cases; auto.
Qed.

(** X10: when the request that creates a session fails, the session
    runs under the id left by the previous one: stopping it writes its
    summary to that id, or writes nothing if there is none. *)
Theorem failed_creation_reports_to_previous_session a env evs env' :
  isRunning a = false -> cameraOk env = true -> newSession env = None ->
  existsb isToggle evs = false ->
  let b := run a (ClickToggle env :: evs) in
  isRunning b = true /\
  effects (toggleSession env' b) =
  effects b ++ match sessionId a with
               | Some id => [PutSession id (detectionCount b) (emfLevel b)]
               | None => []
               end.
Proof.
  intros R C N T b.
  destruct (start_session env a R C) as [R1 S1]. rewrite N in S1.
  destruct (run_session evs (toggleSession env a) T) as [R2 S2].
  rewrite R1 in R2. rewrite S1 in S2.
  change (run (toggleSession env a) evs) with b in R2, S2.
  split; [exact R2|].
  destruct (sessionId a) as [id|] eqn:S.
  - apply stop_summary; assumption.
  - rewrite (toggleSession_running env' b R2). unfold closeSession.
    rewrite S2. unfold_handlers. destruct b; cbn in *. subst.
    handler_cases; now rewrite app_nil_r.
Qed.

Lemma failed_creation_reports_to_previous_session_witness :
  let a := run (mount true) [ClickToggle startOk; ClickToggle startOk] in
  let b := run a [ClickToggle (mkStartEnv true true true None);
                  Estimated []; Estimated [(poseOf 6 0.9, at_ 5000)]] in
  sessionId a = Some "s1"%string /\
  effects (toggleSession startOk b) =
  effects b ++ match sessionId a with
               | Some id => [PutSession id (detectionCount b) (emfLevel b)]
               | None => []
               end.
Proof.
  intros a b. split; [reflexivity|].
  apply (failed_creation_reports_to_previous_session a
           (mkStartEnv true true true None)
           [Estimated []; Estimated [(poseOf 6 0.9, at_ 5000)]] startOk);
    reflexivity.
Defined.

Lemma step_neverStarted a ev :
  cameraDenied ev = true -> neverStarted a ->
  neverStarted (step a ev) /\
  alertMessage (step a ev) =
  if isToggle ev then "Camera access denied"%string else alertMessage a.
Proof.
  intros C (R & L & E & T). unfold neverStarted, loops in *.
  assert (Q : rafQueue a = []) by (destruct (rafQueue a); [auto|simpl in L; lia]).
  assert (F : inflight a = 0%nat) by lia.
  destruct ev as [env| |posted|id ready|poses| |r1 r2 r3|i]; unfold step.
  - simpl in C. apply negb_true_iff in C. unfold toggleSession.
    rewrite R, C. unfold_handlers. destruct a; cbn in *.
    handler_cases; auto.
  - unfold_handlers. destruct a; cbn in *. handler_cases; auto.
  - rewrite R. auto.
  - rewrite Q. simpl. auto.
  - rewrite F. simpl. auto.
  - rewrite F. simpl. auto.
  - unfold_handlers. destruct a; cbn in *. handler_cases; repeat split; auto.
    rewrite in_app_iff. simpl. intros [G|[G|[]]]; [auto|discriminate].
  - destruct (nth_error (timers a) i) as [t|] eqn:N; [|auto].
    assert (t = ClearSpiritWord) as ->.
    { destruct t; [|reflexivity]. exfalso. apply T.
      eapply nth_error_In; eauto. }
    simpl. repeat split; auto.
    intros G. apply T. clear - G. revert i G.
    induction (timers a) as [|v l IH]; intros i G; [destruct i; destruct G|].
    destruct i; simpl in G; [now right|].
    destruct G as [G|G]; [now left|right; eauto].
Qed.

(** X11: as long as every start finds the camera refused, the component
    never runs, keeps no detection loop, presents no alert and sends nothing
    to the backend; from the first such start on it shows
    "Camera access denied", which nothing clears. *)
Theorem camera_denied_never_starts d evs :
  forallb cameraDenied evs = true ->
  let a := run (mount d) evs in
  isRunning a = false /\ loops a = 0%nat /\ effects a = [] /\
  alertMessage a =
  if existsb isToggle evs then "Camera access denied"%string else ""%string.
Proof.
  intros C a.
  assert (G : forall b, neverStarted b ->
              neverStarted (run b evs) /\
              alertMessage (run b evs) =
              if existsb isToggle evs then "Camera access denied"%string
              else alertMessage b).
  { clear a. induction evs as [|ev evs IH]; intros b N; [simpl; auto|].
    simpl in C. apply andb_prop in C. destruct C as [C1 C2].
    destruct (step_neverStarted b ev C1 N) as [N1 M1].
    destruct (IH C2 (step b ev) N1) as [N2 M2].
    change (run b (ev :: evs)) with (run (step b ev) evs).
    split; [exact N2|]. rewrite M2, M1. simpl.
    destruct (isToggle ev); simpl; [|reflexivity].
    destruct (existsb isToggle evs); reflexivity. }
  destruct (G (mount d)) as [(R & L & E & _) M].
  { unfold neverStarted, loops. simpl. repeat split; auto. }
  repeat split; auto.
Qed.

Lemma camera_denied_never_starts_witness :
  let a := run (mount true)
             [ClickSpirit; Tick 0.5 0.01 0;
              ClickToggle (mkStartEnv true false false None);
              ClickLog true; Timeout 0; Estimated []] in
  isRunning a = false /\ loops a = 0%nat /\ effects a = [] /\
  alertMessage a = "Camera access denied"%string.
Proof.
  intros a.
  apply (camera_denied_never_starts true
           [ClickSpirit; Tick 0.5 0.01 0;
            ClickToggle (mkStartEnv true false false None);
            ClickLog true; Timeout 0; Estimated []]).
  reflexivity.
Defined.

(** ** The stick figure *)

Lemma assign_fromValid kps kp m :
  In kp kps -> (0.3 <? score kp) = true ->
  fromValid kps m -> fromValid kps (assign (name kp) kp m).
Proof.
  intros I V. unfold fromValid.
  induction m as [|[k v] m IH]; simpl; intros H.
  - destruct (String.eqb _ _); repeat constructor; auto.
  - inversion H as [|? ? H1 H2]; subst.
    destruct (String.eqb_spec k (name kp)) as [->|N].
    + constructor; auto.
    + constructor; auto.
Qed.

Lemma keypointMap_fromValid kps : fromValid kps (keypointMap kps).
Proof.
  unfold keypointMap.
  assert (G : forall l m, (forall kp, In kp l -> In kp kps) ->
                fromValid kps m ->
                fromValid kps
                  (fold_left (fun m kp => if 0.3 <? score kp
                                          then assign (name kp) kp m else m)
                             l m)).
  { induction l as [|kp l IH]; intros m S H; simpl; auto.
    apply IH; [intros; apply S; now right|].
    destruct (0.3 <? score kp) eqn:V; auto.
    apply assign_fromValid; auto. apply S. now left. }
  apply G; [auto|constructor].
Qed.

Lemma lookup_In k m v : lookup k m = Some v -> In (k, v) m.
Proof.
  induction m as [|[k' v'] m IH]; simpl; [discriminate|].
  destruct (String.eqb_spec k' k) as [->|N].
  - intros [= ->]. now left.
  - intros H. right. auto.
Qed.

Lemma lookup_fromValid kps k m v :
  fromValid kps m -> lookup k m = Some v ->
  name v = k /\ In v kps /\ (0.3 <? score v) = true.
Proof.
  intros F L. apply lookup_In in L. unfold fromValid in F.
  rewrite Forall_forall in F. apply (F _ L).
Qed.

Lemma drawConnections_segments m :
  forallb isSegment (drawConnections m) = true /\
  (length (drawConnections m) <= 18)%nat.
Proof.
  unfold drawConnections.
  assert (G : forall cs,
            forallb isSegment
              (flat_map (fun c =>
                 match lookup (fst c) m, lookup (snd c) m with
                 | Some s, Some e => [Segment (x s) (y s) (x e) (y e)]
                 | _, _ => []
                 end) cs) = true /\
            (length
              (flat_map (fun c =>
                 match lookup (fst c) m, lookup (snd c) m with
                 | Some s, Some e => [Segment (x s) (y s) (x e) (y e)]
                 | _, _ => []
                 end) cs) <= length cs)%nat).
  { induction cs as [|c cs [IH1 IH2]]; simpl; [auto|].
    destruct (lookup (fst c) m), (lookup (snd c) m); simpl; split; auto; lia. }
  apply (G connections).
Qed.

Lemma In_drawConnections m sh :
  In sh (drawConnections m) ->
  exists c s e, In c connections /\ lookup (fst c) m = Some s /\
                lookup (snd c) m = Some e /\
                sh = Segment (x s) (y s) (x e) (y e).
Proof.
  unfold drawConnections. rewrite in_flat_map. intros (c & Hc & H).
  destruct (lookup (fst c) m) as [s|] eqn:Ls; [|destruct H].
  destruct (lookup (snd c) m) as [e|] eqn:Le; [|destruct H].
  destruct H as [<-|[]]. exists c, s, e. auto.
Qed.

Lemma In_insertIndexed i v l p :
  In p (insertIndexed i v l) -> p = (i, v) \/ In p l.
Proof.
  induction l as [|[j w] l IH]; simpl.
  - intros [<-|[]]. now left.
  - destruct (i <? j)%N; simpl.
    + intros [<-|H]; auto.
    + intros [<-|H]; auto. destruct (IH H); auto.
Qed.

Lemma In_Object_values m v :
  In v (Object_values m) -> exists k, In (k, v) m.
Proof.
  unfold Object_values. rewrite in_app_iff, !in_map_iff.
  intros [((i & w) & <- & H)|((k & w) & <- & H)].
  - simpl. induction m as [|[k u] m IH]; simpl in H; [destruct H|].
    destruct (arrayIndex k).
    + apply In_insertIndexed in H. destruct H as [[= -> ->]|H].
      * exists k. now left.
      * destruct (IH H) as [k' Hk']. exists k'. now right.
    + destruct (IH H) as [k' Hk']. exists k'. now right.
  - apply filter_In in H. exists k. tauto.
Qed.

Lemma In_drawStickFigure_segment kps x1 y1 x2 y2 :
  In (Segment x1 y1 x2 y2) (drawStickFigure kps) ->
  exists s e,
    In s kps /\ In e kps /\
    (0.3 <? score s) = true /\ (0.3 <? score e) = true /\
    In (name s, name e) connections /\
    x1 = x s /\ y1 = y s /\ x2 = x e /\ y2 = y e.
Proof.
  unfold drawStickFigure. rewrite in_app_iff. intros [H|H].
  - apply In_drawConnections in H.
    destruct H as ([c1 c2] & s & e & Hc & Ls & Le & E).
    pose proof (keypointMap_fromValid kps) as F.
    destruct (lookup_fromValid _ _ _ _ F Ls) as (Ns & Is & Vs).
    destruct (lookup_fromValid _ _ _ _ F Le) as (Ne & Ie & Ve).
    simpl in Ns, Ne. subst c1 c2. injection E as -> -> -> ->.
    exists s, e. repeat split; auto.
  - unfold drawKeypoints in H. apply in_map_iff in H.
    destruct H as (kp & E & _). discriminate E.
Qed.

Lemma In_drawStickFigure_disc kps cx cy :
  In (Disc cx cy) (drawStickFigure kps) ->
  exists kp, In kp kps /\ (0.3 <? score kp) = true /\ cx = x kp /\ cy = y kp.
Proof.
  unfold drawStickFigure. rewrite in_app_iff. intros [H|H].
  - apply In_drawConnections in H.
    destruct H as (c & s & e & _ & _ & _ & E). discriminate E.
  - unfold drawKeypoints in H. apply in_map_iff in H.
    destruct H as (kp & [= <- <-] & H).
    apply In_Object_values in H. destruct H as [k H].
    pose proof (keypointMap_fromValid kps) as F.
    unfold fromValid in F. rewrite Forall_forall in F.
    destruct (F _ H) as (_ & I & V). exists kp. auto.
Qed.

(** X12: every shape drawn over a frame belongs to a pose that passes
    the detection test; a segment joins two keypoints of that pose that
    score above 0.3 and whose names are a pair of [connections], and a disc
    sits on a keypoint of that pose that scores above 0.3. *)
Theorem figure_joins_detected_keypoints poses sh :
  In sh (drawPoses poses) ->
  exists pose, In pose poses /\ qualifying pose = true /\
  match sh with
  | Segment x1 y1 x2 y2 =>
      exists s e,
        In s (validKeypoints pose) /\ In e (validKeypoints pose) /\
        In (name s, name e) connections /\
        x1 = x s /\ y1 = y s /\ x2 = x e /\ y2 = y e
  | Disc cx cy =>
      exists kp, In kp (validKeypoints pose) /\ cx = x kp /\ cy = y kp
  end.
Proof.
  unfold drawPoses. rewrite in_flat_map. intros (pose & Hp & H).
  exists pose. split; [exact Hp|].
  destruct (qualifying pose); [|destruct H]. split; [reflexivity|].
  unfold validKeypoints. destruct sh as [x1 y1 x2 y2|cx cy].
  - apply In_drawStickFigure_segment in H.
    destruct H as (s & e & Is & Ie & Vs & Ve & C & E).
    exists s, e. rewrite !filter_In. auto.
  - apply In_drawStickFigure_disc in H.
    destruct H as (kp & I & V & E). exists kp. rewrite filter_In. auto.
Qed.

Lemma figure_joins_detected_keypoints_witness :
  let pose := moveNetPose (repeat 0.9 6 ++ repeat 0.1 11) in
  exists pose', In pose' [pose] /\ qualifying pose' = true /\
    exists s e,
      In s (validKeypoints pose') /\ In e (validKeypoints pose') /\
      In (name s, name e) connections /\
      0 = x s /\ 0 = y s /\ 1 = x e /\ 2 = y e.
Proof.
  intros pose.
  apply (figure_joins_detected_keypoints [pose] (Segment 0 0 1 2)).
  vm_compute. left. reflexivity.
Defined.

Lemma assign_fresh k v m :
  ~ In k (map fst m) -> String.eqb k "__proto__" = false ->
  assign k v m = m ++ [(k, v)].
Proof.
  intros N P. induction m as [|[k' v'] m IH]; simpl.
  - now rewrite P.
  - destruct (String.eqb_spec k' k) as [->|Ne].
    + exfalso. apply N. now left.
    + f_equal. apply IH. intros G. apply N. now right.
Qed.

Lemma plainName_proto k : plainName k = true -> String.eqb k "__proto__" = false.
Proof.
  unfold plainName. destruct (arrayIndex k); [discriminate|].
  apply negb_true_iff.
Qed.

Lemma plainName_index k : plainName k = true -> arrayIndex k = None.
Proof. unfold plainName. destruct (arrayIndex k); [discriminate|auto]. Qed.

Lemma fold_assign_distinct l :
  forall m,
    NoDup (map fst m ++ map name (filter (fun kp => 0.3 <? score kp) l)) ->
    forallb plainName (map name (filter (fun kp => 0.3 <? score kp) l)) = true ->
    fold_left (fun m kp => if 0.3 <? score kp then assign (name kp) kp m else m)
              l m =
    m ++ map (fun kp => (name kp, kp)) (filter (fun kp => 0.3 <? score kp) l).
Proof.
  induction l as [|kp l IH]; intros m ND PL; simpl.
  - now rewrite app_nil_r.
  - simpl in ND, PL. destruct (0.3 <? score kp) eqn:V.
    + simpl in ND, PL. apply andb_prop in PL. destruct PL as [P1 P2].
      rewrite assign_fresh.
      * rewrite IH; [now rewrite <- app_assoc|
                     now rewrite map_app, <- app_assoc|exact P2].
      * apply NoDup_remove_2 in ND. intros G. apply ND.
        apply in_or_app. now left.
      * now apply plainName_proto.
    + apply IH; assumption.
Qed.

Lemma Object_values_plain m :
  forallb plainName (map fst m) = true -> Object_values m = map snd m.
Proof.
  unfold Object_values. induction m as [|[k v] m IH]; simpl; [auto|].
  intros H. apply andb_prop in H. destruct H as [H1 H2].
  rewrite (plainName_index k H1). simpl.
  specialize (IH H2). simpl in IH.
  destruct (fold_right _ _ m) as [|p l] eqn:F.
  - simpl in *. now rewrite IH.
  - exfalso. clear - F H2.
    induction m as [|[k v] m IH]; simpl in *; [discriminate|].
    apply andb_prop in H2. destruct H2 as [H1 H2].
    rewrite (plainName_index k H1) in F. auto.
Qed.

(** X13: for a pose whose keypoints above 0.3 have distinct names, none
    of them an array index or [__proto__], the figure is at most 18
    segments followed by one disc per keypoint above 0.3, in the order of
    the pose. *)
Theorem figure_of_distinct_names pose :
  NoDup (map name (validKeypoints pose)) ->
  forallb plainName (map name (validKeypoints pose)) = true ->
  exists segments,
    drawStickFigure (keypoints pose) =
    segments ++ map (fun kp => Disc (x kp) (y kp)) (validKeypoints pose) /\
    forallb isSegment segments = true /\ (length segments <= 18)%nat.
Proof.
  intros ND PL. unfold drawStickFigure.
  exists (drawConnections (keypointMap (keypoints pose))).
  split; [|apply drawConnections_segments].
  f_equal. unfold drawKeypoints. f_equal.
  unfold keypointMap, validKeypoints in *.
  rewrite fold_assign_distinct; auto. simpl.
  rewrite Object_values_plain.
  - rewrite map_map. simpl. apply map_id.
  - rewrite map_map. simpl. exact PL.
Qed.

Lemma figure_of_distinct_names_witness :
  let pose := moveNetPose (repeat 0.9 6 ++ repeat 0.1 11) in
  length (validKeypoints pose) = 6%nat /\
  exists segments,
    drawStickFigure (keypoints pose) =
    segments ++ map (fun kp => Disc (x kp) (y kp)) (validKeypoints pose) /\
    forallb isSegment segments = true /\ (length segments <= 18)%nat.
Proof.
  intros pose. split; [reflexivity|].
  apply (figure_of_distinct_names pose).
  - vm_compute. repeat constructor; simpl; intuition discriminate.
  - vm_compute. reflexivity.
Defined.

(** ** The detection history *)

Lemma firstn_app_firstn {A} n (l1 l2 : list A) :
  firstn n (l1 ++ firstn n l2) = firstn n (l1 ++ l2).
Proof.
  rewrite !firstn_app, firstn_firstn. do 2 f_equal. lia.
Qed.

Lemma fold_firstn_cons {A} n (logged : list A) :
  forall prev, logged <> [] ->
  fold_left (fun h data => firstn n (data :: h)) logged prev =
  firstn n (rev logged ++ prev).
Proof.
  induction logged as [|d l IH]; intros h N; [congruence|].
  simpl fold_left. destruct l as [|d' l'].
  - reflexivity.
  - rewrite IH by discriminate.
    change (rev (d :: d' :: l')) with (rev (d' :: l') ++ [d]).
    rewrite <- app_assoc. change ([d] ++ h) with (d :: h).
    apply firstn_app_firstn.
Qed.

(** X14: after one or more detections are logged, the history holds the
    records newest first, followed by what it held before, cut to 50
    entries. *)
Theorem history_keeps_latest_50 {A} (logged prev : list A) :
  logged <> [] ->
  pushAll logged prev = firstn 50 (rev logged ++ prev) /\
  (length (pushAll logged prev) <= 50)%nat.
Proof.
  intros N. unfold pushAll, pushDetection.
  rewrite (fold_firstn_cons 50 logged prev N).
  split; [reflexivity|apply firstn_le_length].
Qed.

Lemma history_keeps_latest_50_witness :
  pushAll [1; 2; 3]%nat (repeat 0%nat 49) = [3; 2; 1]%nat ++ repeat 0%nat 47 /\
  (length (pushAll [1; 2; 3]%nat (repeat 0%nat 49)) <= 50)%nat.
Proof.
  destruct (history_keeps_latest_50 [1; 2; 3]%nat (repeat 0%nat 49))
    as [H1 H2]; [discriminate|].
  split; [rewrite H1; reflexivity|exact H2].
Defined.

(** ** Unmounting *)

Local Open Scope nat_scope.


Lemma run_loops evs :
  forall a, sched a -> existsb isToggle evs = false ->
            sched (run a evs) /\ loops (run a evs) = loops a.
Proof.
  induction evs as [|ev evs IH]; intros a H T; [simpl; auto|].
  apply existsb_cons_false in T. destruct T as [T1 T2].
  change (run a (ev :: evs)) with (run (step a ev) evs).
  destruct (IH (step a ev) (step_sched a ev H) T2) as [H' L].
  split; [exact H'|]. rewrite L. now apply step_loops.
Qed.








Local Close Scope nat_scope.

(** ** Bounds on what binary64 rounding returns *)

From Stdlib Require Import Zpower.

Module Rounding.

Local Open Scope Z_scope.

Lemma shr_fexp_max m e l :
  0 <= m ->
  shr_m (fst (shr_fexp prec emax m e l)) = m / 2 ^ (roundExp m e - e) /\
  snd (shr_fexp prec emax m e l) = roundExp m e.
Proof.
  intros H. destruct (shr_fexp_spec m e l H) as [S1 S2]. cbv zeta in S1, S2.
  rewrite S1, S2. unfold roundExp.
  set (F := fexp prec emax (Zdigits2 m + e)).
  destruct (0 <? F - e) eqn:C.
  - apply Z.ltb_lt in C. rewrite Z.max_r by lia. split; [reflexivity|lia].
  - apply Z.ltb_ge in C. rewrite Z.max_l by lia.
    rewrite Z.sub_diag. simpl. rewrite Z.div_1_r. auto.
Qed.

(** What [binary_round_aux] returns for a nonnegative mantissa: a zero, or
    a value that exceeds the mantissa shifted to the rounding exponent by
    less than one unit, or an overflow of such a value. *)
Lemma binary_round_aux_upper sx P ex lx :
  0 <= P ->
  let e1 := roundExp P ex in
  let m1 := P / 2 ^ (e1 - ex) in
  match binary_round_aux prec emax sx P ex lx with
  | S754_zero s => s = sx
  | S754_finite s m e => s = sx /\ e1 <= e /\ Z.pos m * 2 ^ (e - e1) <= m1 + 1
  | S754_infinity s =>
      s = sx /\ exists e, emax - prec < e /\ e1 <= e /\ 2 ^ (e - e1) <= m1 + 1
  | S754_nan => False
  end.
Proof.
  intros HP e1 m1. unfold binary_round_aux.
  destruct (shr_fexp_max P ex lx HP) as [S1m S1e].
  destruct (shr_fexp prec emax P ex lx) as [mrs' e'].
  simpl in S1m, S1e. fold e1 in S1m, S1e. fold m1 in S1m. subst e'.
  assert (P1 : 0 <= m1).
  { subst m1. apply Z.div_pos; [exact HP|]. apply Z.pow_pos_nonneg; [lia|].
    unfold e1, roundExp. lia. }
  set (m2 := round_nearest_even (shr_m mrs') (loc_of_shr_record mrs')).
  assert (R : m2 = m1 \/ m2 = m1 + 1).
  { subst m2. rewrite <- S1m. apply round_nearest_even_cases. }
  assert (P2 : 0 <= m2) by lia.
  destruct (shr_fexp_max m2 e1 loc_Exact P2) as [S2m S2e].
  destruct (shr_fexp prec emax m2 e1 loc_Exact) as [mrs'' e''].
  simpl in S2m, S2e.
  assert (L : e1 <= e'') by (rewrite S2e; unfold roundExp; lia).
  assert (K : 0 < 2 ^ (e'' - e1)) by (apply Z.pow_pos_nonneg; lia).
  assert (B : shr_m mrs'' * 2 ^ (e'' - e1) <= m1 + 1).
  { rewrite S2m, <- S2e.
    pose proof (Z.mul_div_le m2 (2 ^ (e'' - e1)) K). lia. }
  destruct (shr_m mrs'') as [|q|q] eqn:Q.
  - reflexivity.
  - destruct (e'' <=? emax - prec) eqn:C.
    + auto.
    + apply Z.leb_gt in C. split; [reflexivity|].
      exists e''. repeat split; auto.
      assert (1 * 2 ^ (e'' - e1) <= Z.pos q * 2 ^ (e'' - e1))
        by (apply Z.mul_le_mono_nonneg_r; lia).
      lia.
  - exfalso.
    assert (0 <= m2 / 2 ^ (roundExp m2 e1 - e1)).
    { apply Z.div_pos; [exact P2|]. apply Z.pow_pos_nonneg; [lia|].
      unfold roundExp. lia. }
    lia.
Qed.

End Rounding.

Import Rounding.

Module Validity.
Local Open Scope Z_scope.

(** A finite value of binary64 is canonical: its exponent is the one its
    digits call for. *)
Lemma finite_canonical x s m e :
  Prim2SF x = S754_finite s m e ->
  fexp prec emax (Z.pos (digits2_pos m) + e) = e /\ e <= emax - prec.
Proof.
  intros E. pose proof (Prim2SF_valid x) as V. rewrite E in V.
  unfold valid_binary, bounded, canonical_mantissa in V.
  apply andb_prop in V. destruct V as [V1 V2].
  apply Z.eqb_eq in V1. apply Z.leb_le in V2. auto.
Qed.

Lemma finite_mantissa x s m e :
  Prim2SF x = S754_finite s m e ->
  Z.pos m < 2 ^ 53 /\ -1074 <= e /\ (-1074 < e -> 2 ^ 52 <= Z.pos m).
Proof.
  intros E. destruct (finite_canonical x s m e E) as [C _].
  pose proof (digits2_bounds m) as [L U].
  set (d := Z.pos (digits2_pos m)) in *.
  unfold fexp, SpecFloat.emin, prec, emax in C.
  assert (D : d <= 53) by lia.
  repeat split.
  - apply Z.lt_le_trans with (2 ^ d); [exact U|].
    apply Z.pow_le_mono_r; lia.
  - lia.
  - intros G. assert (d = 53) by lia. subst d.
    replace 52 with (Z.pos (digits2_pos m) - 1) by lia. exact L.
Qed.

(** The order of two mantissas at the same exponent. *)
Lemma compare_cont_Lt m q :
  Pos.compare_cont Eq m q = Lt -> Z.pos m < Z.pos q.
Proof.
  rewrite Pos.compare_cont_spec. unfold Pos.switch_Eq.
  destruct (Pos.compare_spec m q) as [E|L|G]; try discriminate.
  intros _. now apply Pos2Z.pos_lt_pos.
Qed.

Lemma compare_cont_not_Lt m q :
  Pos.compare_cont Eq m q <> Lt -> Z.pos q <= Z.pos m.
Proof.
  rewrite Pos.compare_cont_spec. unfold Pos.switch_Eq.
  destruct (Pos.compare_spec m q) as [E|L|G]; try congruence; intros _.
  - subst. lia.
  - apply Pos2Z.pos_lt_pos in G. lia.
Qed.

Local Open Scope float_scope.

(** The values [Math.random()] can return: a zero, or a positive value
    with a mantissa below [2^53] at an exponent of at most [-53]. *)
Lemma fromRandom_cases r :
  fromRandom r = true ->
  (exists s, Prim2SF r = S754_zero s) \/
  (exists m e, Prim2SF r = S754_finite false m e /\
               (e <= -53)%Z /\ (-1074 <= e)%Z /\ (Z.pos m < 2 ^ 53)%Z).
Proof.
  unfold fromRandom. intros H. apply andb_prop in H. destruct H as [H0 H1].
  rewrite FloatAxioms.leb_spec in H0. rewrite FloatAxioms.ltb_spec in H1.
  change (Prim2SF 0) with (S754_zero false) in H0.
  change (Prim2SF 1) with (S754_finite false 4503599627370496 (-52)) in H1.
  destruct (Prim2SF r) as [s|s| |s m e] eqn:E.
  - left. eauto.
  - destruct s; discriminate.
  - discriminate.
  - right. destruct s; [discriminate|].
    destruct (finite_mantissa r false m e E) as (M & L & N).
    exists m, e. split; [reflexivity|].
    unfold SFltb, SFcompare in H1.
    destruct (Z.compare_spec e (-52)) as [C|C|C]; try discriminate.
    + exfalso. subst e.
      assert (G : (2 ^ 52 <= Z.pos m)%Z) by (apply N; reflexivity).
      assert (G' : (Z.pos m < Z.pos 4503599627370496)%Z).
      { apply compare_cont_Lt.
        destruct (Pos.compare_cont Eq m 4503599627370496);
          [discriminate H1|reflexivity|discriminate H1]. }
      change (2 ^ 52)%Z with (Z.pos 4503599627370496) in G.
      apply (Z.lt_irrefl (Z.pos m)).
      apply Z.lt_le_trans with (Z.pos 4503599627370496); assumption.
    + repeat split; auto. clear - C. lia.
Qed.

Local Open Scope Z_scope.

(** The product of a value of [Math.random()] other than the largest one
    with 29, as binary64 rounds it, is below 29. *)
Lemma random_times_29 m e :
  e <= -53 -> -1074 <= e -> Z.pos m < 2 ^ 53 -> Z.pos m + 2 <= 2 ^ (- e) ->
  match binary_round_aux prec emax false
          (Z.pos (m * 8162774324609024)) (e + -48) loc_Exact with
  | S754_zero _ => True
  | S754_finite s m3 e3 =>
      s = false /\
      0 <= (if 0 <=? e3 then Z.pos m3 * 2 ^ e3 else Z.pos m3 / 2 ^ (- e3)) < 29
  | _ => False
  end.
Proof.
  intros E53 Emin M53 Hm.
  set (P := Z.pos (m * 8162774324609024)). set (ex := e + -48).
  assert (EP : P = Z.pos m * 8162774324609024)
    by (subst P; apply Pos2Z.inj_mul).
  assert (P0 : 0 < P) by (subst P; lia).
  pose proof (binary_round_aux_upper false P ex loc_Exact (Z.lt_le_incl _ _ P0))
    as U.
  cbv zeta in U. set (e1 := roundExp P ex) in *.
  set (m1 := P / 2 ^ (e1 - ex)) in *.
  change (2 ^ 53) with 9007199254740992 in M53.
  (* the digits of the product *)
  assert (D : Zdigits2 P <= 106).
  { unfold P. simpl Zdigits2. fold P.
    pose proof (digits2_bounds (m * 8162774324609024)) as [L _].
    fold P in L.
    assert (G : 2 ^ (Z.pos (digits2_pos (m * 8162774324609024)) - 1)
                < 2 ^ 106).
    { apply Z.le_lt_trans with P; [exact L|].
      change (2 ^ 106) with (9007199254740992 * 9007199254740992). rewrite EP.
      apply Z.mul_lt_mono_nonneg; lia. }
    apply Z.pow_lt_mono_r_iff in G; lia. }
  assert (K1 : 0 <= e1 - ex <= 53).
  { unfold e1, roundExp, fexp, SpecFloat.emin, prec, emax, ex. lia. }
  assert (E1 : e1 <= -48).
  { unfold e1, roundExp, fexp, SpecFloat.emin, prec, emax, ex. lia. }
  set (K := 2 ^ (e1 - ex)) in *.
  assert (K0 : 0 < K) by (apply Z.pow_pos_nonneg; lia).
  assert (K53 : K <= 9007199254740992).
  { change 9007199254740992 with (2 ^ 53). apply Z.pow_le_mono_r; lia. }
  set (B := 29 * 2 ^ (- e1)).
  assert (BK : B * K = 8162774324609024 * 2 ^ (- e)).
  { unfold B, K. rewrite <- Z.mul_assoc, <- Z.pow_add_r by lia.
    replace (- e1 + (e1 - ex)) with (48 + - e) by (unfold ex; lia).
    rewrite Z.pow_add_r by lia. change (2 ^ 48) with 281474976710656. lia. }
  assert (S : m1 + 1 < B).
  { assert (G : m1 < B - 1); [|lia].
    apply Z.div_lt_upper_bound; [exact K0|].
    assert (Z.pos m * 8162774324609024 <=
            (2 ^ (- e) - 2) * 8162774324609024)
      by (apply Z.mul_le_mono_nonneg_r; lia).
    nia. }
  assert (T0 : 0 < 2 ^ (- e1)) by (apply Z.pow_pos_nonneg; lia).
  destruct (binary_round_aux prec emax false P ex loc_Exact)
    as [s|s| |s m3 e3]; auto.
  - (* overflow *)
    destruct U as (_ & e4 & O & L & U).
    unfold emax, prec in O.
    assert (G : 2 ^ e4 * 2 ^ (- e1) < 29 * 2 ^ (- e1)).
    { rewrite <- Z.pow_add_r by lia.
      replace (e4 + - e1) with (e4 - e1) by lia. fold B. lia. }
    apply Z.mul_lt_mono_pos_r in G; [|exact T0].
    assert (2 ^ 5 <= 2 ^ e4) by (apply Z.pow_le_mono_r; lia).
    change (2 ^ 5) with 32 in *. lia.
  - destruct U as (-> & L & U). split; [reflexivity|].
    assert (T1 : 0 < 2 ^ (e3 - e1)) by (apply Z.pow_pos_nonneg; lia).
    destruct (0 <=? e3) eqn:C.
    + apply Z.leb_le in C.
      assert (0 < 2 ^ e3) by (apply Z.pow_pos_nonneg; lia).
      split; [lia|].
      apply (Z.mul_lt_mono_pos_r (2 ^ (- e1))); [exact T0|].
      rewrite <- Z.mul_assoc, <- Z.pow_add_r by lia.
      replace (e3 + - e1) with (e3 - e1) by lia. fold B. lia.
    + apply Z.leb_gt in C.
      assert (0 < 2 ^ (- e3)) by (apply Z.pow_pos_nonneg; lia).
      split; [apply Z.div_pos; lia|].
      apply Z.div_lt_upper_bound; [lia|].
      apply (Z.mul_lt_mono_pos_r (2 ^ (e3 - e1))); [exact T1|].
      rewrite (Z.mul_comm (2 ^ (- e3)) 29), <- Z.mul_assoc,
        <- Z.pow_add_r by lia.
      replace (- e3 + (e3 - e1)) with (- e1) by lia. fold B. lia.
Qed.

End Validity.

Import Validity.

Module Alignment.
Local Open Scope Z_scope.

(** [shl_align] keeps the value and lowers the exponent to the smaller of
    the two. *)
Lemma shl_align_spec mx ex ex' :
  snd (shl_align mx ex ex') = Z.min ex ex' /\
  Z.pos (fst (shl_align mx ex ex')) = Z.pos mx * 2 ^ (ex - Z.min ex ex').
Proof.
  unfold shl_align. destruct (ex' - ex) as [|d|d] eqn:C; cbn [fst snd].
  - rewrite Z.min_l by lia. rewrite Z.sub_diag, Z.pow_0_r. split; lia.
  - rewrite Z.min_l by lia. rewrite Z.sub_diag, Z.pow_0_r. split; lia.
  - rewrite Z.min_r by lia. split; [reflexivity|].
    change (PosDef.Pos.iter xO mx d) with (shift_pos d mx).
    rewrite shift_pos_correct, Z.pow_pos_fold.
    replace (ex - ex') with (Z.pos d) by lia. lia.
Qed.

Lemma pow2_split a b : 0 <= a -> 0 <= b -> 2 ^ (a + b) = 2 ^ a * 2 ^ b.
Proof. intros. apply Z.pow_add_r; lia. Qed.

Lemma pow2_pos a : 0 <= a -> 0 < 2 ^ a.
Proof. intros. apply Z.pow_pos_nonneg; lia. Qed.

(** The digits of a mantissa shifted left. *)
Lemma digits2_shift p q s :
  0 <= s -> Z.pos q = Z.pos p * 2 ^ s ->
  Z.pos (digits2_pos q) = Z.pos (digits2_pos p) + s.
Proof.
  intros Hs E. apply digits2_unique. rewrite E.
  pose proof (digits2_bounds p) as [L U].
  pose proof (pow2_pos s Hs) as K.
  assert (0 <= Z.pos (digits2_pos p) - 1) by lia.
  replace (Z.pos (digits2_pos p) + s - 1)
    with (Z.pos (digits2_pos p) - 1 + s) by lia.
  rewrite !pow2_split by lia. split.
  - apply Z.mul_le_mono_nonneg_r; lia.
  - apply Z.mul_lt_mono_pos_r; lia.
Qed.

(** What [binary_round] returns: the exponent it rounds at is the one the
    digits of the value call for, and the result exceeds the value cut at
    that exponent by at most one unit. *)
Lemma binary_round_upper sx p e :
  let F := fexp prec emax (Z.pos (digits2_pos p) + e) in
  let g := Z.min e F in
  let m1 := Z.pos p * 2 ^ (e - g) / 2 ^ (F - g) in
  match binary_round prec emax sx p e with
  | S754_zero s => s = sx
  | S754_finite s m3 e3 =>
      s = sx /\ F <= e3 /\ Z.pos m3 * 2 ^ (e3 - F) <= m1 + 1
  | S754_infinity s =>
      s = sx /\ exists e4, emax - prec < e4 /\ F <= e4 /\
                           2 ^ (e4 - F) <= m1 + 1
  | S754_nan => False
  end.
Proof.
  intros F g m1. unfold binary_round. fold F.
  destruct (shl_align_spec p e F) as [S2 S1].
  destruct (shl_align p e F) as [mz ez]. cbn [fst snd] in S1, S2.
  fold g in S1, S2.
  subst ez.
  assert (G : 0 <= e - g) by (unfold g; lia).
  assert (R : roundExp (Z.pos mz) g = F).
  { unfold roundExp. simpl Zdigits2.
    rewrite (digits2_shift p mz (e - g) G S1).
    replace (Z.pos (digits2_pos p) + (e - g) + g)
      with (Z.pos (digits2_pos p) + e) by lia.
    fold F. unfold g. lia. }
  pose proof (binary_round_aux_upper sx (Z.pos mz) g loc_Exact
                (Pos2Z.is_nonneg mz)) as U.
  cbv zeta in U. rewrite R in U. unfold m1. rewrite <- S1. exact U.
Qed.

(** A canonical positive value whose scaled mantissa does not exceed that
    of a normal one is not above it. *)
Lemma not_above_normal x m e mc ec g :
  Prim2SF x = S754_finite false m e ->
  2 ^ 52 <= Z.pos mc < 2 ^ 53 -> -1074 <= ec ->
  g <= e -> g <= ec ->
  Z.pos m * 2 ^ (e - g) <= Z.pos mc * 2 ^ (ec - g) ->
  SFltb (S754_finite false mc ec) (Prim2SF x) = false.
Proof.
  intros E [Lc Uc] Ec Ge Gc B. rewrite E. unfold SFltb, SFcompare.
  destruct (finite_mantissa x false m e E) as (M & L & N).
  destruct (Z.compare_spec ec e) as [C|C|C]; [| |reflexivity].
  - subst e.
    pose proof (pow2_pos (ec - g) ltac:(lia)) as K.
    assert (Z.pos m <= Z.pos mc)
      by (apply Z.mul_le_mono_pos_r with (2 ^ (ec - g)); assumption).
    destruct (Pos.compare_cont Eq mc m) eqn:Q; try reflexivity.
    apply compare_cont_Lt in Q. lia.
  - exfalso.
    assert (N' : 2 ^ 52 <= Z.pos m) by (apply N; lia).
    pose proof (pow2_pos (ec - g) ltac:(lia)) as K.
    replace (e - g) with ((e - ec - 1) + 1 + (ec - g)) in B by lia.
    rewrite !pow2_split in B by lia.
    pose proof (pow2_pos (e - ec - 1) ltac:(lia)) as K'.
    change (2 ^ 1) with 2 in B.
    assert (Z.pos m * (2 ^ (e - ec - 1) * 2) <= Z.pos mc).
    { apply Z.mul_le_mono_pos_r with (2 ^ (ec - g)); [exact K|].
      set (A := 2 ^ (e - ec - 1)) in *. set (T := 2 ^ (ec - g)) in *.
      clearbody A T. lia. }
    change (2 ^ 53) with (2 ^ 52 * 2) in Uc. nia.
Qed.

(** Conversely, a canonical positive value that is not above a normal one
    has a scaled mantissa that does not exceed the other's. *)
Lemma not_above_normal_inv x m e mc ec :
  Prim2SF x = S754_finite false m e ->
  2 ^ 52 <= Z.pos mc ->
  SFltb (S754_finite false mc ec) (S754_finite false m e) = false ->
  e <= ec /\
  forall g, g <= e -> Z.pos m * 2 ^ (e - g) <= Z.pos mc * 2 ^ (ec - g).
Proof.
  intros E Lc H. unfold SFltb, SFcompare in H.
  destruct (finite_mantissa x false m e E) as (M & L & N).
  destruct (Z.compare_spec ec e) as [C|C|C]; [|discriminate|].
  - subst e. split; [lia|]. intros g Ge.
    apply Z.mul_le_mono_nonneg_r; [apply Z.lt_le_incl, pow2_pos; lia|].
    apply compare_cont_not_Lt.
    destruct (Pos.compare_cont Eq mc m); congruence.
  - split; [lia|]. intros g Ge.
    pose proof (pow2_pos (e - g) ltac:(lia)) as K.
    replace (ec - g) with ((ec - e - 1) + 1 + (e - g)) by lia.
    rewrite !pow2_split by lia.
    pose proof (pow2_pos (ec - e - 1) ltac:(lia)) as K'.
    change (2 ^ 1) with 2.
    rewrite Z.mul_assoc. apply Z.mul_le_mono_nonneg_r; [lia|].
    change (2 ^ 53) with (2 ^ 52 * 2) in M. nia.
Qed.

End Alignment.

Import Alignment.

(** ** The word bank *)

Lemma words_29 : JS.ofNat (length SPIRIT_WORDS) = 29.
Proof. vm_compute. reflexivity. Qed.

Lemma pickWord_floor r i :
  JS.Math_floor (r * 29) = Some i -> (0 <= i < 29)%Z ->
  In (pickWord r) SPIRIT_WORDS.
Proof.
  intros F B. unfold pickWord. rewrite words_29, F.
  replace (i <? 0)%Z with false by (symmetry; apply Z.ltb_ge; lia).
  apply nth_In. change (length SPIRIT_WORDS) with 29%nat. lia.
Qed.

Lemma pickWord_in_bank r : fromRandom r = true -> In (pickWord r) SPIRIT_WORDS.
Proof.
  intros H. destruct (fromRandom_cases r H) as [[s E]|(m & e & E & E53 & Emin & M53)].
  - apply pickWord_floor with 0%Z; [|lia].
    unfold JS.Math_floor. rewrite FloatAxioms.mul_spec, E.
    change (Prim2SF 29) with (S754_finite false 8162774324609024 (-48)).
    reflexivity.
  - destruct (Z_le_gt_dec (Z.pos m + 2) (2 ^ (- e))) as [Hm|Hm].
    + pose proof (random_times_29 m e E53 Emin M53 Hm) as R.
      assert (S : Prim2SF (r * 29) =
                  binary_round_aux prec emax false
                    (Z.pos (m * 8162774324609024)) (e + -48) loc_Exact).
      { rewrite FloatAxioms.mul_spec, E.
        change (Prim2SF 29) with (S754_finite false 8162774324609024 (-48)).
        reflexivity. }
      rewrite <- S in R.
      destruct (Prim2SF (r * 29)) as [s|s| |s m3 e3] eqn:F; try contradiction.
      * apply pickWord_floor with 0%Z; [|lia].
        unfold JS.Math_floor. rewrite F. reflexivity.
      * destruct R as [-> R].
        eapply pickWord_floor; [|exact R].
        unfold JS.Math_floor. rewrite F. unfold JS.signed.
        destruct (0 <=? e3)%Z; reflexivity.
    + (* the largest value below 1 *)
      assert (E' : e = (-53)%Z).
      { destruct (Z_le_gt_dec e (-54)) as [G|G]; [|lia]. exfalso.
        assert (2 ^ 54 <= 2 ^ (- e))%Z by (apply Z.pow_le_mono_r; lia).
        change (2 ^ 54)%Z with 18014398509481984%Z in *.
        change (2 ^ 53)%Z with 9007199254740992%Z in *. lia. }
      subst e. change (2 ^ (- -53))%Z with 9007199254740992%Z in Hm.
      change (2 ^ 53)%Z with 9007199254740992%Z in M53.
      assert (Em : Z.pos m = Z.pos 9007199254740991) by lia.
      injection Em as ->.
      assert (Er : r = 0x1.fffffffffffffp-1).
      { apply Prim2SF_inj. rewrite E. reflexivity. }
      subst r. vm_compute. do 28 right. left. reflexivity.
Qed.

(** Only the interval callback and the timeout it sets write the word. *)
Lemma step_spiritWord a ev :
  spiritWord (step a ev) = spiritWord a \/
  spiritWord (step a ev) = ""%string \/
  exists r1 r2 r3, ev = Tick r1 r2 r3 /\ spiritWord (step a ev) = pickWord r3.
Proof.
  destruct ev as [env| |posted|id ready|poses| |r1 r2 r3|i];
    try (left; unfold step; unfold_handlers; destruct a; cbn in *;
         handler_cases; auto; fail).
  all: unfold step.
  - destruct (0 <? inflight a)%nat; [|now left].
    left. unfold detectPoses_resolved. simpl. now rewrite onPoses_spiritWord.
  - destruct (sweepInterval a); [|now left]. unfold sweepTick.
    destruct (r2 <? 0.05); [|now left].
    right. right. exists r1, r2, r3. split; reflexivity.
  - destruct (nth_error (timers a) i) as [[|]|]; auto.
Qed.

(** X16: for every value [Math.random()] can return, the index computed
    for the word bank lies inside it: the word picked is one of the 29
    words, never [undefined].  Hence, after any events whose random draws
    are such values, the word shown is empty or one of the 29 words. *)
Theorem word_is_from_the_bank :
  (forall r, fromRandom r = true -> In (pickWord r) SPIRIT_WORDS) /\
  (forall d evs, Forall randomsOk evs ->
     let w := spiritWord (run (mount d) evs) in
     w = ""%string \/ In w SPIRIT_WORDS).
Proof.
  split; [exact pickWord_in_bank|].
  intros d evs R. cbv zeta.
  assert (G : forall a, (spiritWord a = ""%string \/
                         In (spiritWord a) SPIRIT_WORDS) ->
              spiritWord (run a evs) = ""%string \/
              In (spiritWord (run a evs)) SPIRIT_WORDS).
  { induction R as [|ev evs R1 _ IH]; intros a H; [exact H|].
    change (run a (ev :: evs)) with (run (step a ev) evs). apply IH.
    destruct (step_spiritWord a ev) as [-> | [-> | (r1 & r2 & r3 & -> & ->)]];
      auto.
    right. apply pickWord_in_bank. apply R1. }
  apply G. now left.
Qed.

Lemma word_is_from_the_bank_witness :
  pickWord 0.5 = "life"%string /\ In (pickWord 0.5) SPIRIT_WORDS /\
  spiritWord (run (mount true) [ClickSpirit; Tick 0.9 0.01 0.5])
    = "life"%string.
Proof.
  split; [reflexivity|]. split; [|reflexivity].
  apply (proj1 word_is_from_the_bank 0.5). reflexivity.
Defined.

(** ** The level of the gauge *)

Module Decay.
Local Open Scope Z_scope.

(** A value of binary64 whose sign bit is set, a zero or NaN is not above
    5. *)
Lemma negative_not_above_5 f :
  match f with
  | S754_finite s _ _ | S754_infinity s => s = true
  | _ => True
  end ->
  SFltb (S754_finite false 5629499534213120 (-50)) f = false.
Proof. destruct f as [s|s| |s m e]; intros H; subst; reflexivity. Qed.

(** A difference that is positive, of a value not above 5 and a positive
    one, rounds to a value not above 5. *)
Lemma difference_not_above_5 y mx ex my p :
  let ez := Z.min ex (-56) in
  ex <= -50 ->
  (forall g, g <= ex -> g <= -50 ->
     Z.pos mx * 2 ^ (ex - g) <= 5629499534213120 * 2 ^ (-50 - g)) ->
  Z.pos p = Z.pos mx * 2 ^ (ex - ez) - Z.pos my ->
  Prim2SF y = binary_round prec emax false p ez ->
  SFltb (S754_finite false 5629499534213120 (-50)) (Prim2SF y) = false.
Proof.
  intros ez E50 B5 Ep Ey.
  pose proof (binary_round_upper false p ez) as U. cbv zeta in U.
  rewrite <- Ey in U.
  set (F := fexp prec emax (Z.pos (digits2_pos p) + ez)) in *.
  set (g := Z.min ez F) in *.
  set (m1 := Z.pos p * 2 ^ (ez - g) / 2 ^ (F - g)) in *.
  assert (Ez : ez <= -56) by (unfold ez; lia).
  assert (Ex : ez <= ex) by (unfold ez; lia).
  assert (Gz : g <= ez) by (unfold g; lia).
  assert (GF : g <= F) by (unfold g; lia).
  (* the value is below 5 *)
  assert (V : Z.pos p * 2 ^ (ez - g) < 5629499534213120 * 2 ^ (-50 - g)).
  { apply Z.lt_le_trans with (Z.pos mx * 2 ^ (ex - g)); [|apply B5; lia].
    replace (ex - g) with ((ex - ez) + (ez - g)) by lia.
    rewrite pow2_split by lia. rewrite Z.mul_assoc.
    apply Z.mul_lt_mono_pos_r; [apply pow2_pos; lia|]. lia. }
  (* hence its digits end below the fourth binary place *)
  assert (D : Z.pos (digits2_pos p) + ez <= 3).
  { pose proof (digits2_bounds p) as [L _].
    assert (G : 2 ^ (Z.pos (digits2_pos p) - 1) < 2 ^ (3 - ez)).
    { apply Z.le_lt_trans with (Z.pos p); [exact L|].
      apply Z.mul_lt_mono_pos_r with (2 ^ (ez - g)); [apply pow2_pos; lia|].
      apply Z.lt_le_trans with (5629499534213120 * 2 ^ (-50 - g));
        [exact V|].
      rewrite <- pow2_split by lia.
      replace (3 - ez + (ez - g)) with (53 + (-50 - g)) by lia.
      rewrite pow2_split by lia.
      apply Z.mul_le_mono_nonneg_r; [apply Z.lt_le_incl, pow2_pos; lia|].
      change (2 ^ 53) with 9007199254740992. lia. }
    apply Z.pow_lt_mono_r_iff in G; lia. }
  assert (F50 : F <= -50).
  { unfold F, fexp, SpecFloat.emin, prec, emax. lia. }
  assert (M1 : m1 + 1 <= 5629499534213120 * 2 ^ (-50 - F)).
  { assert (G : m1 < 5629499534213120 * 2 ^ (-50 - F)); [|lia].
    apply Z.div_lt_upper_bound; [apply pow2_pos; lia|].
    rewrite (Z.mul_comm (2 ^ (F - g))), <- Z.mul_assoc, <- pow2_split by lia.
    replace (-50 - F + (F - g)) with (-50 - g) by lia. exact V. }
  destruct (Prim2SF y) as [s|s| |s m3 e3] eqn:Q.
  - reflexivity.
  - exfalso. destruct U as (_ & e4 & O & L & U). unfold emax, prec in O.
    assert (G : 2 ^ (e4 - F) <= 5629499534213120 * 2 ^ (-50 - F)) by lia.
    replace (e4 - F) with ((e4 + 50) + (-50 - F)) in G by lia.
    rewrite pow2_split in G by lia.
    apply Z.mul_le_mono_pos_r in G; [|apply pow2_pos; lia].
    assert (2 ^ 53 <= 2 ^ (e4 + 50)) by (apply Z.pow_le_mono_r; lia).
    change (2 ^ 53) with 9007199254740992 in *. lia.
  - destruct U.
  - destruct U as (-> & L & U). rewrite <- Q.
    apply (not_above_normal y m3 e3 5629499534213120 (-50) F Q); lia.
Qed.

Local Open Scope float_scope.

(** Taking 0.1 off a level that is not above 5 gives a level that is not
    above 5. *)
Lemma sub_tenth_not_above_5 x : (5 <? x) = false -> (5 <? x - 0.1) = false.
Proof.
  rewrite !FloatAxioms.ltb_spec.
  change (Prim2SF 5) with (S754_finite false 5629499534213120 (-50)).
  intros H.
  pose proof (FloatAxioms.sub_spec x 0.1) as S.
  change (Prim2SF 0.1) with (S754_finite false 7205759403792794 (-56)) in S.
  destruct (Prim2SF x) as [s|s| |sx mx ex] eqn:E.
  - rewrite S. destruct s; reflexivity.
  - rewrite S. destruct s; [reflexivity|discriminate H].
  - rewrite S. reflexivity.
  - unfold SF64sub, SFsub in S.
    set (ez := Z.min ex (-56)) in *.
    destruct (shl_align_spec mx ex ez) as [_ Sx].
    destruct (shl_align_spec 7205759403792794 (-56) ez) as [_ Sy].
    set (mx' := fst (shl_align mx ex ez)) in *.
    set (my' := fst (shl_align 7205759403792794 (-56) ez)) in *.
    replace (Z.min ex ez) with ez in Sx by (unfold ez; lia).
    unfold cond_Zopp at 2 in S.
    destruct (cond_Zopp sx (Z.pos mx') - Z.pos my')%Z as [|p|p] eqn:D.
    + rewrite S. reflexivity.
    + destruct sx; [simpl in D; lia|].
      simpl cond_Zopp in D.
      assert (L52 : (2 ^ 52 <= Z.pos 5629499534213120)%Z)
        by (change (2 ^ 52)%Z with 4503599627370496%Z; lia).
      destruct (not_above_normal_inv x mx ex 5629499534213120 (-50) E L52 H)
        as [E50 B5].
      apply (difference_not_above_5 (x - 0.1) mx ex my' p); auto.
      fold ez. rewrite <- Sx. lia.
    + rewrite S. apply negative_not_above_5.
      change (binary_normalize prec emax (Z.neg p) ez false)
        with (binary_round prec emax true p ez).
      pose proof (binary_round_upper true p ez) as U. cbv zeta in U.
      destruct (binary_round prec emax true p ez); tauto.
Qed.

Lemma Math_max_cases a b :
  JS.Math_max a b = nan \/ JS.Math_max a b = a \/ JS.Math_max a b = b.
Proof.
  unfold JS.Math_max.
  destruct (is_nan a || is_nan b); auto.
  destruct (a <? b); auto. destruct (b <? a); auto.
  destruct (get_sign a); auto.
Qed.

Lemma decay_not_above_5 prev : (5 <? prev) = false -> (5 <? decay prev) = false.
Proof.
  intros H. unfold decay.
  destruct (Math_max_cases 0 (prev - 0.1)) as [-> | [-> | ->]].
  - apply ltb_nan_r.
  - reflexivity.
  - now apply sub_tenth_not_above_5.
Qed.

End Decay.

Import Decay.

Module Signs.

Lemma not_below_0_spec x : (x <? 0) = false <-> unsigned (Prim2SF x).
Proof.
  rewrite FloatAxioms.ltb_spec. change (Prim2SF 0) with (S754_zero false).
  unfold SFltb, SFcompare, unsigned.
  destruct (Prim2SF x) as [s|[|]| |[|] m e]; split; intros H;
    try reflexivity; try discriminate; auto.
Qed.

Lemma binary_round_aux_unsigned P ex lx :
  (0 <= P)%Z -> unsigned (binary_round_aux prec emax false P ex lx).
Proof.
  intros H. pose proof (binary_round_aux_upper false P ex lx H) as U.
  cbv zeta in U. unfold unsigned.
  destruct (binary_round_aux prec emax false P ex lx); tauto.
Qed.

Lemma binary_round_unsigned p e : unsigned (binary_round prec emax false p e).
Proof.
  pose proof (binary_round_upper false p e) as U. cbv zeta in U.
  unfold unsigned. destruct (binary_round prec emax false p e); tauto.
Qed.

Lemma SFadd_unsigned f g :
  unsigned f -> unsigned g -> unsigned (SFadd prec emax f g).
Proof.
  destruct f as [sf|sf| |sf mf ef], g as [sg|sg| |sg mg eg]; simpl;
    intros Hf Hg; subst; auto; try reflexivity.
  - destruct sf, sg; exact I.
  - unfold cond_Zopp.
    change (binary_normalize prec emax
              (Z.pos (fst (shl_align mf ef (Z.min ef eg))) +
               Z.pos (fst (shl_align mg eg (Z.min ef eg))))
              (Z.min ef eg) false)
      with (binary_round prec emax false
              (fst (shl_align mf ef (Z.min ef eg)) +
               fst (shl_align mg eg (Z.min ef eg)))
              (Z.min ef eg)).
    apply binary_round_unsigned.
Qed.

Lemma SFmul_unsigned f g :
  unsigned f -> unsigned g -> unsigned (SFmul prec emax f g).
Proof.
  destruct f as [sf|sf| |sf mf ef], g as [sg|sg| |sg mg eg]; simpl;
    intros Hf Hg; subst; auto.
  apply binary_round_aux_unsigned. lia.
Qed.

Lemma SFdiv_unsigned f g :
  unsigned f -> signClear g -> unsigned (SFdiv prec emax f g).
Proof.
  destruct f as [sf|sf| |sf mf ef], g as [sg|sg| |sg mg eg];
    intros Hf Hg; simpl in Hf, Hg; subst; try exact I; try reflexivity.
  unfold SFdiv, SFdiv_core_binary. 
  set (m' := match _ with Z.pos _ => _ | 0%Z => Z.pos mf | Z.neg _ => 0%Z end).
  assert (M : (0 <= m')%Z).
  { subst m'. destruct (_ - _ - _)%Z; try lia.
    rewrite Z.shiftl_mul_pow2 by lia.
    apply Z.mul_nonneg_nonneg; [lia|]. apply Z.lt_le_incl, pow2_pos. lia. }
  pose proof (Z.div_eucl_eq m' (Z.pos mg) ltac:(lia)) as Q.
  pose proof (Z.mod_pos_bound m' (Z.pos mg) ltac:(lia)) as R.
  unfold Z.modulo in R.
  destruct (Z.div_eucl m' (Z.pos mg)) as [q r].
  apply binary_round_aux_unsigned. nia.
Qed.

Lemma ofNat_signClear n : signClear (Prim2SF (JS.ofNat n)).
Proof.
  unfold JS.ofNat, JS.ofZ.
  replace (Z.of_nat n <? 0)%Z with false by (symmetry; apply Z.ltb_ge; lia).
  rewrite of_uint63_spec. unfold binary_normalize.
  pose proof (Uint63.to_Z_bounded (Uint63.of_Z (Z.of_nat n))) as B.
  destruct (Uint63.to_Z (Uint63.of_Z (Z.of_nat n))) as [|p|p].
  - reflexivity.
  - pose proof (binary_round_upper false p 0) as U. cbv zeta in U.
    unfold signClear. destruct (binary_round prec emax false p 0); tauto.
  - lia.
Qed.

Lemma above_unsigned c x :
  unsigned (Prim2SF c) -> (c <? x) = true -> unsigned (Prim2SF x).
Proof.
  rewrite FloatAxioms.ltb_spec. unfold SFltb, SFcompare, unsigned.
  destruct (Prim2SF c) as [sc|sc| |sc mc ec], (Prim2SF x) as [s|s| |s m e];
    intros Hc H; subst; try discriminate; auto;
    destruct s; try discriminate; auto; destruct sc; discriminate.
Qed.

Lemma fromRandom_unsigned r : fromRandom r = true -> unsigned (Prim2SF r).
Proof.
  intros H. destruct (fromRandom_cases r H) as [[s ->]|(m & e & -> & _)];
    reflexivity.
Qed.

Lemma sum_unsigned valid :
  Forall (fun kp => unsigned (Prim2SF (score kp))) valid ->
  forall acc, unsigned (Prim2SF acc) ->
  unsigned (Prim2SF (fold_left (fun a b => a + score b) valid acc)).
Proof.
  induction 1 as [|kp l H _ IH]; intros acc A; simpl; [exact A|].
  apply IH. rewrite FloatAxioms.add_spec. now apply SFadd_unsigned.
Qed.

Lemma avgScore_unsigned pose :
  unsigned (Prim2SF (avgScore (validKeypoints pose))).
Proof.
  unfold avgScore. rewrite FloatAxioms.div_spec. apply SFdiv_unsigned.
  - apply sum_unsigned; [|exact I].
    unfold validKeypoints. apply Forall_forall. intros kp Hk.
    apply filter_In in Hk. destruct Hk as [_ Hk].
    apply (above_unsigned 0.3); [reflexivity|exact Hk].
  - apply ofNat_signClear.
Qed.

Lemma Math_min_cases a b :
  JS.Math_min a b = nan \/ JS.Math_min a b = a \/ JS.Math_min a b = b.
Proof.
  unfold JS.Math_min.
  destruct (is_nan a || is_nan b); auto.
  destruct (a <? b); auto. destruct (b <? a); auto.
  destruct (get_sign a); auto.
Qed.

Lemma newEmf_not_below_0 pose r :
  fromRandom r = true -> (newEmf pose r <? 0) = false.
Proof.
  intros H. apply not_below_0_spec. unfold newEmf.
  destruct (Math_min_cases 5 (avgScore (validKeypoints pose) * 5 + r * 0.5))
    as [-> | [-> | ->]]; try reflexivity.
  rewrite FloatAxioms.add_spec, !FloatAxioms.mul_spec.
  apply SFadd_unsigned; apply SFmul_unsigned;
    auto using avgScore_unsigned, fromRandom_unsigned; reflexivity.
Qed.

End Signs.

Import Signs.

Module NonNaN.
Local Open Scope Z_scope.

(** A mantissa that reaches the rounding exponent does not round to zero. *)
Lemma binary_round_aux_nonzero sx P ex lx :
  0 <= P -> 1 <= P / 2 ^ (roundExp P ex - ex) ->
  forall s, binary_round_aux prec emax sx P ex lx <> S754_zero s.
Proof.
  intros HP H1 s. unfold binary_round_aux.
  destruct (shr_fexp_max P ex lx HP) as [S1m S1e].
  destruct (shr_fexp prec emax P ex lx) as [mrs' e'].
  cbn [fst snd] in S1m, S1e. subst e'.
  set (e1 := roundExp P ex) in *. set (m1 := P / 2 ^ (e1 - ex)) in *.
  set (m2 := round_nearest_even (shr_m mrs') (loc_of_shr_record mrs')).
  assert (R : m2 = m1 \/ m2 = m1 + 1).
  { subst m2. rewrite <- S1m. apply round_nearest_even_cases. }
  assert (P2 : 1 <= m2) by lia.
  destruct (shr_fexp_max m2 e1 loc_Exact ltac:(lia)) as [S2m S2e].
  destruct (shr_fexp prec emax m2 e1 loc_Exact) as [mrs'' e''].
  cbn [fst snd] in S2m, S2e.
  assert (E1 : -1074 <= e1).
  { unfold e1, roundExp, fexp, SpecFloat.emin, prec, emax. lia. }
  assert (G : 1 <= shr_m mrs'').
  { rewrite S2m. destruct m2 as [|q|q] eqn:Q; try lia.
    pose proof (digits2_bounds q) as [L _].
    set (n2 := roundExp (Z.pos q) e1 - e1).
    assert (N2 : 0 <= n2 <= Z.pos (digits2_pos q) - 1).
    { unfold n2, roundExp, fexp, SpecFloat.emin, prec, emax.
      simpl Zdigits2. lia. }
    apply Z.div_le_lower_bound; [apply pow2_pos; lia|].
    rewrite Z.mul_1_r.
    apply Z.le_trans with (2 ^ (Z.pos (digits2_pos q) - 1)); [|exact L].
    apply Z.pow_le_mono_r; lia. }
  destruct (shr_m mrs'') as [|q|q]; try lia.
  destruct (e'' <=? emax - prec); discriminate.
Qed.

(** [binary_round] as a call of [binary_round_aux]. *)
Lemma binary_round_eq sx p e :
  let F := fexp prec emax (Z.pos (digits2_pos p) + e) in
  let g := Z.min e F in
  exists mz,
    binary_round prec emax sx p e =
      binary_round_aux prec emax sx (Z.pos mz) g loc_Exact /\
    Z.pos mz = Z.pos p * 2 ^ (e - g) /\ roundExp (Z.pos mz) g = F.
Proof.
  intros F g. unfold binary_round. fold F.
  destruct (shl_align_spec p e F) as [S2 S1].
  destruct (shl_align p e F) as [mz ez]. cbn [fst snd] in S1, S2.
  fold g in S1, S2. subst ez. exists mz.
  assert (G : 0 <= e - g) by (unfold g; lia).
  repeat split; auto.
  unfold roundExp. simpl Zdigits2.
  rewrite (digits2_shift p mz (e - g) G S1).
  replace (Z.pos (digits2_pos p) + (e - g) + g)
    with (Z.pos (digits2_pos p) + e) by lia.
  fold F. unfold g. lia.
Qed.

(** A sum or a difference of canonical values that is not zero does not
    round to zero. *)
Lemma binary_round_nonzero sx p e :
  -1074 <= e -> forall s, binary_round prec emax sx p e <> S754_zero s.
Proof.
  intros He s. destruct (binary_round_eq sx p e) as (mz & -> & Ez & R).
  cbv zeta in *. set (F := fexp prec emax (Z.pos (digits2_pos p) + e)) in *.
  set (g := Z.min e F) in *.
  apply binary_round_aux_nonzero; [lia|]. rewrite R, Ez.
  pose proof (digits2_bounds p) as [L _].
  destruct (Z_le_gt_dec F e) as [C|C].
  - replace g with F by (unfold g; lia). rewrite Z.sub_diag, Z.div_1_r.
    pose proof (pow2_pos (e - F) ltac:(lia)). nia.
  - replace g with e by (unfold g; lia). rewrite Z.sub_diag, Z.mul_1_r.
    assert (N : 0 <= F - e <= Z.pos (digits2_pos p) - 1).
    { unfold F, fexp, SpecFloat.emin, prec, emax in *. lia. }
    apply Z.div_le_lower_bound; [apply pow2_pos; lia|].
    rewrite Z.mul_1_r.
    apply Z.le_trans with (2 ^ (Z.pos (digits2_pos p) - 1)); [|exact L].
    apply Z.pow_le_mono_r; lia.
Qed.

Lemma binary_round_positive p e :
  -1074 <= e -> positiveSF (binary_round prec emax false p e).
Proof.
  intros He. pose proof (binary_round_upper false p e) as U. cbv zeta in U.
  pose proof (binary_round_nonzero false p e He) as N.
  unfold positiveSF. destruct (binary_round prec emax false p e) as [s| | |];
    try tauto. exfalso. now apply (N s).
Qed.

Local Open Scope float_scope.

(** Adding a value above zero to a zero or to a value above zero gives a
    value above zero. *)
Lemma add_positive a b :
  (positiveSF (Prim2SF a) \/ exists s, Prim2SF a = S754_zero s) ->
  positiveSF (Prim2SF b) -> positiveSF (Prim2SF (a + b)).
Proof.
  intros Ha Hb. rewrite FloatAxioms.add_spec.
  destruct (Prim2SF b) as [sb|sb| |sb mb eb] eqn:Eb; simpl in Hb;
    try contradiction; subst sb.
  - destruct Ha as [Ha|[s ->]]; [|reflexivity].
    destruct (Prim2SF a) as [sa|sa| |sa ma ea]; simpl in Ha;
      try contradiction; subst; reflexivity.
  - destruct Ha as [Ha|[s ->]]; [|reflexivity].
    destruct (Prim2SF a) as [sa|sa| |sa ma ea] eqn:Ea; simpl in Ha;
      try contradiction; subst sa; [reflexivity|].
    destruct (finite_mantissa a false ma ea Ea) as (_ & La & _).
    destruct (finite_mantissa b false mb eb Eb) as (_ & Lb & _).
    unfold SF64add, SFadd, cond_Zopp.
    change (binary_normalize prec emax
              (Z.pos (fst (shl_align ma ea (Z.min ea eb))) +
               Z.pos (fst (shl_align mb eb (Z.min ea eb))))
              (Z.min ea eb) false)
      with (binary_round prec emax false
              (fst (shl_align ma ea (Z.min ea eb)) +
               fst (shl_align mb eb (Z.min ea eb)))
              (Z.min ea eb)).
    apply binary_round_positive. lia.
Qed.

Lemma above_positive c x :
  unsigned (Prim2SF c) -> (c <? x) = true -> positiveSF (Prim2SF x).
Proof.
  rewrite FloatAxioms.ltb_spec. unfold SFltb, SFcompare, unsigned, positiveSF.
  destruct (Prim2SF c) as [sc|sc| |sc mc ec], (Prim2SF x) as [s|s| |s m e];
    intros Hc H; subst; try discriminate; auto;
    destruct s; try discriminate; auto; destruct sc; discriminate.
Qed.

Lemma sum_positive valid :
  Forall (fun kp => positiveSF (Prim2SF (score kp))) valid ->
  forall acc,
    (positiveSF (Prim2SF acc) \/ exists s, Prim2SF acc = S754_zero s) ->
    valid <> [] ->
    positiveSF (Prim2SF (fold_left (fun a b => a + score b) valid acc)).
Proof.
  induction 1 as [|kp l H _ IH]; intros acc A N; [congruence|].
  cbn [fold_left]. pose proof (add_positive acc (score kp) A H) as P.
  destruct l as [|kp' l']; [exact P|].
  apply IH; [now left|discriminate].
Qed.

Local Open Scope Z_scope.

(** The length of an array, as a number, is [+0] or a finite value above
    zero. *)
Lemma ofNat_cases n :
  Prim2SF (JS.ofNat n) = S754_zero false \/
  exists m e, Prim2SF (JS.ofNat n) = S754_finite false m e.
Proof.
  unfold JS.ofNat, JS.ofZ.
  replace (Z.of_nat n <? 0) with false by (symmetry; apply Z.ltb_ge; lia).
  rewrite of_uint63_spec. unfold binary_normalize.
  pose proof (Uint63.to_Z_bounded (Uint63.of_Z (Z.of_nat n))) as B.
  destruct (Uint63.to_Z (Uint63.of_Z (Z.of_nat n))) as [|p|p];
    [now left| |lia].
  right. pose proof (binary_round_upper false p 0) as U. cbv zeta in U.
  pose proof (binary_round_nonzero false p 0 ltac:(lia)) as N.
  destruct (binary_round prec emax false p 0) as [s|s| |s m e].
  - exfalso. now apply (N s).
  - exfalso. destruct U as (_ & e4 & O & L & U). unfold emax, prec in O.
    pose proof (digits2_bounds p) as [Lp Up].
    set (d := Z.pos (digits2_pos p)) in *.
    assert (D : d <= 63).
    { assert (G : 2 ^ (d - 1) < 2 ^ 63).
      { apply Z.le_lt_trans with (Z.pos p); [exact Lp|].
        change Uint63.wB with (2 ^ 63) in B. lia. }
      apply Z.pow_lt_mono_r_iff in G; lia. }
    set (F := fexp prec emax (d + 0)) in *.
    assert (EF : F = d - 53).
    { unfold F, fexp, SpecFloat.emin, prec, emax. lia. }
    set (g := Z.min 0 F) in *.
    assert (M : Z.pos p * 2 ^ (0 - g) / 2 ^ (F - g) <= Z.pos p * 2 ^ 52).
    { apply Z.le_trans with (Z.pos p * 2 ^ (0 - g)).
      - apply Z.div_le_upper_bound; [apply pow2_pos; unfold g; lia|].
        pose proof (pow2_pos (F - g) ltac:(unfold g; lia)).
        pose proof (pow2_pos (0 - g) ltac:(unfold g; lia)). nia.
      - apply Z.mul_le_mono_nonneg_l; [lia|].
        apply Z.pow_le_mono_r; unfold g; lia. }
    assert (2 ^ 116 <= 2 ^ (e4 - F)) by (apply Z.pow_le_mono_r; lia).
    change Uint63.wB with (2 ^ 63) in B.
    assert (Z.pos p * 2 ^ 52 < 2 ^ 63 * 2 ^ 52)
      by (apply Z.mul_lt_mono_pos_r; [apply pow2_pos|]; lia).
    change (2 ^ 63 * 2 ^ 52) with (2 ^ 115) in *.
    assert (2 ^ 115 < 2 ^ 116) by (apply Z.pow_lt_mono_r; lia).
    lia.
  - destruct U.
  - destruct U as (-> & _). eauto.
Qed.

Lemma div_eucl_nonneg a b : 0 <= a -> 0 < b -> 0 <= fst (Z.div_eucl a b).
Proof.
  intros Ha Hb. change (fst (Z.div_eucl a b)) with (a / b).
  apply Z.div_pos; assumption.
Qed.

(** A value above zero divided by the length of an array is a number that
    is not negative. *)
Lemma SFdiv_positive f n :
  positiveSF f ->
  let q := SFdiv prec emax f (Prim2SF (JS.ofNat n)) in
  q <> S754_nan /\ unsigned q.
Proof.
  intros Hf q. subst q.
  destruct (ofNat_cases n) as [-> | (m & e & ->)];
    destruct f as [sf|sf| |sf mf ef]; simpl in Hf; try contradiction; subst;
    try (split; [discriminate|reflexivity]).
  unfold SFdiv, SFdiv_core_binary.
  set (m' := match _ with Z.pos _ => _ | 0 => Z.pos mf | Z.neg _ => 0 end).
  assert (M : 0 <= m').
  { subst m'. destruct (_ - _ - _); try lia.
    rewrite Z.shiftl_mul_pow2 by lia.
    apply Z.mul_nonneg_nonneg; [lia|]. apply Z.lt_le_incl, pow2_pos. lia. }
  pose proof (div_eucl_nonneg m' (Z.pos m) M ltac:(lia)) as Q.
  destruct (Z.div_eucl m' (Z.pos m)) as [q r]. cbn [fst] in Q.
  pose proof (binary_round_aux_upper false q
                (Z.min (fexp prec emax
                          (Zdigits2 (Z.pos mf) + ef - (Zdigits2 (Z.pos m) + e)))
                       (ef - e))
                (new_location (Z.pos m) r) Q) as U.
  cbv zeta in U. unfold unsigned. simpl xorb.
  destruct (binary_round_aux prec emax false q _ _); try tauto.
  - split; [discriminate|exact I].
  - split; [discriminate|tauto].
  - split; [discriminate|tauto].
Qed.

End NonNaN.

Import NonNaN.

Lemma avgScore_number pose :
  validKeypoints pose <> [] ->
  Prim2SF (avgScore (validKeypoints pose)) <> S754_nan /\
  unsigned (Prim2SF (avgScore (validKeypoints pose))).
Proof.
  intros N. unfold avgScore. rewrite FloatAxioms.div_spec.
  apply SFdiv_positive. apply sum_positive; [|right; exists false; reflexivity|exact N].
  unfold validKeypoints. apply Forall_forall. intros kp Hk.
  apply filter_In in Hk. destruct Hk as [_ Hk].
  apply (above_positive 0.3); [reflexivity|exact Hk].
Qed.

Lemma SFadd_number f g :
  unsigned f -> unsigned g -> f <> S754_nan -> g <> S754_nan ->
  SFadd prec emax f g <> S754_nan.
Proof.
  destruct f as [sf|sf| |sf mf ef], g as [sg|sg| |sg mg eg]; simpl;
    intros Hf Hg Nf Ng; subst; try congruence; try discriminate.
  - destruct sf, sg; discriminate.
  - apply binary_normalize_not_nan.
Qed.

Lemma Math_min_number a b :
  is_nan a = false -> is_nan b = false -> is_nan (JS.Math_min a b) = false.
Proof.
  intros Ha Hb. unfold JS.Math_min. rewrite Ha, Hb. simpl.
  destruct (a <? b); auto. destruct (b <? a); auto.
  destruct (get_sign a); auto.
Qed.

Lemma Math_max_number a b :
  is_nan a = false -> is_nan b = false -> is_nan (JS.Math_max a b) = false.
Proof.
  intros Ha Hb. unfold JS.Math_max. rewrite Ha, Hb. simpl.
  destruct (a <? b); auto. destruct (b <? a); auto.
  destruct (get_sign a); auto.
Qed.

Lemma qualifying_valid pose : qualifying pose = true -> validKeypoints pose <> [].
Proof.
  unfold qualifying. intros H E. rewrite E in H. discriminate H.
Qed.

(** The level computed from a pose that passes the detection test is a
    number. *)
Lemma newEmf_number pose r :
  qualifying pose = true -> fromRandom r = true ->
  is_nan (newEmf pose r) = false.
Proof.
  intros Q R. unfold newEmf. apply Math_min_number; [reflexivity|].
  destruct (avgScore_number pose (qualifying_valid pose Q)) as [N U].
  apply not_nan_spec.
  rewrite FloatAxioms.add_spec, !FloatAxioms.mul_spec.
  change (Prim2SF 5) with (S754_finite false 5629499534213120 (-50)).
  change (Prim2SF 0.5) with (S754_finite false 4503599627370496 (-53)).
  apply SFadd_number.
  - apply SFmul_unsigned; [exact U|reflexivity].
  - apply SFmul_unsigned; [now apply fromRandom_unsigned|reflexivity].
  - now apply SFmul_not_nan.
  - apply SFmul_not_nan. apply not_nan_spec. now apply fromRandom_not_nan.
Qed.

Lemma decay_number l : is_nan l = false -> is_nan (decay l) = false.
Proof.
  intros H. unfold decay. apply Math_max_number; [reflexivity|].
  apply not_nan_spec. rewrite FloatAxioms.sub_spec.
  change (Prim2SF 0.1) with (S754_finite false 7205759403792794 (-56)).
  apply SFsub_not_nan. now apply not_nan_spec.
Qed.

Lemma decay_not_below_0 l : (decay l <? 0) = false.
Proof. unfold decay. apply Math_max_not_below. Qed.

(** A property of the level that holds for 0, that decay keeps and that
    holds for the level computed from each pose of a detector answer that
    passes the detection test, is kept by every event. *)
Lemma fold_onPose_emf (P : float -> Prop) poses :
  (forall pr, In pr poses -> qualifying (fst pr) = true ->
              P (newEmf (fst pr) (rnd (snd pr)))) ->
  forall a, P (emfLevel a) -> P (emfLevel (fold_left onPose poses a)).
Proof.
  induction poses as [|[pose env] poses IH]; intros N a H; cbn [fold_left];
    [exact H|].
  apply IH; [intros; apply N; auto; now right|].
  rewrite onPose_emfLevel. destruct (qualifying pose) eqn:Q; [|exact H].
  apply (N (pose, env)); [now left|exact Q].
Qed.

Lemma step_emf (P : float -> Prop) a ev :
  P 0 -> (forall l, P l -> P (decay l)) ->
  match ev with
  | Estimated poses =>
      forall pr, In pr poses -> qualifying (fst pr) = true ->
                 P (newEmf (fst pr) (rnd (snd pr)))
  | _ => True
  end ->
  P (emfLevel a) -> P (emfLevel (step a ev)).
Proof.
  intros P0 PD PN H.
  destruct ev as [env| |posted|id ready|poses| |r1 r2 r3|i];
    try (unfold step; unfold_handlers; destruct a; cbn in *; handler_cases;
         auto; fail).
  unfold step. destruct (0 <? inflight a)%nat; [|exact H].
  unfold detectPoses_resolved.
  change (emfLevel (requestAnimationFrame
                      (onPoses poses (set_inflight Nat.pred a))))
    with (emfLevel (onPoses poses (set_inflight Nat.pred a))).
  unfold onPoses. destruct (0 <? length poses)%nat.
  - apply fold_onPose_emf; [exact PN|exact H].
  - apply PD. exact H.
Qed.

Lemma run_emf_upper evs :
  forall a, (5 <? emfLevel a) = false -> (5 <? emfLevel (run a evs)) = false.
Proof.
  unfold run. induction evs as [|ev evs IH]; intros a H; simpl; [exact H|].
  apply IH. apply (step_emf (fun l => (5 <? l) = false)); auto.
  - apply decay_not_above_5.
  - destruct ev; auto. intros pr _ _. apply newEmf_not_above_5.
Qed.

Lemma run_emf_number evs :
  Forall readingsOk evs ->
  forall a, is_nan (emfLevel a) = false /\ (emfLevel a <? 0) = false ->
            is_nan (emfLevel (run a evs)) = false /\
            (emfLevel (run a evs) <? 0) = false.
Proof.
  unfold run. induction 1 as [|ev evs R _ IH]; intros a H; simpl; [exact H|].
  apply IH.
  apply (step_emf (fun l => is_nan l = false /\ (l <? 0) = false)); auto.
  - intros l [N _]. split; [now apply decay_number|apply decay_not_below_0].
  - destruct ev; auto. intros pr Hp Q.
    simpl in R. rewrite Forall_forall in R. specialize (R pr Hp).
    split; [now apply newEmf_number|now apply newEmf_not_below_0].
Qed.

(** X17: in every state the component can reach the level of the gauge
    is not above 5; when the random draws of the detection loop are values
    of [Math.random()], the level is a number from 0 to 5. *)
Theorem level_stays_on_scale :
  (forall d evs, (5 <? emfLevel (run (mount d) evs)) = false) /\
  (forall d evs, Forall readingsOk evs ->
     let l := emfLevel (run (mount d) evs) in
     (0 <=? l) && (l <=? 5) = true).
Proof.
  split.
  - intros d evs. apply run_emf_upper. reflexivity.
  - intros d evs R l.
    destruct (run_emf_number evs R (mount d)) as [N L];
      [split; reflexivity|].
    pose proof (run_emf_upper evs (mount d) eq_refl) as U.
    fold l in N, L, U. apply andb_true_intro. split.
    + apply leb_of_not_ltb; auto.
    + apply leb_of_not_ltb; auto.
Qed.

Lemma level_stays_on_scale_witness :
  let l := emfLevel (run (mount true)
             [ClickToggle startOk;
              Estimated [(poseOf 6 0.9, mkReading 0.99 5000)];
              Frame 1 true; Estimated []]) in
  (4.8 <? l) = true /\ (0 <=? l) && (l <=? 5) = true.
Proof.
  intros l. split; [reflexivity|].
  apply (proj2 level_stays_on_scale true). repeat constructor; reflexivity.
Defined.

(** ** The needle of the gauge *)

Module Needle.
Local Open Scope Z_scope.

(** The order of two canonical positive values, read off their mantissas
    scaled to a common exponent. *)
Lemma not_above_raw m e mc ec g :
  (-1074 < e -> 2 ^ 52 <= Z.pos m) ->
  Z.pos mc < 2 ^ 53 -> -1074 <= ec -> g <= e -> g <= ec ->
  Z.pos m * 2 ^ (e - g) <= Z.pos mc * 2 ^ (ec - g) ->
  SFltb (S754_finite false mc ec) (S754_finite false m e) = false.
Proof.
  intros N Uc Ec Ge Gc B. unfold SFltb, SFcompare.
  destruct (Z.compare_spec ec e) as [C|C|C]; [| |reflexivity].
  - subst e.
    pose proof (pow2_pos (ec - g) ltac:(lia)) as K.
    assert (Z.pos m <= Z.pos mc)
      by (apply Z.mul_le_mono_pos_r with (2 ^ (ec - g)); assumption).
    destruct (Pos.compare_cont Eq mc m) eqn:Q; try reflexivity.
    apply compare_cont_Lt in Q. lia.
  - exfalso.
    assert (N' : 2 ^ 52 <= Z.pos m) by (apply N; lia).
    pose proof (pow2_pos (ec - g) ltac:(lia)) as K.
    replace (e - g) with ((e - ec - 1) + 1 + (ec - g)) in B by lia.
    rewrite !pow2_split in B by lia.
    pose proof (pow2_pos (e - ec - 1) ltac:(lia)) as K'.
    change (2 ^ 1) with 2 in B.
    assert (Z.pos m * (2 ^ (e - ec - 1) * 2) <= Z.pos mc).
    { apply Z.mul_le_mono_pos_r with (2 ^ (ec - g)); [exact K|].
      set (A := 2 ^ (e - ec - 1)) in *. set (T := 2 ^ (ec - g)) in *.
      clearbody A T. lia. }
    change (2 ^ 53) with (2 ^ 52 * 2) in Uc. nia.
Qed.

Lemma compare_cont_Gt m q :
  Pos.compare_cont Eq m q = Gt -> Z.pos q < Z.pos m.
Proof.
  rewrite Pos.compare_cont_spec. unfold Pos.switch_Eq.
  destruct (Pos.compare_spec m q) as [E|L|G]; try discriminate.
  intros _. now apply Pos2Z.pos_lt_pos.
Qed.

(** Below zero the order of the magnitudes is reversed. *)
Lemma not_below_raw m e mc ec g :
  (-1074 < e -> 2 ^ 52 <= Z.pos m) ->
  Z.pos mc < 2 ^ 53 -> -1074 <= ec -> g <= e -> g <= ec ->
  Z.pos m * 2 ^ (e - g) <= Z.pos mc * 2 ^ (ec - g) ->
  SFltb (S754_finite true m e) (S754_finite true mc ec) = false.
Proof.
  intros N Uc Ec Ge Gc B. unfold SFltb, SFcompare.
  destruct (Z.compare_spec e ec) as [C|C|C]; [|reflexivity|].
  - subst e.
    pose proof (pow2_pos (ec - g) ltac:(lia)) as K.
    assert (Z.pos m <= Z.pos mc)
      by (apply Z.mul_le_mono_pos_r with (2 ^ (ec - g)); assumption).
    destruct (Pos.compare_cont Eq m mc) eqn:Q; try reflexivity.
    apply compare_cont_Gt in Q. lia.
  - exfalso.
    assert (N' : 2 ^ 52 <= Z.pos m) by (apply N; lia).
    pose proof (pow2_pos (ec - g) ltac:(lia)) as K.
    replace (e - g) with ((e - ec - 1) + 1 + (ec - g)) in B by lia.
    rewrite !pow2_split in B by lia.
    pose proof (pow2_pos (e - ec - 1) ltac:(lia)) as K'.
    change (2 ^ 1) with 2 in B.
    assert (Z.pos m * (2 ^ (e - ec - 1) * 2) <= Z.pos mc).
    { apply Z.mul_le_mono_pos_r with (2 ^ (ec - g)); [exact K|].
      set (A := 2 ^ (e - ec - 1)) in *. set (T := 2 ^ (ec - g)) in *.
      clearbody A T. lia. }
    change (2 ^ 53) with (2 ^ 52 * 2) in Uc. nia.
Qed.

(** A canonical positive value that is not above a normal one either is
    that value or has a strictly smaller scaled mantissa. *)
Lemma below_or_equal x m e mc ec :
  Prim2SF x = S754_finite false m e ->
  2 ^ 52 <= Z.pos mc ->
  SFltb (S754_finite false mc ec) (S754_finite false m e) = false ->
  e <= ec /\
  ((e = ec /\ m = mc) \/
   forall g, g <= e -> Z.pos m * 2 ^ (e - g) < Z.pos mc * 2 ^ (ec - g)).
Proof.
  intros E Lc H. unfold SFltb, SFcompare in H.
  destruct (finite_mantissa x false m e E) as (M & L & N).
  destruct (Z.compare_spec ec e) as [C|C|C]; [|discriminate|].
  - subst e. split; [lia|].
    rewrite Pos.compare_cont_spec in H. unfold Pos.switch_Eq in H.
    destruct (Pos.compare_spec mc m) as [Q|Q|Q]; [|discriminate|].
    + left. auto.
    + right. intros g Ge. apply Pos2Z.pos_lt_pos in Q.
      apply Z.mul_lt_mono_pos_r; [apply pow2_pos; lia|exact Q].
  - split; [lia|]. right. intros g Ge.
    pose proof (pow2_pos (e - g) ltac:(lia)) as K.
    replace (ec - g) with ((ec - e - 1) + 1 + (e - g)) by lia.
    rewrite !pow2_split by lia.
    pose proof (pow2_pos (ec - e - 1) ltac:(lia)) as K'.
    change (2 ^ 1) with 2.
    rewrite Z.mul_assoc. apply Z.mul_lt_mono_pos_r; [lia|].
    change (2 ^ 53) with (2 ^ 52 * 2) in M. nia.
Qed.

(** A canonical value below 1 times a normal constant rounds to a value
    that is not above the constant. *)
Lemma below_one_times m e mc ec :
  Z.pos m < 2 ^ (- e) -> e <= 0 ->
  2 ^ 52 <= Z.pos mc < 2 ^ 53 -> -1074 <= ec <= 900 ->
  match binary_round_aux prec emax false (Z.pos (m * mc)) (e + ec) loc_Exact
  with
  | S754_zero s => s = false
  | S754_finite s m3 e3 =>
      s = false /\
      exists g, g <= e3 /\ g <= ec /\
                Z.pos m3 * 2 ^ (e3 - g) <= Z.pos mc * 2 ^ (ec - g)
  | _ => False
  end.
Proof.
  intros Hm He [Lc Uc] [Ec Ec'].
  set (P := Z.pos (m * mc)). set (ex := e + ec).
  assert (EP : P = Z.pos m * Z.pos mc) by (subst P; apply Pos2Z.inj_mul).
  assert (P0 : 0 < P) by (subst P; lia).
  pose proof (binary_round_aux_upper false P ex loc_Exact (Z.lt_le_incl _ _ P0))
    as U.
  cbv zeta in U. set (e1 := roundExp P ex) in *.
  set (m1 := P / 2 ^ (e1 - ex)) in *.
  pose proof (pow2_pos (- e) ltac:(lia)) as KE.
  (* the product is below the constant *)
  assert (V : P < Z.pos mc * 2 ^ (- e)).
  { rewrite EP, (Z.mul_comm (Z.pos m)).
    apply Z.mul_lt_mono_pos_l; lia. }
  assert (D : Zdigits2 P + ex <= 53 + ec).
  { unfold P. simpl Zdigits2. fold P.
    pose proof (digits2_bounds (m * mc)) as [L _]. fold P in L.
    assert (G : 2 ^ (Z.pos (digits2_pos (m * mc)) - 1) < 2 ^ (53 - e)).
    { apply Z.le_lt_trans with P; [exact L|].
      apply Z.lt_trans with (Z.pos mc * 2 ^ (- e)); [exact V|].
      replace (53 - e) with (53 + - e) by lia. rewrite pow2_split by lia.
      apply Z.mul_lt_mono_pos_r; lia. }
    apply Z.pow_lt_mono_r_iff in G; unfold ex; lia. }
  assert (E1 : ex <= e1 <= ec).
  { unfold e1, roundExp, fexp, SpecFloat.emin, prec, emax, ex in *. lia. }
  set (B := Z.pos mc * 2 ^ (ec - e1)).
  assert (S : m1 + 1 <= B).
  { assert (G : m1 < B); [|lia].
    apply Z.div_lt_upper_bound; [apply pow2_pos; lia|].
    unfold B. rewrite (Z.mul_comm (2 ^ (e1 - ex))), <- Z.mul_assoc,
      <- pow2_split by lia.
    replace (ec - e1 + (e1 - ex)) with (- e) by (unfold ex; lia). exact V. }
  destruct (binary_round_aux prec emax false P ex loc_Exact)
    as [s|s| |s m3 e3]; auto.
  - destruct U as (_ & e4 & O & L & U). unfold emax, prec in O.
    assert (G : 2 ^ (e4 - e1) <= Z.pos mc * 2 ^ (ec - e1)) by (fold B; lia).
    replace (e4 - e1) with ((e4 - ec) + (ec - e1)) in G by lia.
    rewrite pow2_split in G by lia.
    apply Z.mul_le_mono_pos_r in G; [|apply pow2_pos; lia].
    assert (2 ^ 53 <= 2 ^ (e4 - ec)) by (apply Z.pow_le_mono_r; lia). lia.
  - destruct U as (-> & L & U). split; [reflexivity|].
    exists e1. repeat split; try lia; fold B; lia.
Qed.

(** A canonical value below 5 divided by 5 rounds to a value that is not
    above 1. *)
Lemma below_five_by_five m e :
  -1074 <= e -> e <= -50 ->
  Z.pos m < 5629499534213120 * 2 ^ (-50 - e) ->
  match SFdiv prec emax (S754_finite false m e)
          (S754_finite false 5629499534213120 (-50)) with
  | S754_zero s => s = false
  | S754_finite s m3 e3 =>
      s = false /\
      exists g, g <= e3 /\ g <= -52 /\
                Z.pos m3 * 2 ^ (e3 - g) <= 4503599627370496 * 2 ^ (-52 - g)
  | _ => False
  end.
Proof.
  intros Emin E50 Hm. unfold SFdiv, SFdiv_core_binary.
  change (Zdigits2 5629499534213120) with 53. simpl xorb.
  set (e' := Z.min (fexp prec emax (Zdigits2 (Z.pos m) + e - (53 + -50)))
                   (e - -50)).
  set (s := e - -50 - e').
  assert (S0 : 0 <= s) by (unfold s, e'; lia).
  assert (E'0 : e' <= 0) by (unfold e'; lia).
  set (m' := match s with
             | 0 => Z.pos m
             | Z.pos _ => Z.shiftl (Z.pos m) s
             | Z.neg _ => 0
             end).
  assert (M : m' = Z.pos m * 2 ^ s).
  { unfold m'. destruct s as [|p|p] eqn:Q; try lia.
    rewrite Z.shiftl_mul_pow2 by lia. reflexivity. }
  pose proof (pow2_pos s S0) as KS.
  pose proof (pow2_pos (- e') ltac:(lia)) as KE.
  (* the dividend is below 5 times the unit of the quotient *)
  assert (V : m' < 5629499534213120 * 2 ^ (- e')).
  { rewrite M. replace (- e') with ((-50 - e) + s) by (unfold s; lia).
    rewrite pow2_split by lia. rewrite Z.mul_assoc.
    apply Z.mul_lt_mono_pos_r; assumption. }
  pose proof (Z.div_eucl_eq m' 5629499534213120 ltac:(lia)) as Q.
  pose proof (Z.mod_pos_bound m' 5629499534213120 ltac:(lia)) as R.
  unfold Z.modulo in R.
  destruct (Z.div_eucl m' 5629499534213120) as [q r].
  assert (Q0 : 0 <= q) by nia.
  assert (Q1 : q < 2 ^ (- e')) by nia.
  pose proof (binary_round_aux_upper false q e'
                (new_location 5629499534213120 r) Q0) as U.
  cbv zeta in U. set (e1 := roundExp q e') in *.
  set (m1 := q / 2 ^ (e1 - e')) in *.
  assert (D : Zdigits2 q + e' <= 0).
  { destruct q as [|p|p]; [simpl; lia| |lia]. simpl Zdigits2.
    pose proof (digits2_bounds p) as [L _].
    assert (G : 2 ^ (Z.pos (digits2_pos p) - 1) < 2 ^ (- e')) by lia.
    apply Z.pow_lt_mono_r_iff in G; lia. }
  assert (E1 : e' <= e1 <= 0).
  { unfold e1, roundExp, fexp, SpecFloat.emin, prec, emax in *. lia. }
  assert (S : m1 + 1 <= 2 ^ (- e1)).
  { assert (G : m1 < 2 ^ (- e1)); [|lia].
    apply Z.div_lt_upper_bound; [apply pow2_pos; lia|].
    rewrite <- pow2_split by lia.
    replace (e1 - e' + - e1) with (- e') by lia. exact Q1. }
  destruct (binary_round_aux prec emax false q e' _) as [s0|s0| |s0 m3 e3];
    auto.
  - destruct U as (_ & e4 & O & L & U). unfold emax, prec in O.
    assert (G : 2 ^ (e4 - e1) <= 2 ^ (- e1)) by lia.
    apply Z.pow_le_mono_r_iff in G; lia.
  - destruct U as (-> & L & U). split; [reflexivity|].
    exists (Z.min e1 (-52)). repeat split; try lia.
    set (g := Z.min e1 (-52)).
    change 4503599627370496 with (2 ^ 52). rewrite <- pow2_split by lia.
    replace (52 + (-52 - g)) with (- e1 + (e1 - g)) by lia.
    rewrite pow2_split by (unfold g; lia).
    replace (e3 - g) with ((e3 - e1) + (e1 - g)) by lia.
    rewrite pow2_split by (unfold g; lia). rewrite Z.mul_assoc.
    apply Z.mul_le_mono_nonneg_r;
      [apply Z.lt_le_incl, pow2_pos; unfold g; lia|lia].
Qed.

(** A value below a normal constant, given as a mantissa at an exponent
    that is not above the constant's, rounds to a value whose magnitude is
    not above the constant. *)
Lemma binary_round_below sx p e mc ec :
  e <= ec -> -1074 <= ec <= 900 -> 2 ^ 52 <= Z.pos mc < 2 ^ 53 ->
  Z.pos p < Z.pos mc * 2 ^ (ec - e) ->
  match binary_round prec emax sx p e with
  | S754_zero s => s = sx
  | S754_finite s m3 e3 =>
      s = sx /\
      exists g, g <= e3 /\ g <= ec /\
                Z.pos m3 * 2 ^ (e3 - g) <= Z.pos mc * 2 ^ (ec - g)
  | _ => False
  end.
Proof.
  intros Ee [Ec Ec'] [Lc Uc] V.
  pose proof (binary_round_upper sx p e) as U. cbv zeta in U.
  set (F := fexp prec emax (Z.pos (digits2_pos p) + e)) in *.
  set (g := Z.min e F) in *.
  set (m1 := Z.pos p * 2 ^ (e - g) / 2 ^ (F - g)) in *.
  assert (Gz : g <= e) by (unfold g; lia).
  assert (GF : g <= F) by (unfold g; lia).
  pose proof (pow2_pos (ec - e) ltac:(lia)) as KE.
  assert (D : Z.pos (digits2_pos p) + e <= 53 + ec).
  { pose proof (digits2_bounds p) as [L _].
    assert (G : 2 ^ (Z.pos (digits2_pos p) - 1) < 2 ^ (53 + ec - e)).
    { apply Z.le_lt_trans with (Z.pos p); [exact L|].
      apply Z.lt_trans with (Z.pos mc * 2 ^ (ec - e)); [exact V|].
      replace (53 + ec - e) with (53 + (ec - e)) by lia.
      rewrite pow2_split by lia. apply Z.mul_lt_mono_pos_r; lia. }
    apply Z.pow_lt_mono_r_iff in G; lia. }
  assert (FE : F <= ec).
  { unfold F, fexp, SpecFloat.emin, prec, emax. lia. }
  set (B := Z.pos mc * 2 ^ (ec - F)).
  assert (S : m1 + 1 <= B).
  { assert (G : m1 < B); [|lia].
    apply Z.div_lt_upper_bound; [apply pow2_pos; lia|].
    unfold B. rewrite (Z.mul_comm (2 ^ (F - g))), <- Z.mul_assoc,
      <- pow2_split by lia.
    replace (ec - F + (F - g)) with ((ec - e) + (e - g)) by lia.
    rewrite pow2_split by lia. rewrite Z.mul_assoc.
    apply Z.mul_lt_mono_pos_r; [apply pow2_pos; lia|exact V]. }
  destruct (binary_round prec emax sx p e) as [s|s| |s m3 e3]; auto.
  - destruct U as (_ & e4 & O & L & U). unfold emax, prec in O.
    assert (G : 2 ^ (e4 - F) <= Z.pos mc * 2 ^ (ec - F)) by (fold B; lia).
    replace (e4 - F) with ((e4 - ec) + (ec - F)) in G by lia.
    rewrite pow2_split in G by lia.
    apply Z.mul_le_mono_pos_r in G; [|apply pow2_pos; lia].
    assert (2 ^ 53 <= 2 ^ (e4 - ec)) by (apply Z.pow_le_mono_r; lia). lia.
  - destruct U as (-> & L & U). split; [reflexivity|].
    exists F. repeat split; try lia; fold B; lia.
Qed.

Local Open Scope float_scope.

Lemma number_cases x :
  is_nan x = false -> (x <? 0) = false ->
  (exists s, Prim2SF x = S754_zero s) \/ Prim2SF x = S754_infinity false \/
  (exists m e, Prim2SF x = S754_finite false m e).
Proof.
  intros N L. apply not_nan_spec in N. apply not_below_0_spec in L.
  destruct (Prim2SF x) as [s|s| |s m e]; simpl in L; subst; eauto.
  congruence.
Qed.

(** A fifth of a level from 0 to 5 is a number from 0 to 1. *)
Lemma fifth_on_scale l :
  is_nan l = false -> (l <? 0) = false -> (5 <? l) = false ->
  is_nan (l / 5) = false /\ (l / 5 <? 0) = false /\ (1 <? l / 5) = false.
Proof.
  intros N L U. rewrite is_nan_spec, (FloatAxioms.ltb_spec 1).
  rewrite FloatAxioms.ltb_spec in U.
  change (Prim2SF 5) with (S754_finite false 5629499534213120 (-50)) in U.
  change (Prim2SF 1) with (S754_finite false 4503599627370496 (-52)).
  pose proof (FloatAxioms.div_spec l 5) as S.
  change (Prim2SF 5) with (S754_finite false 5629499534213120 (-50)) in S.
  destruct (number_cases l N L) as [[s E]|[E|(m & e & E)]]; rewrite E in *.
  - assert (Q : Prim2SF (l / 5) = S754_zero s) by (rewrite S; now destruct s).
    rewrite Q. repeat split. apply not_below_0_spec. now rewrite Q.
  - discriminate U.
  - assert (L52 : (2 ^ 52 <= Z.pos 5629499534213120)%Z)
      by (change (2 ^ 52)%Z with 4503599627370496%Z; lia).
    destruct (below_or_equal l m e 5629499534213120 (-50) E L52 U)
      as [E50 [[-> ->]|B]].
    + assert (l = 5) by (apply Prim2SF_inj; rewrite E; reflexivity).
      subst l. repeat split.
    + destruct (finite_mantissa l false m e E) as (_ & Emin & _).
      specialize (B e (Z.le_refl e)).
      rewrite Z.sub_diag, Z.mul_1_r in B.
      pose proof (below_five_by_five m e Emin E50 B) as D.
      unfold SF64div in S. rewrite <- S in D.
      destruct (Prim2SF (l / 5)) as [s|s| |s m3 e3] eqn:Q; try contradiction.
      * repeat split. apply not_below_0_spec. now rewrite Q.
      * destruct D as (-> & g & G1 & G2 & D).
        destruct (finite_mantissa (l / 5) false m3 e3 Q) as (_ & _ & C).
        repeat split.
        -- apply not_below_0_spec. now rewrite Q.
        -- apply (not_above_raw m3 e3 4503599627370496 (-52) g); auto;
             try reflexivity; lia.
Qed.

(** Ninety times a number from 0 to 1 is a number from 0 to 90. *)
Lemma ninety_on_scale y :
  is_nan y = false -> (y <? 0) = false -> (1 <? y) = false ->
  is_nan (y * 90) = false /\ (y * 90 <? 0) = false /\ (90 <? y * 90) = false.
Proof.
  intros N L U. rewrite is_nan_spec, (FloatAxioms.ltb_spec 90).
  rewrite FloatAxioms.ltb_spec in U.
  change (Prim2SF 1) with (S754_finite false 4503599627370496 (-52)) in U.
  change (Prim2SF 90) with (S754_finite false 6333186975989760 (-46)).
  pose proof (FloatAxioms.mul_spec y 90) as S.
  change (Prim2SF 90) with (S754_finite false 6333186975989760 (-46)) in S.
  destruct (number_cases y N L) as [[s E]|[E|(m & e & E)]]; rewrite E in *.
  - assert (Q : Prim2SF (y * 90) = S754_zero s) by (rewrite S; now destruct s).
    rewrite Q. repeat split. apply not_below_0_spec. now rewrite Q.
  - discriminate U.
  - assert (L52 : (2 ^ 52 <= Z.pos 4503599627370496)%Z)
      by (change (2 ^ 52)%Z with 4503599627370496%Z; lia).
    destruct (below_or_equal y m e 4503599627370496 (-52) E L52 U)
      as [E52 [[-> ->]|B]].
    + assert (y = 1) by (apply Prim2SF_inj; rewrite E; reflexivity).
      subst y. repeat split.
    + specialize (B e (Z.le_refl e)).
      rewrite Z.sub_diag, Z.mul_1_r in B.
      change 4503599627370496%Z with (2 ^ 52)%Z in B.
      rewrite <- pow2_split in B by lia.
      replace (52 + (-52 - e))%Z with (- e)%Z in B by lia.
      assert (R : (2 ^ 52 <= Z.pos 6333186975989760 < 2 ^ 53)%Z).
      { change (2 ^ 52)%Z with 4503599627370496%Z.
        change (2 ^ 53)%Z with 9007199254740992%Z. lia. }
      pose proof (below_one_times m e 6333186975989760 (-46) B
                    ltac:(lia) R ltac:(lia)) as D.
      unfold SF64mul, SFmul in S. simpl xorb in S. rewrite <- S in D.
      destruct (Prim2SF (y * 90)) as [s|s| |s m3 e3] eqn:Q; try contradiction.
      * repeat split. apply not_below_0_spec. now rewrite Q.
      * destruct D as (-> & g & G1 & G2 & D).
        destruct (finite_mantissa (y * 90) false m3 e3 Q) as (_ & _ & C).
        repeat split.
        -- apply not_below_0_spec. now rewrite Q.
        -- apply (not_above_raw m3 e3 6333186975989760 (-46) g); auto;
             try reflexivity; lia.
Qed.

(** A number from 0 to 90 less 45 is a number from -45 to 45. *)
Lemma less_45_on_scale z :
  is_nan z = false -> (z <? 0) = false -> (90 <? z) = false ->
  is_nan (-45 + z) = false /\ (-45 + z <? -45) = false /\
  (45 <? -45 + z) = false.
Proof.
  intros N L U.
  rewrite is_nan_spec, (FloatAxioms.ltb_spec 45),
    (FloatAxioms.ltb_spec (-45 + z)).
  rewrite FloatAxioms.ltb_spec in U.
  change (Prim2SF 90) with (S754_finite false 6333186975989760 (-46)) in U.
  change (Prim2SF 45) with (S754_finite false 6333186975989760 (-47)).
  change (Prim2SF (-45)) with (S754_finite true 6333186975989760 (-47)).
  pose proof (FloatAxioms.add_spec (-45) z) as S.
  change (Prim2SF (-45)) with (S754_finite true 6333186975989760 (-47)) in S.
  destruct (number_cases z N L) as [[s E]|[E|(m & e & E)]]; rewrite E in *.
  - assert (Q : Prim2SF (-45 + z) =
                S754_finite true 6333186975989760 (-47)) by exact S.
    rewrite Q. repeat split.
  - discriminate U.
  - assert (R : (2 ^ 52 <= Z.pos 6333186975989760 < 2 ^ 53)%Z).
    { change (2 ^ 52)%Z with 4503599627370496%Z.
      change (2 ^ 53)%Z with 9007199254740992%Z. lia. }
    destruct (below_or_equal z m e 6333186975989760 (-46) E (proj1 R) U)
      as [E46 [[-> ->]|B]].
    + assert (z = 90) by (apply Prim2SF_inj; rewrite E; reflexivity).
      subst z. repeat split.
    + unfold SF64add, SFadd, cond_Zopp in S.
      set (ez := Z.min (-47) e) in *.
      destruct (shl_align_spec 6333186975989760 (-47) ez) as [_ Sa].
      destruct (shl_align_spec m e ez) as [_ Sb].
      set (a := fst (shl_align 6333186975989760 (-47) ez)) in *.
      set (b := fst (shl_align m e ez)) in *.
      replace (Z.min (-47) ez) with ez in Sa by (unfold ez; lia).
      replace (Z.min e ez) with ez in Sb by (unfold ez; lia).
      assert (Ez : (ez <= -47)%Z) by (unfold ez; lia).
      assert (Ee : (ez <= e)%Z) by (unfold ez; lia).
      assert (Bb : (Z.pos b < 2 * Z.pos a)%Z).
      { rewrite Sa, Sb. specialize (B ez Ee).
        replace (-46 - ez)%Z with (1 + (-47 - ez))%Z in B by lia.
        rewrite pow2_split in B by lia. change (2 ^ 1)%Z with 2%Z in B. lia. }
      destruct (- Z.pos a + Z.pos b)%Z as [|p|p] eqn:D.
      * assert (Q : Prim2SF (-45 + z) = S754_zero false) by exact S.
        rewrite Q. repeat split.
      * assert (V : (Z.pos p < Z.pos 6333186975989760 * 2 ^ (-47 - ez))%Z)
          by lia.
        pose proof (binary_round_below false p ez 6333186975989760 (-47)
                      Ez ltac:(lia) R V) as W.
        change (binary_normalize prec emax (Z.pos p) ez false)
          with (binary_round prec emax false p ez) in S.
        rewrite <- S in W.
        destruct (Prim2SF (-45 + z)) as [s|s| |s m3 e3] eqn:Q;
          try contradiction.
        -- subst s. repeat split.
        -- destruct W as (-> & g & G1 & G2 & W).
           destruct (finite_mantissa (-45 + z) false m3 e3 Q) as (_ & _ & C).
           repeat split.
           apply (not_above_raw m3 e3 6333186975989760 (-47) g); auto; lia.
      * assert (V : (Z.pos p < Z.pos 6333186975989760 * 2 ^ (-47 - ez))%Z)
          by lia.
        pose proof (binary_round_below true p ez 6333186975989760 (-47)
                      Ez ltac:(lia) R V) as W.
        change (binary_normalize prec emax (Z.neg p) ez false)
          with (binary_round prec emax true p ez) in S.
        rewrite <- S in W.
        destruct (Prim2SF (-45 + z)) as [s|s| |s m3 e3] eqn:Q;
          try contradiction.
        -- subst s. repeat split.
        -- destruct W as (-> & g & G1 & G2 & W).
           destruct (finite_mantissa (-45 + z) true m3 e3 Q) as (_ & _ & C).
           repeat split.
           apply (not_below_raw m3 e3 6333186975989760 (-47) g); auto; lia.
Qed.

End Needle.

Import Needle.

Lemma run_emf_number_init d evs :
  Forall readingsOk evs ->
  let l := emfLevel (run (mount d) evs) in
  is_nan l = false /\ (l <? 0) = false /\ (5 <? l) = false.
Proof.
  intros R l.
  destruct (run_emf_number evs R (mount d)) as [N L]; [split; reflexivity|].
  pose proof (run_emf_upper evs (mount d) eq_refl) as U. auto.
Qed.

(** X18: when the random draws of the detection loop are values of
    [Math.random()], the rotation of the needle lies between -45 and 45
    degrees in every state the component can reach. *)
Theorem needle_stays_on_scale d evs :
  Forall readingsOk evs ->
  let r := emfNeedleRotation (emfLevel (run (mount d) evs)) in
  (-45 <=? r) && (r <=? 45) = true.
Proof.
  intros R r. destruct (run_emf_number_init d evs R) as (N & L & U).
  destruct (fifth_on_scale _ N L U) as (N1 & L1 & U1).
  destruct (ninety_on_scale _ N1 L1 U1) as (N2 & L2 & U2).
  destruct (less_45_on_scale _ N2 L2 U2) as (N3 & L3 & U3).
  fold (emfNeedleRotation (emfLevel (run (mount d) evs))) in N3, L3, U3.
  fold r in N3, L3, U3. apply andb_true_intro. split.
  - apply leb_of_not_ltb; auto.
  - apply leb_of_not_ltb; auto.
Qed.

Lemma needle_stays_on_scale_witness :
  let l := emfLevel (run (mount true)
             [ClickToggle startOk;
              Estimated [(poseOf 17 1, mkReading 0.5 5000)]]) in
  l = 5 /\ emfNeedleRotation l = 45 /\
  (-45 <=? emfNeedleRotation l) && (emfNeedleRotation l <=? 45) = true.
Proof.
  intros l. split; [reflexivity|]. split; [reflexivity|].
  apply (needle_stays_on_scale true
           [ClickToggle startOk;
            Estimated [(poseOf 17 1, mkReading 0.5 5000)]]).
  repeat constructor; reflexivity.
Defined.

(** ** The memory of the throttle *)

Lemma last_snoc {A} (l : list A) x d : last (l ++ [x]) d = x.
Proof. apply last_last. Qed.

Lemma onPose_latestAlert a pr :
  lastAlertTime a = latestAlert a ->
  lastAlertTime (onPose a pr) = latestAlert (onPose a pr).
Proof.
  destruct pr as [pose env]. unfold latestAlert. intros H.
  rewrite onPose_effects, onPose_lastAlertTime, alertsOf_app.
  destruct (qualifying pose && throttleOpen (now env) (lastAlertTime a)).
  - rewrite alertsOf_single. now rewrite last_snoc.
  - simpl. now rewrite app_nil_r.
Qed.

Lemma fold_onPose_latestAlert poses :
  forall a, lastAlertTime a = latestAlert a ->
  lastAlertTime (fold_left onPose poses a) =
  latestAlert (fold_left onPose poses a).
Proof.
  induction poses as [|pr poses IH]; intros a H; cbn [fold_left]; auto.
  apply IH. now apply onPose_latestAlert.
Qed.

Lemma latestAlert_ext a b :
  lastAlertTime b = lastAlertTime a ->
  alertsOf (effects b) = alertsOf (effects a) ->
  lastAlertTime a = latestAlert a -> lastAlertTime b = latestAlert b.
Proof. unfold latestAlert. now intros -> ->. Qed.

Lemma step_latestAlert a ev :
  lastAlertTime a = latestAlert a ->
  lastAlertTime (step a ev) = latestAlert (step a ev).
Proof.
  intros H.
  destruct ev as [env| |posted|id ready|poses| |r1 r2 r3|i];
    try (apply latestAlert_ext with a; [| |exact H];
         unfold step; unfold_handlers; destruct a; cbn; handler_cases;
         rewrite ?alertsOf_app, ?alertsOf_single; cbn;
         rewrite ?app_nil_r; auto; fail).
  unfold step. destruct (0 <? inflight a)%nat; [|exact H].
  unfold detectPoses_resolved.
  apply latestAlert_ext with (onPoses poses (set_inflight Nat.pred a)); auto.
  unfold onPoses. destruct (0 <? length poses)%nat; [|exact H].
  apply fold_onPose_latestAlert. exact H.
Qed.

(** X19: in every state the component can reach, the time the throttle
    compares with is the time of the latest alert ever presented, and 0
    before the first: neither a stop nor a new start resets it. *)
Theorem throttle_remembers_latest_alert d evs :
  lastAlertTime (run (mount d) evs) =
  last (alertsOf (effects (run (mount d) evs))) 0%Z.
Proof.
  assert (G : forall a, lastAlertTime a = latestAlert a ->
              lastAlertTime (run a evs) = latestAlert (run a evs)).
  { unfold run. induction evs as [|ev evs IH]; intros a H; simpl; auto.
    apply IH. now apply step_latestAlert. }
  apply G. reflexivity.
Qed.

(** ** Requests to the backend *)

Lemma levelOk_onScale l : levelOk l -> onScale l = true.
Proof.
  intros (N & L & U). unfold onScale. apply andb_true_intro.
  split; apply leb_of_not_ltb; auto.
Qed.

Lemma step_levelOk a ev :
  readingsOk ev -> levelOk (emfLevel a) -> levelOk (emfLevel (step a ev)).
Proof.
  intros R. apply (step_emf levelOk).
  - repeat split.
  - intros l (N & L & U). repeat split.
    + now apply decay_number.
    + apply decay_not_below_0.
    + now apply decay_not_above_5.
  - destruct ev; auto. intros pr Hp Q.
    simpl in R. rewrite Forall_forall in R. specialize (R pr Hp).
    repeat split.
    + now apply newEmf_number.
    + now apply newEmf_not_below_0.
    + apply newEmf_not_above_5.
Qed.

Lemma fold_onPose_wellFormed poses :
  forall a, Forall wellFormed (effects a) ->
            Forall wellFormed (effects (fold_left onPose poses a)).
Proof.
  induction poses as [|[pose env] poses IH]; intros a H; cbn [fold_left];
    [exact H|].
  apply IH. rewrite onPose_effects. apply Forall_app. split; [exact H|].
  destruct (qualifying pose && throttleOpen (now env) (lastAlertTime a));
    repeat constructor.
Qed.

Lemma counted_not_negative a : counted a -> (0 <= detectionCount a)%Z.
Proof. unfold counted, alertsSinceStart. intros ->. lia. Qed.

Lemma confidence_number pose :
  length (validKeypoints pose) <> 0%nat ->
  is_nan (avgScore (validKeypoints pose)) = false /\
  (avgScore (validKeypoints pose) <? 0) = false.
Proof.
  intros N.
  destruct (avgScore_number pose) as [A U].
  - intros E. rewrite E in N. now apply N.
  - split; [now apply not_nan_spec|now apply not_below_0_spec].
Qed.

Ltac requests a :=
  unfold step; unfold_handlers; destruct a; cbn in *; handler_cases;
  repeat match goal with
         | |- context [match ?x with _ => _ end] => destruct x; cbn
         end;
  rewrite ?Forall_app; repeat split; auto; repeat constructor; auto.

Lemma step_wellFormed a ev :
  sound a -> Forall wellFormed (effects (step a ev)).
Proof.
  intros (C & L & T & W).
  apply counted_not_negative in C. apply levelOk_onScale in L.
  destruct ev as [env| |posted|id ready|poses| |r1 r2 r3|i];
    try (requests a; fail).
  - unfold step. destruct (isRunning a); [|exact W].
    unfold logDetection. destruct (currentPoses a) as [|pose rest]; [exact W|].
    assert (G : Forall wellFormed
                  (effects a ++
                   [PostDetection (avgScore (validKeypoints pose))
                      (length (validKeypoints pose)) (emfLevel a)
                      (if spiritBoxActive a then Some (spiritBoxFreq a)
                       else None)])).
    { apply Forall_app. split; [exact W|]. constructor; [|constructor].
      simpl. split; [apply confidence_number|]. split; [exact L|].
      destruct (spiritBoxActive a); auto. }
    destruct posted; exact G.
  - unfold step. destruct (0 <? inflight a)%nat; [|exact W].
    unfold detectPoses_resolved.
    change (effects (requestAnimationFrame
                       (onPoses poses (set_inflight Nat.pred a))))
      with (effects (onPoses poses (set_inflight Nat.pred a))).
    unfold onPoses. destruct (0 <? length poses)%nat; [|exact W].
    apply fold_onPose_wellFormed. exact W.
Qed.

Lemma step_sound a ev : drawsOk ev -> sound a -> sound (step a ev).
Proof.
  intros [R1 R2] S. pose proof (step_wellFormed a ev S) as W.
  destruct S as (C & L & T & _). repeat split.
  - now apply step_counted.
  - now apply step_levelOk.
  - now apply step_levelOk.
  - now apply step_levelOk.
  - destruct (step_tenth a ev T R1) as (n & B & E). exists n. auto.
  - exact W.
Qed.

Lemma run_sound evs :
  Forall drawsOk evs -> forall a, sound a -> sound (run a evs).
Proof.
  unfold run. induction 1 as [|ev evs R _ IH]; intros a S; simpl; auto.
  apply IH. now apply step_sound.
Qed.

Lemma mount_sound d : sound (mount d).
Proof.
  repeat split; try reflexivity; [apply mount_tenth|constructor].
Qed.

(** X20: when all random draws are values of [Math.random()], every
    request the component ever sends is well formed: a summary carries a
    count that is not negative and a level from 0 to 5; a logged detection
    carries a level from 0 to 5, a frequency [n / 10] inside the band or
    none, and a confidence that is a number and not negative whenever a
    keypoint was counted. *)
Theorem requests_are_well_formed d evs :
  Forall drawsOk evs ->
  Forall wellFormed (effects (run (mount d) evs)).
Proof.
  intros R. apply (run_sound evs R (mount d) (mount_sound d)).
Qed.

Lemma requests_are_well_formed_witness :
  let evs := [ClickToggle startOk;
              Estimated [(poseOf 6 0.9, mkReading 0.99 5000)];
              ClickSpirit; Tick 0.7 0.5 0.5; ClickLog true;
              ClickToggle startOk] in
  length (effects (run (mount true) evs)) = 4%nat /\
  Forall wellFormed (effects (run (mount true) evs)).
Proof.
  intros evs. split; [reflexivity|].
  apply (requests_are_well_formed true evs).
  unfold evs. repeat constructor; reflexivity.
Defined.
